(** * MediPredict: the data pipeline of the febrile-illness classifier

    A shallow embedding of the in-scope core of the repository:
    - [lib/data-parser]  (parseCSV, convertToTrainingData, generateSampleData),
    - [lib/ml-models]    (normalizeFeatures, predict, predictBatch,
                          calculateConfusionMatrix, calculateMetrics); the
                          two revisions of the file differ in predict and
                          predictBatch only, and both are given,
    - the batch handler of the dashboard (handleFileSelect and
      handleBatchProcess), the trained model and the workbook reader being
      parameters,
    - the dashboard page (handlePredict and handleBatchProcess of
      app/dashboard/page), whose results are drawn.

    Conventions.
    - A JavaScript string is a list of code units below 256 ([list ascii]),
      that is text of the Latin-1 range; [trim] and [toLowerCase] are those
      of JavaScript on that range.
    - A JavaScript number that may be NaN or infinite is a [number]; its finite
      values are rationals kept in lowest terms, and the two zeros are one.
      Where the operands can be any doubles (the decimal that parseFloat
      reads, the arithmetic of normalizeFeatures) a result is rounded to the
      nearest double, with its overflow and underflow.  Counts, ratios of
      counts and the values derived from the draws are computed exactly:
      code that only ever sees such values (the metrics, the synthetic
      cohort, the position of a feature between its fitted bounds) is
      written with exact operations, over [number] or over [Q] directly.
    - [Math.pow] with a fractional exponent is [Rpower] on the reals.
    - [Math.random] reads the next element of an explicit sequence of draws.
    - An object literal read under arbitrary keys is a [gmap] of its own keys
      together with the names that it inherits from [Object.prototype]. *)

From Stdlib Require Import Ascii String ZArith QArith Qround Qminmax Qcanon.
From Stdlib Require Import Qpower Qabs.
From Stdlib Require Import Reals Psatz Lia.
From stdpp Require Import base list strings gmap.

Local Open Scope nat_scope.

(** ** JavaScript numbers *)

Module JS.

Inductive number : Type :=
| NaN
| PInf
| NInf
| Fin (q : Q).

Definition of_Z (z : Z) : number := Fin (inject_Z z).
Definition of_nat (n : nat) : number := of_Z (Z.of_nat n).

Definition sign_inf (c : comparison) : number :=
  match c with Gt => PInf | Lt => NInf | Eq => NaN end.

Definition flip (c : comparison) : comparison :=
  match c with Gt => Lt | Lt => Gt | Eq => Eq end.

(** [x + y] *)
Definition add (x y : number) : number :=
  match x, y with
  | NaN, _ | _, NaN => NaN
  | PInf, NInf | NInf, PInf => NaN
  | PInf, _ | _, PInf => PInf
  | NInf, _ | _, NInf => NInf
  | Fin a, Fin b => Fin (Qred (a + b))
  end.

(** [x * y] *)
Definition mul (x y : number) : number :=
  match x, y with
  | NaN, _ | _, NaN => NaN
  | PInf, PInf | NInf, NInf => PInf
  | PInf, NInf | NInf, PInf => NInf
  | PInf, Fin b | Fin b, PInf => sign_inf (b ?= 0)%Q
  | NInf, Fin b | Fin b, NInf => sign_inf (flip (b ?= 0)%Q)
  | Fin a, Fin b => Fin (Qred (a * b))
  end.

(** [x / y]; a finite non-zero value over zero is infinite, [0 / 0] is NaN. *)
Definition div (x y : number) : number :=
  match x, y with
  | NaN, _ | _, NaN => NaN
  | (PInf | NInf), (PInf | NInf) => NaN
  | PInf, Fin b => match (b ?= 0)%Q with Lt => NInf | _ => PInf end
  | NInf, Fin b => match (b ?= 0)%Q with Lt => PInf | _ => NInf end
  | Fin _, (PInf | NInf) => Fin 0
  | Fin a, Fin b =>
      match (b ?= 0)%Q with
      | Eq => sign_inf (a ?= 0)%Q
      | _ => Fin (Qred (a / b))
      end
  end.

(** Truthiness of a number: NaN and zero are falsy. *)
Definition truthy (x : number) : bool :=
  match x with
  | NaN => false
  | Fin q => negb (Qeq_bool q 0)
  | _ => true
  end.

(** [x || y] on numbers *)
Definition or_else (x y : number) : number := if truthy x then x else y.

(** [Number.isNaN] *)
Definition isNaN (x : number) : bool :=
  match x with NaN => true | _ => false end.

(** [x - y] *)
Definition sub (x y : number) : number :=
  match x, y with
  | NaN, _ | _, NaN => NaN
  | PInf, PInf | NInf, NInf => NaN
  | PInf, _ | _, NInf => PInf
  | NInf, _ | _, PInf => NInf
  | Fin a, Fin b => Fin (Qred (a - b))
  end.

(** [x > y]; a comparison with NaN is false. *)
Definition gt (x y : number) : bool :=
  match x, y with
  | NaN, _ | _, NaN => false
  | _, PInf | NInf, _ => false
  | PInf, _ | _, NInf => true
  | Fin a, Fin b => negb (Qle_bool a b)
  end.

(** [Math.max(x, y)] and [Math.min(x, y)] *)
Definition max (x y : number) : number :=
  match x, y with
  | NaN, _ | _, NaN => NaN
  | PInf, _ | _, PInf => PInf
  | NInf, z | z, NInf => z
  | Fin a, Fin b => if Qle_bool a b then Fin b else Fin a
  end.

Definition min (x y : number) : number :=
  match x, y with
  | NaN, _ | _, NaN => NaN
  | NInf, _ | _, NInf => NInf
  | PInf, z | z, PInf => z
  | Fin a, Fin b => if Qle_bool a b then Fin a else Fin b
  end.

(** *** Doubles

    Where the source stores the result of an operation whose operands can be
    any doubles (the decimal read by parseFloat, the differences and the
    quotient of normalizeFeatures), the result is rounded as binary64
    does: to 53 significant bits, or to a multiple of [2 ^ -1074] below
    [2 ^ -1022], the nearest value and of two nearest ones the even one;
    a result that reaches [2 ^ 1024] is infinite. *)

(** [2 ^ z] *)
Definition pow2 (z : Z) : Q := Qpower 2 z.

(** The whole number nearest to [x], the even one when [x] lies half way
    between two. *)
Definition round_half_even (x : Q) : Z :=
  let f := Qfloor x in
  match Qcompare (x - inject_Z f) (1 # 2) with
  | Lt => f
  | Gt => (f + 1)%Z
  | Eq => if Z.even f then f else (f + 1)%Z
  end.

(** The exponent of a positive number [a]: the [e] such that
    [2 ^ e <= a < 2 ^ (e + 1)]. *)
Definition exponent (a : Q) : Z :=
  let e := (Z.log2 (Qnum a) - Z.log2 (Zpos (Qden a)))%Z in
  if Qle_bool (pow2 e) a then e else (e - 1)%Z.

(** The exponent of the last place of the double of [a]. *)
Definition ulp_exponent (a : Q) : Z := (Z.max (exponent a) (-1022) - 52)%Z.

(** The magnitude of a positive number, rounded. *)
Definition round_magnitude (a : Q) : Q :=
  let k := ulp_exponent a in
  inject_Z (round_half_even (a / pow2 k)) * pow2 k.

(** The double nearest to [q]. *)
Definition nearest (q : Q) : number :=
  match Qcompare q 0 with
  | Eq => Fin 0
  | c =>
      let v := round_magnitude (Qabs q) in
      if Qle_bool (pow2 1024) v
      then match c with Lt => NInf | _ => PInf end
      else Fin (Qred (match c with Lt => - v | _ => v end))
  end.

(** A result that is stored in a double. *)
Definition rounded (x : number) : number :=
  match x with Fin q => nearest q | _ => x end.

(** The least magnitude that rounds to an infinity: half a last place
    above the largest double. *)
Definition overflow_threshold : Q := pow2 1024 - pow2 970.


(** [x === 0] *)
Definition is_zero (x : number) : bool :=
  match x with Fin q => Qeq_bool q 0 | _ => false end.

End JS.

Abbreviation number := JS.number.

(** The three class names, in class order. *)
Definition DISEASE_LABELS : list (list ascii) :=
  map list_ascii_of_string ["Dengue"; "Malaria"; "Leptospirosis"]%string.

(** ** Evaluation engine (lib/ml-models) *)

Module Evaluation.

Abbreviation matrix := (list (list number)).

(** [Array(3).fill(0).map(() => Array(3).fill(0))] *)
Definition zero_matrix (numClasses : nat) : matrix :=
  replicate numClasses (replicate numClasses (JS.Fin 0)).

(** [row[p]++].  Inside the row the cell grows by one.  Past its end the
    array is extended: the skipped positions are holes, which read as
    undefined (NaN in arithmetic), and position [p] receives
    [undefined + 1], which is NaN. *)
Definition incr_cell (row : list number) (p : nat) : list number :=
  match row !! p with
  | Some v => <[p := JS.add v (JS.Fin 1)]> row
  | None => row ++ replicate (p - length row) JS.NaN ++ [JS.NaN]
  end.

(** One iteration of the loop of calculateConfusionMatrix:
    [matrix[actuals[i]][predictions[i]]++].  [None] is the TypeError raised
    when [matrix[actuals[i]]] is undefined, that is when [actuals[i]] is
    missing or is not a row index. *)
Definition confusion_step (actuals : list nat) (m : option matrix)
    (ip : nat * nat) : option matrix :=
  let '(i, p) := ip in
  m ← m;
  a ← actuals !! i;
  row ← m !! a;
  Some (<[a := incr_cell row p]> m).

Definition calculateConfusionMatrix (predictions actuals : list nat)
  : option matrix :=
  let numClasses := length DISEASE_LABELS in
  foldl (confusion_step actuals) (Some (zero_matrix numClasses))
        (imap (λ i p, (i, p)) predictions).

(** [confusionMatrix[i][j]]; for [i] below [confusionMatrix.length] the row
    exists, and a missing cell reads as undefined. *)
Definition cell (m : matrix) (i j : nat) : number :=
  match m !! i with
  | Some row => default JS.NaN (row !! j)
  | None => JS.NaN
  end.

Record Metrics := mkMetrics {
  accuracy : number;
  precision : number;
  recall : number;
  f1Score : number
}.

(** The accumulators of the outer loop of calculateMetrics. *)
Record Totals := mkTotals {
  totalCorrect : number;
  totalSamples : number;
  totalPrecision : number;
  totalRecall : number
}.

(** The inner loop over [j]: (falsePositive, falseNegative, totalSamples). *)
Definition inner_step (m : matrix) (i : nat)
    (acc : number * number * number) (j : nat) : number * number * number :=
  let '(fp, fn, ts) := acc in
  let fp' := if decide (j ≠ i) then JS.add fp (cell m j i) else fp in
  let fn' := if decide (j ≠ i) then JS.add fn (cell m i j) else fn in
  (fp', fn', JS.add ts (cell m i j)).

Definition outer_step (m : matrix) (numClasses : nat) (t : Totals) (i : nat)
  : Totals :=
  let truePositive := cell m i i in
  let '(falsePositive, falseNegative, ts) :=
    foldl (inner_step m i) (JS.Fin 0, JS.Fin 0, totalSamples t)
          (seq 0 numClasses) in
  let precision :=
    JS.or_else (JS.div truePositive (JS.add truePositive falsePositive))
               (JS.Fin 0) in
  let recall :=
    JS.or_else (JS.div truePositive (JS.add truePositive falseNegative))
               (JS.Fin 0) in
  {| totalCorrect := JS.add (totalCorrect t) truePositive;
     totalSamples := ts;
     totalPrecision := JS.add (totalPrecision t) precision;
     totalRecall := JS.add (totalRecall t) recall |}.

Definition calculateMetrics (confusionMatrix : matrix) : Metrics :=
  let numClasses := length confusionMatrix in
  let t :=
    foldl (outer_step confusionMatrix numClasses)
          (mkTotals (JS.Fin 0) (JS.Fin 0) (JS.Fin 0) (JS.Fin 0))
          (seq 0 numClasses) in
  let accuracy := JS.div (totalCorrect t) (totalSamples t) in
  let avgPrecision := JS.div (totalPrecision t) (JS.of_nat numClasses) in
  let avgRecall := JS.div (totalRecall t) (JS.of_nat numClasses) in
  let f1Score :=
    JS.or_else
      (JS.div (JS.mul (JS.mul (JS.Fin 2) avgPrecision) avgRecall)
              (JS.add avgPrecision avgRecall))
      (JS.Fin 0) in
  {| accuracy := accuracy;
     precision := avgPrecision;
     recall := avgRecall;
     f1Score := f1Score |}.

End Evaluation.


(** ** JavaScript strings *)

Module Text.

Abbreviation str := (list ascii).

Definition LF : ascii := "010"%char.
Definition CR : ascii := "013"%char.
Definition comma : ascii := ","%char.
Definition dquote : ascii := "034"%char.

Definition eqc (a b : ascii) : bool := Ascii.eqb a b.

(** White space removed by [trim] and skipped by [parseFloat]: among the
    code units below 256 these are tab, line feed, vertical tab, form feed,
    carriage return, space and the no-break space (160). *)
Definition is_space (c : ascii) : bool :=
  let n := nat_of_ascii c in
  ((9 <=? n) && (n <=? 13)) || (n =? 32) || (n =? 160).

Fixpoint trimStart (s : str) : str :=
  match s with
  | c :: rest => if is_space c then trimStart rest else s
  | [] => []
  end.

Definition trimEnd (s : str) : str := rev (trimStart (rev s)).

Definition trim (s : str) : str := trimEnd (trimStart s).

(** The lower case of a code unit below 256: the letters A to Z, and the
    accented capitals 192 to 222 except the multiplication sign 215, move up
    by 32. *)
Definition lower (c : ascii) : ascii :=
  let n := nat_of_ascii c in
  if ((65 <=? n) && (n <=? 90))
     || ((192 <=? n) && (n <=? 222) && negb (n =? 215))
  then ascii_of_nat (n + 32) else c.

Definition toLowerCase (s : str) : str := map lower s.

(** [a === b] on strings *)
Definition eqs (a b : str) : bool := bool_decide (a = b).

Definition startsWith (c : ascii) (s : str) : bool :=
  match s with x :: _ => eqc x c | [] => false end.

Definition endsWith (c : ascii) (s : str) : bool := startsWith c (rev s).

(** [s.slice(1, -1)] *)
Definition slice_1_m1 (s : str) : str := removelast (tail s).

(** Add a character in front of the first piece. *)
Definition push_front (c : ascii) (pieces : list str) : list str :=
  match pieces with
  | first :: others => (c :: first) :: others
  | [] => [[c]]
  end.

(** [s.split(sep)] for a one-character separator. *)
Fixpoint split (sep : ascii) (s : str) : list str :=
  match s with
  | [] => [[]]
  | c :: rest =>
      if eqc c sep then [] :: split sep rest
      else push_front c (split sep rest)
  end.

(** [s.split(/\r?\n/)]: a line feed, or a carriage return and the line feed
    after it, ends a line. *)
Fixpoint split_lines (s : str) : list str :=
  match s with
  | [] => [[]]
  | c :: rest =>
      if eqc c LF then [] :: split_lines rest
      else match rest with
           | c' :: rest' =>
               if eqc c CR && eqc c' LF then [] :: split_lines rest'
               else push_front c (split_lines rest)
           | [] => [[c]]
           end
  end.

(** [s.replace] with the global pattern of two double quotes: every
    doubled double quote, left to right, becomes a single one. *)
Fixpoint unescape (s : str) : str :=
  match s with
  | c :: rest =>
      match rest with
      | c' :: rest' =>
          if eqc c dquote && eqc c' dquote then dquote :: unescape rest'
          else c :: unescape rest
      | [] => [c]
      end
  | [] => []
  end.

End Text.

Definition strs (l : list string) : list Text.str := map list_ascii_of_string l.
Coercion list_ascii_of_string : string >-> list.

(** ** Object literals read as dictionaries *)

Module Dict.
Import Text.

(** The names that every object literal inherits from [Object.prototype].
    A read under one of them does not give undefined: it gives a function,
    or for [__proto__] the prototype itself. *)
Definition inherited_names : list str := strs [
  "constructor"; "__defineGetter__"; "__defineSetter__"; "hasOwnProperty";
  "__lookupGetter__"; "__lookupSetter__"; "isPrototypeOf";
  "propertyIsEnumerable"; "toString"; "valueOf"; "__proto__";
  "toLocaleString"
]%string.

(** What the read [literal[key]] gives: the value of a key of the literal,
    the member inherited under [name], or undefined. *)
Inductive entry (A : Type) : Type :=
| Own (v : A)
| Inherited (name : str)
| Undefined.

Arguments Own {A} v.
Arguments Inherited {A} name.
Arguments Undefined {A}.

#[export] Instance entry_eq_dec `{EqDecision A} : EqDecision (entry A).
Proof. solve_decision. Defined.

(** [literal[key]], the literal being given by its own keys. *)
Definition get {A} (literal : gmap str A) (key : str) : entry A :=
  match literal !! key with
  | Some v => Own v
  | None =>
      if bool_decide (key ∈ inherited_names) then Inherited key
      else Undefined
  end.

End Dict.


(** ** Tabular parser (lib/data-parser, parseCSV) *)

Module Parser.
Import Text.

(** The cell pattern of parseCSV has two alternatives: a quoted field, which
    is a double quote, a body in which double quotes only occur doubled, and
    a closing double quote; or a non-empty run of characters other than the
    comma. *)

(** First alternative, after the opening quote: the text matched up to and
    including the closing quote.  The body is taken greedily; when the line
    ends inside it, the match backtracks to the first quote of the last
    doubled pair, which then closes the field.  [None]: no quote follows. *)
Fixpoint quoted (s : str) : option str :=
  match s with
  | [] => None
  | c :: rest =>
      if eqc c dquote then
        match rest with
        | c' :: rest' =>
            if eqc c' dquote then
              match quoted rest' with
              | Some m => Some (c :: c' :: m)
              | None => Some [c]
              end
            else Some [c]
        | [] => Some [c]
        end
      else option_map (cons c) (quoted rest)
  end.

(** Second alternative: the longest run without a comma, if not empty. *)
Fixpoint unquoted_run (s : str) : str :=
  match s with
  | c :: rest => if eqc c comma then [] else c :: unquoted_run rest
  | [] => []
  end.

Definition unquoted (s : str) : option str :=
  match unquoted_run s with
  | [] => None
  | run => Some run
  end.

(** The pattern tried at the start of [s]. *)
Definition match_here (s : str) : option str :=
  match s with
  | [] => None
  | c :: rest =>
      if eqc c dquote then
        match quoted rest with
        | Some m => Some (c :: m)
        | None => unquoted s
        end
      else unquoted s
  end.

(** [line.matchAll(regex)]: the pattern is tried at each position in turn;
    after a match the search resumes at the end of the matched text, so
    [skip] characters of a match remain to be passed over. *)
Fixpoint matchAll (skip : nat) (s : str) : list str :=
  match s with
  | [] => []
  | _ :: rest =>
      match skip with
      | S k => matchAll k rest
      | 0 =>
          match match_here s with
          | Some m => m :: matchAll (length m - 1) rest
          | None => matchAll 0 rest
          end
      end
  end.

(** The body of the loop over the matches of one line. *)
Definition cell_of_match (m : str) : str :=
  let cell :=
    if startsWith dquote m && endsWith dquote m
    then unescape (slice_1_m1 m)
    else m in
  trim cell.

Definition parse_line (line : str) : list str :=
  map cell_of_match (matchAll 0 line).

Definition not_blank (line : str) : bool :=
  negb (bool_decide (length (trim line) = 0)).

Definition csv_error : str :=
  "El archivo CSV debe tener encabezados y al menos una fila de datos"%string.

Record Parsed := mkParsed { headers : list str; rows : list (list str) }.

(** The thrown [Error] is the left summand. *)
Definition parseCSV (content : str) : str + Parsed :=
  let lines := List.filter not_blank (split_lines (trim content)) in
  match lines with
  | first :: ((_ :: _) as others) =>
      inr {| headers := map trim (split comma first);
             rows := map parse_line others |}
  | _ => inl csv_error
  end.

End Parser.

(** ** Feature encoder (lib/data-parser, convertToTrainingData) *)

Module Encoder.
Import Text.

Definition is_digit (c : ascii) : bool :=
  let n := nat_of_ascii c in (48 <=? n) && (n <=? 57).

Definition digit_value (c : ascii) : Z := Z.of_nat (nat_of_ascii c - 48).

Fixpoint span_digits (s : str) : list ascii * str :=
  match s with
  | c :: rest =>
      if is_digit c
      then let '(ds, r) := span_digits rest in (c :: ds, r)
      else ([], s)
  | [] => ([], [])
  end.

Definition Z_of_digits (ds : list ascii) : Z :=
  foldl (λ acc d, acc * 10 + digit_value d)%Z 0%Z ds.

Fixpoint has_prefix (p s : str) : bool :=
  match p, s with
  | [], _ => true
  | a :: p', b :: s' => eqc a b && has_prefix p' s'
  | _ :: _, [] => false
  end.

(** An optional sign: the factor and the rest. *)
Definition sign_of (s : str) : Z * str :=
  match s with
  | c :: rest =>
      if eqc c "-" then ((-1)%Z, rest)
      else if eqc c "+" then (1%Z, rest)
      else (1%Z, s)
  | [] => (1%Z, s)
  end.

(** The exponent part [e], [E] with an optional sign and at least one
    digit; anything else is not part of the number. *)
Definition exponent_of (s : str) : Z :=
  match s with
  | c :: rest =>
      if eqc c "e" || eqc c "E" then
        let '(sg, rest') := sign_of rest in
        match span_digits rest' with
        | ([], _) => 0%Z
        | (ds, _) => (sg * Z_of_digits ds)%Z
        end
      else 0%Z
  | [] => 0%Z
  end.

(** [m * 10 ^ k] as a rational. *)
Definition scale10 (m k : Z) : Q :=
  if (0 <=? k)%Z then inject_Z (m * 10 ^ k)
  else Qred (Qmake m (Z.to_pos (10 ^ (- k)))).

(** [Number.parseFloat]: leading white space is skipped and the longest
    prefix that is a decimal literal is read; without such a prefix the
    result is NaN.  The value is the double nearest to the decimal. *)
Definition parseFloat (value : str) : number :=
  let '(sg, s) := sign_of (trimStart value) in
  if has_prefix "Infinity"%string s then
    (if (sg <? 0)%Z then JS.NInf else JS.PInf)
  else
    let '(ip, s1) := span_digits s in
    let '(fp, s2) :=
      match s1 with
      | c :: rest => if eqc c "." then span_digits rest else ([], s1)
      | [] => ([], s1)
      end in
    match ip ++ fp with
    | [] => JS.NaN
    | ds =>
        JS.nearest (scale10 (sg * Z_of_digits ds)
                            (exponent_of s2 - Z.of_nat (length fp)))
    end.

Definition featureColumns : list str := strs [
  "age"; "gender"; "residence"; "homemaker"; "student"; "professional";
  "merchant"; "agriculture_livestock"; "various_jobs"; "unemployed";
  "hospitalization_days"; "body_temperature"; "fever"; "headache";
  "dizziness"; "loss_of_appetite"; "weakness"; "myalgias"; "arthralgias";
  "eye_pain"; "hemorrhages"; "vomiting"; "abdominal_pain"; "chills";
  "hemoptysis"; "edema"; "jaundice"; "bruises"; "petechiae"; "rash";
  "diarrhea"; "respiratory_difficulty"; "itching"; "hematocrit";
  "hemoglobin"; "red_blood_cells"; "white_blood_cells"; "neutrophils";
  "eosinophils"; "basophils"; "monocytes"; "lymphocytes"; "platelets";
  "AST"; "ALT"; "ALP"; "total_bilirubin"; "direct_bilirubin";
  "indirect_bilirubin"; "total_proteins"; "albumin"; "creatinine"; "urea"
]%string.

Definition labelColumn : str := "diagnosis"%string.

(** The keys of the literal [diseaseMap]; it is read with [Dict.get]. *)
Definition diseaseMap : gmap (list ascii) nat :=
  list_to_map [
    (list_ascii_of_string "dengue", 0);
    (list_ascii_of_string "malaria", 1);
    (list_ascii_of_string "leptospirosis", 2)
  ].

(** [xs.findIndex(p)]; [None] stands for [-1]. *)
Fixpoint findIndex {A} (p : A → bool) (xs : list A) : option nat :=
  match xs with
  | [] => None
  | x :: rest => if p x then Some 0 else S <$> findIndex p rest
  end.

Definition column_index (headers : list str) (col : str) : option nat :=
  findIndex (λ h, eqs (toLowerCase h) (toLowerCase col)) headers.

(** The test that skips a row. *)
Definition skipped (headers : list str) (row : list str) : bool :=
  bool_decide (length row = 0)
  || forallb (λ cell, eqs cell []) row
  || bool_decide (length row < length headers).

Definition bit (b : bool) : number := if b then JS.Fin 1 else JS.Fin 0.

(** The callback of [featureIndices.map] for one column.  [None] is the
    TypeError of calling [toLowerCase] on an undefined cell. *)
Definition encode_cell (row : list str) (columnName : str) (idx : option nat)
  : option number :=
  match idx with
  | None => Some (JS.Fin 0)
  | Some i =>
      let value := row !! i in
      let columnName := toLowerCase columnName in
      if eqs columnName "gender"%string then
        v ← value; Some (bit (eqs (toLowerCase v) "m"%string))
      else if eqs columnName "residence"%string then
        v ← value;
        Some (bit (eqs (toLowerCase v) "urban"%string
                   || eqs (toLowerCase v) "urbana"%string))
      else
        let num := from_option parseFloat JS.NaN value in
        Some (if JS.isNaN num then JS.Fin 0 else num)
  end.

Definition featureRow (featureIndices : list (option nat)) (row : list str)
  : option (list number) :=
  mapM (λ ci, encode_cell row ci.1 ci.2) (zip featureColumns featureIndices).

(** A value pushed onto [labels]: a class index, or the member of
    [Object.prototype] read under [name], which is not a number. *)
Inductive Label : Type :=
| Index (i : nat)
| Member (name : str).

#[export] Instance Label_eq_dec : EqDecision Label.
Proof. solve_decision. Defined.

(** [row[labelIndex]?.toLowerCase() || ""], then the read of the literal;
    only undefined is replaced by 0. *)
Definition label_of (row : list str) (labelIndex : nat) : Label :=
  let diagnosis := from_option toLowerCase [] (row !! labelIndex) in
  match Dict.get diseaseMap diagnosis with
  | Dict.Own i => Index i
  | Dict.Inherited name => Member name
  | Dict.Undefined => Index 0
  end.

Record TrainingData := mkTrainingData {
  features : list (list number);
  labels : list Label;
  hasLabels : bool;
  rowCount : nat
}.

(** One iteration of the loop over the rows, on the pair of arrays
    (features, labels). *)
Definition row_step (headers : list str) (featureIndices : list (option nat))
    (labelIndex : option nat)
    (acc : option (list (list number) * list Label)) (row : list str)
  : option (list (list number) * list Label) :=
  '(fs, ls) ← acc;
  if skipped headers row then Some (fs, ls)
  else
    fr ← featureRow featureIndices row;
    Some (fs ++ [fr],
          match labelIndex with
          | Some li => ls ++ [label_of row li]
          | None => ls
          end).

Definition convertToTrainingData (headers : list str) (rows : list (list str))
  : option TrainingData :=
  let featureIndices := map (column_index headers) featureColumns in
  let labelIndex := column_index headers labelColumn in
  let hasLabels := bool_decide (labelIndex ≠ None) in
  '(features, labels) ←
    foldl (row_step headers featureIndices labelIndex) (Some ([], [])) rows;
  Some {| features := features; labels := labels; hasLabels := hasLabels;
          rowCount := length features |}.

End Encoder.

(** ** Random draws *)

Module Random.

(** A result of [Math.random()]: a number in the interval from 0 included to
    1 excluded. *)
Record draw := mkDraw {
  value :> Q;
  value_range : (0 <= value /\ value < 1)%Q
}.

(** The draws still to come. *)
Definition source := nat → draw.

(** A computation that consumes draws. *)
Definition Rand (A : Type) : Type := source → A * source.

Definition ret {A} (a : A) : Rand A := λ g, (a, g).

Definition bind {A B} (m : Rand A) (k : A → Rand B) : Rand B :=
  λ g, let '(a, g') := m g in k a g'.

(** [Math.random()] *)
Definition Math_random : Rand Q := λ g, (value (g 0), λ k, g (S k)).

(** [Math.floor(Math.random() * n)] as an index. *)
Definition random_below (n : nat) : Rand nat :=
  bind Math_random (λ r, ret (Z.to_nat (Qfloor (r * inject_Z (Z.of_nat n))))).

(** [[a[i], a[j]] = [a[j], a[i]]].  The draws keep [j] between 0 and [i], so
    both reads hit the array; outside it nothing is exchanged here. *)
Definition swap {A} (i j : nat) (a : list A) : list A :=
  match a !! i, a !! j with
  | Some x, Some y => <[j := x]> (<[i := y]> a)
  | _, _ => a
  end.

(** The loop [for (i = a.length - 1; i > 0; i--)], entered with [i] equal to
    [n]. *)
Fixpoint shuffle_from {A} (n : nat) (a : list A) : Rand (list A) :=
  match n with
  | 0 => ret a
  | S n' =>
      bind (random_below (n + 1)) (λ j, shuffle_from n' (swap n j a))
  end.

Definition shuffle {A} (a : list A) : Rand (list A) :=
  shuffle_from (length a - 1) a.

End Random.

Notation "'let!' x ':=' m 'in' k" := (Random.bind m (λ x, k))
  (at level 10, x name, m at level 100, k at level 200).

(** ** Synthetic cohort generator (lib/data-parser, generateSampleData) *)

Module Generator.
Import Random.

Local Open Scope Q_scope.

(** [Math.random() > c ? 1 : 0] *)
Definition bernoulli (c : Q) : Rand Q :=
  let! r := Math_random in ret (if Qle_bool r c then 0 else 1).

(** [lo + Math.random() * width] *)
Definition uniform (lo width : Q) : Rand Q :=
  let! r := Math_random in ret (lo + r * width).

(** [lo + Math.floor(Math.random() * n)] *)
Definition uniform_int (lo : Q) (n : Q) : Rand Q :=
  let! r := Math_random in ret (lo + inject_Z (Qfloor (r * n))).

(** The symptoms and the laboratory values that depend on the class. *)
Record Profile := mkProfile {
  fever : Q; headache : Q; dizziness : Q; loss_of_appetite : Q; weakness : Q;
  myalgias : Q; arthralgias : Q; eye_pain : Q; hemorrhages : Q; vomiting : Q;
  abdominal_pain : Q; chills : Q; jaundice : Q; petechiae : Q; rash : Q;
  platelets : Q; AST : Q; ALT : Q; total_bilirubin : Q
}.

(** The three branches on [disease]; [platelets], [AST], [ALT] and
    [total_bilirubin] enter with their default draws. *)
Definition profile (disease : nat) (platelets AST ALT total_bilirubin : Q)
  : Rand Profile :=
  match disease with
  | 0%nat =>
      let! fever := bernoulli 0.05 in
      let! headache := bernoulli 0.1 in
      let! weakness := bernoulli 0.15 in
      let! rash := bernoulli 0.3 in
      let! arthralgias := bernoulli 0.2 in
      let! myalgias := bernoulli 0.15 in
      let! eye_pain := bernoulli 0.25 in
      let! hemorrhages := bernoulli 0.5 in
      let! petechiae := bernoulli 0.4 in
      let! loss_of_appetite := bernoulli 0.3 in
      let! r := Math_random in
      let platelets := Qmax 50 (50 + r * 150) in
      ret {| fever := fever; headache := headache; dizziness := 0;
             loss_of_appetite := loss_of_appetite; weakness := weakness;
             myalgias := myalgias; arthralgias := arthralgias;
             eye_pain := eye_pain; hemorrhages := hemorrhages; vomiting := 0;
             abdominal_pain := 0; chills := 0; jaundice := 0;
             petechiae := petechiae; rash := rash; platelets := platelets;
             AST := AST; ALT := ALT; total_bilirubin := total_bilirubin |}
  | 1%nat =>
      let! fever := bernoulli 0.02 in
      let! chills := bernoulli 0.1 in
      let! headache := bernoulli 0.15 in
      let! weakness := bernoulli 0.1 in
      let! vomiting := bernoulli 0.4 in
      let! myalgias := bernoulli 0.3 in
      let! dizziness := bernoulli 0.35 in
      let! abdominal_pain := bernoulli 0.45 in
      let! r := Math_random in
      let platelets := Qmax 80 (80 + r * 120) in
      let! total_bilirubin := uniform 0.5 2.0 in
      ret {| fever := fever; headache := headache; dizziness := dizziness;
             loss_of_appetite := 0; weakness := weakness;
             myalgias := myalgias; arthralgias := 0; eye_pain := 0;
             hemorrhages := 0; vomiting := vomiting;
             abdominal_pain := abdominal_pain; chills := chills;
             jaundice := 0; petechiae := 0; rash := 0;
             platelets := platelets; AST := AST; ALT := ALT;
             total_bilirubin := total_bilirubin |}
  | _ =>
      let! fever := bernoulli 0.05 in
      let! headache := bernoulli 0.1 in
      let! myalgias := bernoulli 0.1 in
      let! chills := bernoulli 0.2 in
      let! vomiting := bernoulli 0.35 in
      let! jaundice := bernoulli 0.4 in
      let! weakness := bernoulli 0.2 in
      let! abdominal_pain := bernoulli 0.3 in
      let! AST := uniform 30 100 in
      let! ALT := uniform 30 100 in
      let! total_bilirubin := uniform 1.0 3.0 in
      ret {| fever := fever; headache := headache; dizziness := 0;
             loss_of_appetite := 0; weakness := weakness;
             myalgias := myalgias; arthralgias := 0; eye_pain := 0;
             hemorrhages := 0; vomiting := vomiting;
             abdominal_pain := abdominal_pain; chills := chills;
             jaundice := jaundice; petechiae := 0; rash := 0;
             platelets := platelets; AST := AST; ALT := ALT;
             total_bilirubin := total_bilirubin |}
  end.

(** [diseases[i] || Math.floor(Math.random() * 3)]: a scheduled class that
    is missing or is 0 is falsy, and the class is then drawn. *)
Definition pick_disease (diseases : list nat) (i : nat) : Rand nat :=
  match diseases !! i with
  | Some (S d) => ret (S d)
  | _ => random_below 3
  end.

(** The body of the loop over the records: the class and the 53 features. *)
Definition record (diseases : list nat) (i : nat) : Rand (list Q * nat) :=
  let! disease := pick_disease diseases i in
  let! age := uniform_int 20 50 in
  let! gender := bernoulli 0.5 in
  let! residence := bernoulli 0.5 in
  let! homemaker := bernoulli 0.8 in
  let! student := bernoulli 0.7 in
  let! professional := bernoulli 0.6 in
  let! merchant := bernoulli 0.8 in
  let! agriculture_livestock := bernoulli 0.85 in
  let! various_jobs := bernoulli 0.75 in
  let! unemployed := bernoulli 0.9 in
  let! hospitalization_days := uniform_int 1 10 in
  let! body_temperature := uniform 36 5 in
  let hemoptysis := 0 in
  let edema := 0 in
  let bruises := 0 in
  let diarrhea := 0 in
  let respiratory_difficulty := 0 in
  let itching := 0 in
  let! platelets0 := uniform 150 250 in
  let! AST0 := uniform 10 40 in
  let! ALT0 := uniform 10 40 in
  let! total_bilirubin0 := uniform 0.3 1.5 in
  let! p := profile disease platelets0 AST0 ALT0 total_bilirubin0 in
  let! hematocrit := uniform 35 15 in
  let! hemoglobin := uniform 11 6 in
  let! red_blood_cells := uniform 3.5 2 in
  let! white_blood_cells := uniform 4 8 in
  let! neutrophils := uniform 40 30 in
  let! eosinophils := uniform 0 5 in
  let! basophils := uniform 0 2 in
  let! monocytes := uniform 2 8 in
  let! lymphocytes := uniform 20 25 in
  let! ALP := uniform 30 100 in
  let! direct_bilirubin := uniform 0.1 0.4 in
  let indirect_bilirubin := total_bilirubin p - direct_bilirubin in
  let! total_proteins := uniform 6 2 in
  let! albumin := uniform 3.5 1.5 in
  let! creatinine := uniform 0.6 0.8 in
  let! urea := uniform 10 30 in
  ret ([ age; gender; residence; homemaker; student; professional; merchant;
         agriculture_livestock; various_jobs; unemployed;
         hospitalization_days; body_temperature; fever p; headache p;
         dizziness p; loss_of_appetite p; weakness p; myalgias p;
         arthralgias p; eye_pain p; hemorrhages p; vomiting p;
         abdominal_pain p; chills p; hemoptysis; edema; jaundice p; bruises;
         petechiae p; rash p; diarrhea; respiratory_difficulty; itching;
         hematocrit; hemoglobin; red_blood_cells; white_blood_cells;
         neutrophils; eosinophils; basophils; monocytes; lymphocytes;
         platelets p; AST p; ALT p; ALP; total_bilirubin p; direct_bilirubin;
         indirect_bilirubin; total_proteins; albumin; creatinine; urea ],
       disease).

(** The loop [for (i = 0; i < numSamples; i++)] over the indices still to
    do, pushing onto [features] and [labels]. *)
Fixpoint records (diseases : list nat) (todo : list nat)
    (features : list (list Q)) (labels : list nat)
  : Rand (list (list Q) * list nat) :=
  match todo with
  | [] => ret (features, labels)
  | i :: todo' =>
      let! fl := record diseases i in
      records diseases todo' (features ++ [fl.1]) (labels ++ [fl.2])
  end.

(** The schedule before the shuffle: [samplesPerClass] times each class. *)
Definition schedule (samplesPerClass : nat) : list nat :=
  List.flat_map (λ d, replicate samplesPerClass d) [0; 1; 2]%nat.

Definition generateSampleData (numSamples : nat)
  : Rand (list (list Q) * list nat) :=
  let samplesPerClass := (numSamples / 3)%nat in
  let! diseases := shuffle (schedule samplesPerClass) in
  records diseases (seq 0 numSamples) [] [].

End Generator.

(** ** Normalizer (lib/ml-models, normalizeFeatures) *)

Module Normalizer.

Local Open Scope Q_scope.

(** [features.map((row) => row[i])].  In a matrix whose rows are as long as
    the first one every read hits the row; a read past the end of a shorter
    row (undefined in the source) is not represented and reads 0 here. *)
Definition column (i : nat) (features : list (list Q)) : list Q :=
  map (λ row, nth i row 0) features.

(** [Math.min(...column)] and [Math.max(...column)] of a column that is not
    empty, as the columns of a non-empty matrix are. *)
Definition Math_min (column : list Q) : Q :=
  match column with
  | x :: xs => foldl Qmin x xs
  | [] => 0
  end.

Definition Math_max (column : list Q) : Q :=
  match column with
  | x :: xs => foldl Qmax x xs
  | [] => 0
  end.

(** The callback of [row.map].  The features are any doubles, so the range
    and the two other results are rounded as doubles are, and the range can
    overflow to infinity.  A read of [min] or [max] past the end is
    undefined and makes the result NaN. *)
Definition rescale (min max : list Q) (i : nat) (value : Q) : number :=
  match min !! i, max !! i with
  | Some lo, Some hi =>
      let range := JS.nearest (hi - lo) in
      if JS.is_zero range then JS.Fin 0
      else JS.rounded (JS.div (JS.nearest (value - lo)) range)
  | _, _ => JS.NaN
  end.

Record Normalized := mkNormalized {
  normalized : list (list number);
  min : list Q;
  max : list Q
}.

(** [None] is the TypeError of reading [features[0].length] when there is
    no row. *)
Definition normalizeFeatures (features : list (list Q)) : option Normalized :=
  first ← head features;
  let numFeatures := length first in
  let min := map (λ i, Math_min (column i features)) (seq 0 numFeatures) in
  let max := map (λ i, Math_max (column i features)) (seq 0 numFeatures) in
  let normalized := map (λ row, imap (rescale min max) row) features in
  Some {| normalized := normalized; min := min; max := max |}.

End Normalizer.

(** ** Input normalisation (lib/ml-models, predict and predictBatch) *)

Module Input.

Local Open Scope Q_scope.

(** The callback of [features.map] in predict and predictBatch: the
    position of the value between the fitted bounds, computed exactly.  The
    two arrays are as long as the vector; a read past their end (undefined
    in the source) is not represented. *)
Definition rescale (min max : list Q) (i : nat) (value : Q) : Q :=
  let range := nth i max 0 - nth i min 0 in
  if Qeq_bool range 0 then 0 else (value - nth i min 0) / range.

(** The first step of predict: every feature is rescaled with the fitted
    minimum and maximum of its position. *)
Definition normalize (min max : list Q) (features : list Q) : list Q :=
  imap (rescale min max) features.

(** The first step of predictBatch. *)
Definition normalizeBatch (min max : list Q) (featuresArray : list (list Q))
  : list (list Q) :=
  map (normalize min max) featuresArray.

End Input.

(** ** Calibration and decision (lib/ml-models, predict) *)

Module Calibration.
Import Random.

Local Open Scope R_scope.

Definition temperature : R := 4 / 10.

(** [Math.pow(Math.max(p, 0.001), 1 / temperature)]; the base is positive. *)
Definition scaled (p : R) : R := Rpower (Rmax p (1 / 1000)) (1 / temperature).

(** [xs.reduce((a, b) => a + b, 0)] *)
Definition sum (xs : list R) : R := foldl Rplus 0 xs.

(** The loop that finds the class of highest probability:
    (maxProb, predictedClass) after the entries of [ps], the first of which
    has index [i]. *)
Fixpoint argmax_from (i : nat) (ps : list R) (best : R * nat) : R * nat :=
  match ps with
  | [] => best
  | p :: rest =>
      argmax_from (S i) rest (if Rlt_dec best.1 p then (p, i) else best)
  end.

Record PredictionResult := mkPrediction {
  disease : Text.str;
  confidence : R;
  probabilities : list R
}.

(** [predict], from the probabilities returned by the model on: temperature
    scaling, renormalisation, a random rotation of the three entries (a
    missing entry is undefined and never exceeds [maxProb]; it reads 0
    here), and the decision. *)
Definition predict (probabilities : list R) : Rand PredictionResult :=
  let scaledProbs := map scaled probabilities in
  let total := sum scaledProbs in
  let normalizedProbs := map (λ p, p / total) scaledProbs in
  let! rotation := random_below 3 in
  let rotatedProbs :=
    map (λ k, nth ((k + rotation) mod 3) normalizedProbs 0) [0; 1; 2]%nat in
  let '(maxProb, predictedClass) := argmax_from 0 rotatedProbs (0, 0%nat) in
  ret {| disease := nth predictedClass DISEASE_LABELS [];
         confidence := maxProb;
         probabilities := rotatedProbs |}.

(** The targets of predictBatch: the floor of a third of the batch for each
    class, and one more for the first [remainder] classes. *)
Definition classTargets (totalSamples : nat) : list Z :=
  let targetPerClass := Z.of_nat (totalSamples / 3) in
  let remainder := (totalSamples mod 3)%nat in
  map (λ i, if (i <? remainder)%nat then (targetPerClass + 1)%Z
            else targetPerClass)
      [0; 1; 2]%nat.

(** [Math.max(...classNeeds)] of the three needs. *)
Definition max_need (classNeeds : list Z) : Z :=
  match classNeeds with
  | x :: xs => foldl Z.max x xs
  | [] => 0%Z
  end.

(** The boost of entry [i]; a class without a target has an undefined need,
    which compares false both ways. *)
Definition boost (classNeeds : list Z) (maxNeed : Z) (i : nat) (p : R) : R :=
  match classNeeds !! i with
  | Some need =>
      if (need =? maxNeed)%Z && (0 <? need)%Z then p * (1 + 2)
      else if (0 <? need)%Z then p * (1 + 2 * (1 / 2))
      else p * (1 / 10)
  | None => p * (1 / 10)
  end.

(** One iteration of the loop of predictBatch (first revision), on the pair
    of [classCounts] and [results].  The count of a class past the third is
    never read, so its update is left out. *)
Definition batch_step (targets : list Z)
    (acc : list Z * list PredictionResult) (probabilities : list R)
  : list Z * list PredictionResult :=
  let '(classCounts, results) := acc in
  let scaledProbs := map scaled probabilities in
  let total := sum scaledProbs in
  let normalizedProbs := map (λ p, p / total) scaledProbs in
  let classNeeds :=
    imap (λ i target, (target - nth i classCounts 0)%Z) targets in
  let maxNeed := max_need classNeeds in
  let boosted := imap (boost classNeeds maxNeed) normalizedProbs in
  let newSum := sum boosted in
  let normalizedProbs := map (λ p, p / newSum) boosted in
  let '(maxProb, predictedClass) :=
    argmax_from 0 normalizedProbs (0, 0%nat) in
  (alter Z.succ predictedClass classCounts,
   results ++ [{| disease := nth predictedClass DISEASE_LABELS [];
                  confidence := Rmax (6 / 10) maxProb;
                  probabilities := normalizedProbs |}]).

(** [predictBatch] (first revision), from the rows of probabilities that the
    model returns. *)
Definition predictBatch (probabilitiesArray : list (list R))
  : list PredictionResult :=
  let totalSamples := length probabilitiesArray in
  (foldl (batch_step (classTargets totalSamples)) ([0; 0; 0]%Z, [])
         probabilitiesArray).2.

End Calibration.

(** ** Calibration and decision, second revision of lib/ml-models *)

Module PlainCalibration.
Import Calibration.

Local Open Scope R_scope.

Definition temperature : R := 8 / 10.

(** [Math.pow(x, y)] for a base that is zero or positive and a positive
    exponent, as the probabilities of the model and [1 / temperature] are. *)
Definition Math_pow (x y : R) : R :=
  if Req_dec_T x 0 then 0 else Rpower x y.

Definition scaled (p : R) : R := Math_pow p (1 / temperature).

(** [predict], from the probabilities returned by the model on: temperature
    scaling, renormalisation and the decision, without rotation. *)
Definition predict (probabilities : list R) : PredictionResult :=
  let scaledProbs := map scaled probabilities in
  let total := sum scaledProbs in
  let normalizedProbs := map (λ p, p / total) scaledProbs in
  let '(maxProb, predictedClass) := argmax_from 0 normalizedProbs (0, 0%nat) in
  {| disease := nth predictedClass DISEASE_LABELS [];
     confidence := maxProb;
     probabilities := normalizedProbs |}.

(** [predictBatch] decides each row the same way. *)
Definition predictBatch (probabilitiesArray : list (list R))
  : list PredictionResult :=
  map predict probabilitiesArray.

End PlainCalibration.

(** ** Batch handler (dashboard, handleBatchProcess) *)

Module Batch.
Import Random Text.

(** The balanced list before the shuffle: for each class in turn,
    [predictionsPerClass] names and one more for the first [remainder]
    classes. *)
Definition balanced (totalPredictions : nat) : list str :=
  let predictionsPerClass := totalPredictions / 3 in
  let remainder := totalPredictions mod 3 in
  List.flat_map
    (λ i, replicate (predictionsPerClass + (if i <? remainder then 1 else 0))
                    (nth i DISEASE_LABELS []))
    [0; 1; 2].

Record Prediction := mkPrediction {
  id : nat;
  predicted : str;
  actual : option str;
  confidence : R
}.

(** [a || b] on strings: undefined and the empty string are falsy. *)
Definition or_str (a : option str) (b : str) : str :=
  match a with
  | Some ((_ :: _) as s) => s
  | _ => b
  end.

Definition nonempty (a : option str) : option str :=
  match a with
  | Some ((_ :: _) as s) => Some s
  | _ => None
  end.

(** The callback of [batchPredictions.map]. *)
Definition prediction_of (balancedClasses actualLabels : list str)
    (idx : nat) (pred : Calibration.PredictionResult) : Prediction :=
  {| id := idx + 1;
     predicted := or_str (balancedClasses !! idx) (Calibration.disease pred);
     actual := nonempty (actualLabels !! idx);
     confidence := Rmax (65 / 100) (Calibration.confidence pred) |}.

Definition predictions (batchPredictions : list Calibration.PredictionResult)
    (actualLabels : list str) : Rand (list Prediction) :=
  let totalPredictions := length batchPredictions in
  let! balancedClasses := shuffle (balanced totalPredictions) in
  ret (imap (prediction_of balancedClasses actualLabels) batchPredictions).

(** [actualLabels.length > 0 && actualLabels.every(...)] *)
Definition hasValidLabels (actualLabels : list str) : bool :=
  bool_decide (0 < length actualLabels)
  && forallb (λ label, match label with [] => false | _ => true end
                       && negb (eqs (trim label) []))
             actualLabels.

(** The keys of the literal [diseaseMap] of the handler; it is read with
    [Dict.get]. *)
Definition diseaseMap : gmap (list ascii) nat :=
  list_to_map [
    (list_ascii_of_string "Dengue", 0);
    (list_ascii_of_string "dengue", 0);
    (list_ascii_of_string "DENGUE", 0);
    (list_ascii_of_string "1", 0);
    (list_ascii_of_string "Malaria", 1);
    (list_ascii_of_string "malaria", 1);
    (list_ascii_of_string "MALARIA", 1);
    (list_ascii_of_string "2", 1);
    (list_ascii_of_string "Leptospirosis", 2);
    (list_ascii_of_string "leptospirosis", 2);
    (list_ascii_of_string "LEPTOSPIROSIS", 2);
    (list_ascii_of_string "3", 2)
  ].

(** [convertedLabels]: the class of a key of the literal, the member found
    under an inherited name, which is not undefined and is kept, or [-1],
    for which [Dict.Undefined] stands here. *)
Definition convert (label : str) : Dict.entry nat :=
  Dict.get diseaseMap (trim label).

(** One iteration of the loop that fills the matrix.  A pair is left out
    when [actualIdx] is [-1] or [predictedIdx] is undefined.  Otherwise the
    row [confusionMatrix[actualIdx]] is read: it is undefined when
    [actualIdx] is undefined (past the end of the labels) or is an
    inherited member, and the TypeError of indexing it is [None].  In a row
    that exists, a [predictedIdx] that is an inherited member names no
    cell. *)
Definition confusion_step (convertedLabels : list (Dict.entry nat))
    (m : option Evaluation.matrix) (ip : nat * Prediction)
  : option Evaluation.matrix :=
  let '(i, p) := ip in
  m ← m;
  let predictedIdx := Dict.get diseaseMap (predicted p) in
  match convertedLabels !! i, predictedIdx with
  | Some Dict.Undefined, _ => Some m
  | _, Dict.Undefined => Some m
  | Some (Dict.Own actualIdx), Dict.Own predictedIdx =>
      row ← m !! actualIdx;
      Some (<[actualIdx := Evaluation.incr_cell row predictedIdx]> m)
  | Some (Dict.Own actualIdx), Dict.Inherited _ =>
      _ ← m !! actualIdx; Some m
  | Some (Dict.Inherited _), _ => None
  | None, _ => None
  end.

Definition confusionMatrix (predictions : list Prediction)
    (actualLabels : list str) : option Evaluation.matrix :=
  let convertedLabels := map convert actualLabels in
  foldl (confusion_step convertedLabels) (Some (Evaluation.zero_matrix 3))
        (imap (λ i p, (i, p)) predictions).


End Batch.

(** ** Batch handler: the file, its labels and the reported metrics *)

Module Handler.
Import Random Text.

(** The part of a [File] that the handlers read; [text] is what
    [file.text()] resolves to. *)
Record File := mkFile { name : str; type : str; text : str }.

(** [s.endsWith(suffix)] *)
Definition ends_with (suffix s : str) : bool :=
  Encoder.has_prefix (rev suffix) (rev s).

Definition validTypes : list str := strs [
  "text/csv"; "application/vnd.ms-excel";
  "application/vnd.openxmlformats-officedocument.spreadsheetml.sheet"
]%string.

(** The extension pattern of handleFileSelect: a dot and csv or xlsx at the
    end of the name, in either case. *)
Definition extension_matches (name : str) : bool :=
  ends_with ".csv"%string (toLowerCase name)
  || ends_with ".xlsx"%string (toLowerCase name).

(** handleFileSelect: [None] is the refusal, reported as an error; otherwise
    the file becomes the batch file. *)
Definition handleFileSelect (file : File) : option File :=
  if negb (bool_decide (type file ∈ validTypes))
     && negb (extension_matches (name file))
  then None
  else Some file.

(** [headers.findIndex((h) => h.toLowerCase() === diagnosis)] *)
Definition diagnosisIdx (headers : list str) : option nat :=
  Encoder.findIndex (λ h, eqs (toLowerCase h) "diagnosis"%string) headers.

(** One iteration of the loop that collects the labels of the file. *)
Definition label_step (headers : list str) (diagnosisIdx : option nat)
    (actualLabels : list str) (row : list str) : list str :=
  if bool_decide (length row = 0)
     || forallb (λ cell, eqs cell []) row
     || bool_decide (length row < length headers)
  then actualLabels
  else
    match diagnosisIdx with
    | Some d =>
        if bool_decide (d < length row)
        then actualLabels ++ [Batch.or_str (trim <$> row !! d) []]
        else actualLabels
    | None => actualLabels
    end.

Definition actualLabels (headers : list str) (rows : list (list str))
  : list str :=
  foldl (label_step headers (diagnosisIdx headers)) [] rows.

(** [den > 0 ? num / den : 0] *)
Definition ratio (num den : number) : number :=
  if JS.gt den (JS.Fin 0) then JS.div num den else JS.Fin 0.

(** The double loop over the cells, on (totalCorrect, totalSamples). *)
Definition totals_step (m : Evaluation.matrix) (i : nat)
    (acc : number * number) (j : nat) : number * number :=
  let '(totalCorrect, totalSamples) := acc in
  let totalSamples := JS.add totalSamples (Evaluation.cell m i j) in
  (if decide (i = j) then JS.add totalCorrect (Evaluation.cell m i j)
   else totalCorrect,
   totalSamples).

Definition totals (m : Evaluation.matrix) : number * number :=
  foldl (λ acc i, foldl (totals_step m i) acc (seq 0 3))
        (JS.Fin 0, JS.Fin 0) (seq 0 3).

(** The inner loop of a class, on (fp, fn). *)
Definition errors_step (m : Evaluation.matrix) (i : nat)
    (acc : number * number) (j : nat) : number * number :=
  let '(fp, fn) := acc in
  if decide (i ≠ j)
  then (JS.add fp (Evaluation.cell m j i), JS.add fn (Evaluation.cell m i j))
  else (fp, fn).

(** The loop over the classes, on (sumPrecision, sumRecall, sumF1). *)
Definition class_step (m : Evaluation.matrix)
    (acc : number * number * number) (i : nat) : number * number * number :=
  let '(sumPrecision, sumRecall, sumF1) := acc in
  let tp := Evaluation.cell m i i in
  let '(fp, fn) := foldl (errors_step m i) (JS.Fin 0, JS.Fin 0) (seq 0 3) in
  let precision := ratio tp (JS.add tp fp) in
  let recall := ratio tp (JS.add tp fn) in
  let f1 :=
    ratio (JS.mul (JS.mul (JS.Fin 2) precision) recall)
          (JS.add precision recall) in
  (JS.add sumPrecision precision, JS.add sumRecall recall, JS.add sumF1 f1).

(** The metrics computed from the matrix, before the adjustment. *)
Definition measured (m : Evaluation.matrix) : Evaluation.Metrics :=
  let '(totalCorrect, totalSamples) := totals m in
  let accuracy := ratio totalCorrect totalSamples in
  let '(sumPrecision, sumRecall, sumF1) :=
    foldl (class_step m) (JS.Fin 0, JS.Fin 0, JS.Fin 0) (seq 0 3) in
  {| Evaluation.accuracy := accuracy;
     Evaluation.precision := JS.div sumPrecision (JS.Fin 3);
     Evaluation.recall := JS.div sumRecall (JS.Fin 3);
     Evaluation.f1Score := JS.div sumF1 (JS.Fin 3) |}.

Inductive ModelKind := logistic | neural.

(** The four targets: accuracy, precision, recall, f1. *)
Definition targets (selectedModel : ModelKind) : Evaluation.Metrics :=
  let isLogistic :=
    match selectedModel with logistic => true | neural => false end in
  {| Evaluation.accuracy := JS.Fin (if isLogistic then 0.70 else 0.85);
     Evaluation.precision := JS.Fin (if isLogistic then 0.65 else 0.80);
     Evaluation.recall := JS.Fin (if isLogistic then 0.68 else 0.82);
     Evaluation.f1Score := JS.Fin (if isLogistic then 0.66 else 0.81) |}.

(** [Math.max(0, target - value)] *)
Definition boost (target value : number) : number :=
  JS.max (JS.Fin 0) (JS.sub target value).

(** The metrics handed to the caller: each measured value is raised towards
    its target by the boost times a random factor (and times 0.9 for all but
    the accuracy), and capped at 0.95.  The average confidence that the
    source computes at this point is not used. *)
Definition reported (selectedModel : ModelKind) (m : Evaluation.matrix)
  : Rand Evaluation.Metrics :=
  let measured := measured m in
  let target := targets selectedModel in
  let accuracyBoost :=
    boost (Evaluation.accuracy target) (Evaluation.accuracy measured) in
  let precisionBoost :=
    boost (Evaluation.precision target) (Evaluation.precision measured) in
  let recallBoost :=
    boost (Evaluation.recall target) (Evaluation.recall measured) in
  let f1Boost :=
    boost (Evaluation.f1Score target) (Evaluation.f1Score measured) in
  let! r := Math_random in
  let randomFactor := JS.add (JS.Fin 0.95) (JS.mul (JS.Fin r) (JS.Fin 0.1)) in
  let adjust value boost :=
    JS.min (JS.Fin 0.95)
           (JS.add value (JS.mul (JS.mul boost randomFactor) (JS.Fin 0.9))) in
  ret {| Evaluation.accuracy :=
           JS.min (JS.Fin 0.95)
                  (JS.add (Evaluation.accuracy measured)
                          (JS.mul accuracyBoost randomFactor));
         Evaluation.precision :=
           adjust (Evaluation.precision measured) precisionBoost;
         Evaluation.recall := adjust (Evaluation.recall measured) recallBoost;
         Evaluation.f1Score :=
           adjust (Evaluation.f1Score measured) f1Boost |}.

Record BatchResult := mkBatchResult {
  totalRecords : nat;
  predictions : list Batch.Prediction;
  metrics : option Evaluation.Metrics;
  confusionMatrix : option Evaluation.matrix
}.

(** What the handler reports instead of a result: no file, no model, the
    error of the parser with its message, the error thrown when no row is
    kept, or a TypeError. *)
Inductive failure :=
| NoFile
| NoModel
| ParseError (message : str)
| NoValidData
| TypeError.

(** [predictBatch] with the trained model and its normalisation. *)
Definition Model : Type :=
  list (list number) → list Calibration.PredictionResult.

(** The body of the handler once the file is parsed. *)
Definition process (selectedModel : ModelKind) (trainedModel : Model)
    (headers : list str) (rows : list (list str))
  : Rand (failure + BatchResult) :=
  let actualLabels := actualLabels headers rows in
  match Encoder.convertToTrainingData headers rows with
  | None => ret (inl TypeError)
  | Some td =>
      if bool_decide (Encoder.rowCount td = 0) then ret (inl NoValidData)
      else
        let batchPredictions := trainedModel (Encoder.features td) in
        let! predictions := Batch.predictions batchPredictions actualLabels in
        if Batch.hasValidLabels actualLabels then
          match Batch.confusionMatrix predictions actualLabels with
          | None => ret (inl TypeError)
          | Some m =>
              let! metrics := reported selectedModel m in
              ret (inr {| totalRecords := length (Encoder.features td);
                          predictions := predictions;
                          metrics := Some metrics;
                          confusionMatrix := Some m |})
          end
        else
          ret (inr {| totalRecords := length (Encoder.features td);
                      predictions := predictions;
                      metrics := None;
                      confusionMatrix := None |})
  end.

(** handleBatchProcess.  A name that ends in .xlsx sends the file to
    parseXLSX, whose reading of the workbook is a parameter here; any other
    file is read as text by parseCSV. *)
Definition handleBatchProcess (selectedModel : ModelKind)
    (parseXLSX : File → failure + Parser.Parsed)
    (batchFile : option File) (trainedModel : option Model)
  : Rand (failure + BatchResult) :=
  match batchFile with
  | None => ret (inl NoFile)
  | Some batchFile =>
      match trainedModel with
      | None => ret (inl NoModel)
      | Some trainedModel =>
          let parsed :=
            if ends_with ".xlsx"%string (name batchFile)
            then parseXLSX batchFile
            else match Parser.parseCSV (text batchFile) with
                 | inl message => inl (ParseError message)
                 | inr parsed => inr parsed
                 end in
          match parsed with
          | inl e => ret (inl e)
          | inr parsed =>
              process selectedModel trainedModel
                      (Parser.headers parsed) (Parser.rows parsed)
          end
      end
  end.

End Handler.

(** ** Dashboard page (app/dashboard/page) *)

Module Page.
Import Random Text.

Local Open Scope Q_scope.

Record PredictResult := mkPredictResult {
  disease : str;
  confidence : Q;
  model : Handler.ModelKind;
  probabilities : gmap (list ascii) Q
}.

Definition form_error : str :=
  "Por favor completa todos los campos del formulario"%string.

(** handlePredict of the page.  [formData] is the list of the entries of
    the form; [model] stands for the display name of the selected model. *)
Definition handlePredict (selectedModel : Handler.ModelKind)
    (formData : list (str * str)) : Rand (str + PredictResult) :=
  let emptyFields := filter (λ kv, kv.2 = []) formData in
  if bool_decide (0 < length emptyFields)%nat then ret (inl form_error)
  else
    let diseases := DISEASE_LABELS in
    let! k := random_below (length diseases) in
    let randomDisease := nth k diseases [] in
    let! r := Math_random in
    let mainProb := 0.6 + r * 0.35 in
    let probabilities : gmap (list ascii) Q := <[randomDisease := mainProb]> ∅ in
    let remaining := 1 - mainProb in
    let otherDiseases := filter (λ d, d ≠ randomDisease) diseases in
    let! r := Math_random in
    let first := remaining * (0.3 + r * 0.4) in
    let probabilities := <[nth 0 otherDiseases [] := first]> probabilities in
    let probabilities :=
      <[nth 1 otherDiseases [] := remaining - first]> probabilities in
    ret (inr {| disease := randomDisease;
                confidence := mainProb;
                model := selectedModel;
                probabilities := probabilities |}).

Record Prediction := mkPrediction {
  id : nat;
  predicted : str;
  actual : option str;
  shown_confidence : Q
}.

Record Metrics := mkMetrics {
  accuracy : Q;
  precision : Q;
  recall : Q;
  f1Score : Q
}.

Record BatchResult := mkBatchResult {
  totalRecords : nat;
  predictions : list Prediction;
  metrics : Metrics;
  confusionMatrix : list (list nat)
}.

(** [hasLabels ? diseases[labels[idx]] : undefined]; a label that is not a
    class index names no entry of [diseases]. *)
Definition actual_of (labels : list Encoder.Label) (hasLabels : bool)
    (idx : nat) : option str :=
  if hasLabels
  then l ← labels !! idx;
       match l with
       | Encoder.Index i => DISEASE_LABELS !! i
       | Encoder.Member _ => None
       end
  else None.

(** The callback of [features.map], applied from index [idx] on: a class is
    drawn, then a confidence. *)
Fixpoint predictions_from (idx : nat) (features : list (list number))
    (labels : list Encoder.Label) (hasLabels : bool)
  : Rand (list Prediction) :=
  match features with
  | [] => ret []
  | _ :: rest =>
      let! k := random_below 3 in
      let! r := Math_random in
      let prediction :=
        {| id := idx + 1;
           predicted := nth k DISEASE_LABELS [];
           actual := actual_of labels hasLabels idx;
           shown_confidence := 0.7 + r * 0.25 |} in
      let! others := predictions_from (S idx) rest labels hasLabels in
      ret (prediction :: others)
  end.

(** The matrix that the page shows for each model. *)
Definition shown_matrix (selectedModel : Handler.ModelKind)
  : list (list nat) :=
  match selectedModel with
  | Handler.logistic => [[44; 4; 2]; [5; 41; 4]; [4; 5; 41]]%nat
  | Handler.neural => [[45; 3; 2]; [4; 42; 4]; [3; 5; 42]]%nat
  end.

(** The body of handleBatchProcess of the page once the file is parsed. *)
Definition process (selectedModel : Handler.ModelKind)
    (headers : list str) (rows : list (list str))
  : Rand (Handler.failure + BatchResult) :=
  match Encoder.convertToTrainingData headers rows with
  | None => ret (inl Handler.TypeError)
  | Some td =>
      if bool_decide (Encoder.rowCount td = 0%nat)
      then ret (inl Handler.NoValidData)
      else
        let! predictions :=
          predictions_from 0 (Encoder.features td) (Encoder.labels td)
                           (Encoder.hasLabels td) in
        let confusionMatrix := shown_matrix selectedModel in
        let! r := Math_random in
        let accuracy := 0.85 + r * 0.1 in
        let! r := Math_random in
        let precision := 0.82 + r * 0.12 in
        let! r := Math_random in
        let recall := 0.8 + r * 0.15 in
        let f1Score := (2 * precision * recall) / (precision + recall) in
        ret (inr {| totalRecords := Encoder.rowCount td;
                    predictions := predictions;
                    metrics := {| accuracy := accuracy;
                                  precision := precision;
                                  recall := recall;
                                  f1Score := f1Score |};
                    confusionMatrix := confusionMatrix |})
  end.

(** handleBatchProcess of the page; the reading of a workbook is a
    parameter, as in the component. *)
Definition handleBatchProcess (selectedModel : Handler.ModelKind)
    (parseXLSX : Handler.File → Handler.failure + Parser.Parsed)
    (batchFile : option Handler.File)
  : Rand (Handler.failure + BatchResult) :=
  match batchFile with
  | None => ret (inl Handler.NoFile)
  | Some batchFile =>
      let parsed :=
        if Handler.ends_with ".xlsx"%string (Handler.name batchFile)
        then parseXLSX batchFile
        else match Parser.parseCSV (Handler.text batchFile) with
             | inl message => inl (Handler.ParseError message)
             | inr parsed => inr parsed
             end in
      match parsed with
      | inl e => ret (inl e)
      | inr parsed =>
          process selectedModel (Parser.headers parsed) (Parser.rows parsed)
      end
  end.

End Page.

(** ** Vocabulary of the properties *)

(** The number of occurrences of [x] in [l]. *)
Definition count_of `{EqDecision A} (x : A) (l : list A) : nat :=
  length (filter (λ y, y = x) l).

(** A sequence of draws that are all one half. *)
Lemma half_in_range : (0 <= 1 # 2 /\ 1 # 2 < 1)%Q.
Proof. split; [discriminate | reflexivity]. Qed.

Definition always_half : Random.source :=
  λ _, Random.mkDraw (1 # 2) half_in_range.


(** The 3x3 matrix whose cell [a], [p] holds the count [f a p]. *)
Definition of_counts (f : nat → nat → nat) : Evaluation.matrix :=
  map (λ a, map (λ p, JS.of_nat (f a p)) [0; 1; 2]) [0; 1; 2].

(** [matrix[a][p]++] for a pair of class indices; [None] is the TypeError of
    indexing a missing row. *)
Definition bump (m : option Evaluation.matrix) (ap : nat * nat)
  : option Evaluation.matrix :=
  m ← m;
  row ← m !! ap.1;
  Some (<[ap.1 := Evaluation.incr_cell row ap.2]> m).

(** 1 when the pair [ap] is the cell [a], [p], else 0. *)
Definition hit (a p : nat) (ap : nat * nat) : nat :=
  if decide (ap = (a, p)) then 1 else 0.

(** The class index that a read of a dictionary gives, when it gives
    one. *)
Definition index_of (e : Dict.entry nat) : option nat :=
  match e with Dict.Own a => Some a | _ => None end.

(** The class that a label of the file resolves to in the handler. *)
Definition class_of (label : Text.str) : option nat :=
  index_of (Batch.convert label).

(** A label that is, once trimmed, the name of a member that every object
    inherits. *)
Definition names_member (label : Text.str) : Prop :=
  Text.trim label ∈ Dict.inherited_names.

(** The pairs of indices (actual, predicted) of the batch handler, each
    resolved through its dictionary. *)
Definition resolved (preds : list Batch.Prediction)
    (actualLabels : list Text.str) : list (option nat * option nat) :=
  zip (map class_of actualLabels)
      (map (λ x, index_of (Dict.get Batch.diseaseMap (Batch.predicted x)))
           preds).

(** The pairs that reach the matrix: both indices resolved. *)
Definition effective (pairs : list (option nat * option nat))
  : list (nat * nat) :=
  omap (λ oap, a ← oap.1; p ← oap.2; Some (a, p)) pairs.

(** The text of the first scenario: a header line and two data lines, each
    ended by a line feed. *)
Definition scenario_csv : Text.str :=
  "age,gender,diagnosis
30,M,dengue
40,F,malaria
"%string.

(** A header line followed by a line that holds a no-break space only. *)
Definition header_and_space : Text.str :=
  list_ascii_of_string "a,b" ++ [Text.LF; "160"%char].

(** A header line followed by a data line whose last two fields are empty. *)
Definition sparse_csv : Text.str :=
  "age,gender,diagnosis
40,,
"%string.

(** The fields of a line that are not empty: the non-empty pieces between
    commas. *)
Definition nonempty_fields (line : Text.str) : list Text.str :=
  filter (λ field, field ≠ []) (Text.split Text.comma line).

(** A line without double quotes. *)
Definition plain (line : Text.str) : Prop :=
  Forall (λ c, c ≠ Text.dquote) line.

(** The column of index [j] of a list of feature vectors. *)
Definition feature_column {X} (j : nat) (features : list (list X))
  : list (option X) :=
  map (λ fv, fv !! j) features.

(** A feature vector as the encoder must produce it under [headers]: one
    entry per schema field, none of them NaN, and 0 for a field that no
    header names. *)
Definition well_encoded (headers : list Text.str) (fv : list number) : Prop :=
  length fv = 53 ∧
  Forall (λ x, x ≠ JS.NaN) fv ∧
  ∀ j col, Encoder.featureColumns !! j = Some col →
           Encoder.column_index headers col = None →
           fv !! j = Some (JS.Fin 0).

(** The rows that the encoder keeps. *)
Definition kept (headers : list Text.str) (rows : list (list Text.str))
  : list (list Text.str) :=
  filter (λ row, Encoder.skipped headers row = false) rows.

(** A cell that starts with a number, as parseFloat reads it: after the
    white space and an optional sign come Infinity, a digit, or a point and
    a digit. *)
Definition starts_number (cell : Text.str) : bool :=
  let '(_, s) := Encoder.sign_of (Text.trimStart cell) in
  Encoder.has_prefix "Infinity"%string s
  || match s with
     | c :: rest =>
         Encoder.is_digit c
         || (Text.eqc c "." && match rest with
                               | d :: _ => Encoder.is_digit d
                               | [] => false
                               end)
     | [] => false
     end.

(** What the encoder makes of a kept row under [headers]: the entry of a
    field without a header is 0; gender and residence are flags; any other
    entry is 0 when its cell does not start with a number, and the number
    that parseFloat reads when it does. *)
Definition encodes (headers : list Text.str) (row : list Text.str)
    (fv : list number) : Prop :=
  ∀ j col, Encoder.featureColumns !! j = Some col →
    match Encoder.column_index headers col with
    | None => fv !! j = Some (JS.Fin 0)
    | Some i =>
        ∃ cell, row !! i = Some cell ∧
          (Text.toLowerCase col = list_ascii_of_string "gender" →
           fv !! j = Some (Encoder.bit
                             (Text.eqs (Text.toLowerCase cell) "m"%string))) ∧
          (Text.toLowerCase col = list_ascii_of_string "residence" →
           fv !! j = Some (Encoder.bit
                             (Text.eqs (Text.toLowerCase cell) "urban"%string
                              || Text.eqs (Text.toLowerCase cell)
                                          "urbana"%string))) ∧
          (Text.toLowerCase col ≠ list_ascii_of_string "gender" →
           Text.toLowerCase col ≠ list_ascii_of_string "residence" →
           (starts_number cell = false → fv !! j = Some (JS.Fin 0)) ∧
           (starts_number cell = true →
            fv !! j = Some (Encoder.parseFloat cell) ∧
            Encoder.parseFloat cell ≠ JS.NaN))
    end.

(** The raw probabilities of the fifth scenario. *)
Definition scenario_probabilities : list R :=
  [4 / 10; 35 / 100; 25 / 100]%R.

(** The lines of a text that are not blank. *)
Definition nonblank_lines (content : Text.str) : list Text.str :=
  List.filter Parser.not_blank (Text.split_lines content).

(** [f] applied to the first, and to the last, element of a list. *)
Definition map_first {X} (f : X → X) (l : list X) : list X :=
  match l with
  | [] => []
  | x :: rest => f x :: rest
  end.

Fixpoint map_last {X} (f : X → X) (l : list X) : list X :=
  match l with
  | [] => []
  | [x] => [f x]
  | x :: rest => x :: map_last f rest
  end.

(** The pieces of two adjacent texts, put together: the last piece of the
    first text continues into the first piece of the second. *)
Fixpoint glue (l k : list Text.str) : list Text.str :=
  match l with
  | [] => k
  | [x] => match k with
           | [] => [x]
           | y :: k' => (x ++ y) :: k'
           end
  | x :: l' => x :: glue l' k
  end.

(** The first text does not end in a carriage return that the second text
    would complete with a line feed. *)
Definition clean_cut (t u : Text.str) : Prop :=
  ∀ t' u', t = t' ++ [Text.CR] → u = Text.LF :: u' → False.

Definition blank (s : Text.str) : Prop := Forall (λ c, Text.is_space c = true) s.

(** A result of the model that names [name] with full confidence. *)
Definition sure (name : string) : Calibration.PredictionResult :=
  {| Calibration.disease := list_ascii_of_string name;
     Calibration.confidence := 1%R;
     Calibration.probabilities := [] |}.

(** Two outputs of the model for a batch of two records. *)
Definition confident_rows : list (list R) :=
  [[1; 0; 0]; [1; 0; 0]]%R.

Definition undecided_rows : list (list R) :=
  [[1 / 3; 1 / 3; 1 / 3]; [0; 1 / 2; 1 / 2]]%R.



(** The body of a quoted field: every double quote doubled. *)
Fixpoint escape (s : Text.str) : Text.str :=
  match s with
  | [] => []
  | c :: rest =>
      if Text.eqc c Text.dquote then Text.dquote :: Text.dquote :: escape rest
      else c :: escape rest
  end.

(** A field written between double quotes. *)
Definition quote (s : Text.str) : Text.str :=
  Text.dquote :: escape s ++ [Text.dquote].

(** [fields.join(sep)] *)
Fixpoint join (sep : ascii) (fields : list Text.str) : Text.str :=
  match fields with
  | [] => []
  | [f] => f
  | f :: rest => f ++ sep :: join sep rest
  end.

(** The text that follows a closing quote: the end of the line or a comma. *)
Definition closes (rest : Text.str) : Prop :=
  rest = [] ∨ ∃ rest', rest = Text.comma :: rest'.

(** The names that the encoder resolves. *)
Definition known_diagnoses : list Text.str :=
  strs ["dengue"; "malaria"; "leptospirosis"].

(** The inherited names that are written in lower case. *)
Definition lowercase_members : list Text.str :=
  strs ["constructor"; "__proto__"].

(** A number that is 0 or 1. *)
Definition binary (x : option number) : Prop :=
  x = Some (JS.Fin 0) ∨ x = Some (JS.Fin 1).

(** Counts read off a 3x3 table [f] of counts: the diagonal and all the
    cells. *)
Definition diagonal (f : nat → nat → nat) : nat := f 0 0 + f 1 1 + f 2 2.

Definition all_cells (f : nat → nat → nat) : nat :=
  f 0 0 + f 0 1 + f 0 2 + f 1 0 + f 1 1 + f 1 2 + f 2 0 + f 2 1 + f 2 2.

(** The targets of the adjustment, as rationals. *)
Definition target_accuracy (kind : Handler.ModelKind) : Q :=
  match kind with Handler.logistic => 0.70 | Handler.neural => 0.85 end.

Definition target_precision (kind : Handler.ModelKind) : Q :=
  match kind with Handler.logistic => 0.65 | Handler.neural => 0.80 end.

Definition target_recall (kind : Handler.ModelKind) : Q :=
  match kind with Handler.logistic => 0.68 | Handler.neural => 0.82 end.

Definition target_f1 (kind : Handler.ModelKind) : Q :=
  match kind with Handler.logistic => 0.66 | Handler.neural => 0.81 end.

(** A reported value [q] for a measured value [v] and a target [t]: at
    least [floor], at most 0.95, not below the measured value unless that
    exceeds 0.95, and the measured value itself, capped, once the target is
    met. *)
Definition raised (floor t v q : Q) : Prop :=
  (floor <= q ∧ q <= 0.95 ∧ Qmin 0.95 v <= q ∧ (t <= v → q == Qmin 0.95 v))%Q.

(** The diagnosis cell of a row, as the handler reads it. *)
Definition diagnosis_cell (d : nat) (row : list Text.str) : Text.str :=
  Text.trim (default [] (row !! d)).

(** The headers and the rows of the first scenario. *)
Definition scenario_headers : list Text.str :=
  strs ["age"; "gender"; "diagnosis"].

Definition scenario_rows : list (list Text.str) :=
  [strs ["30"; "M"; "dengue"]; strs ["40"; "F"; "malaria"]].

(** The rows of the first scenario, the diagnosis of the second one left
    empty. *)
Definition unlabelled_rows : list (list Text.str) :=
  [strs ["30"; "M"; "dengue"]; strs ["40"; "F"; ""]].

(** The rows of the first scenario, the diagnosis of the second one being
    the name of a member that every object inherits. *)
Definition member_rows : list (list Text.str) :=
  [strs ["30"; "M"; "dengue"]; strs ["40"; "F"; "constructor"]].

(** A model that is sure of dengue for every record. *)
Definition dengue_model : Handler.Model :=
  λ fs, map (λ _, sure "Dengue") fs.

(** The number of pairs whose two classes agree. *)
Definition agreements (pairs : list (nat * nat)) : nat :=
  length (filter (λ ap, ap.1 = ap.2) pairs).

(** A result of predictBatch as it must be: probabilities that are positive
    and add up to 1, the confidence that is the largest of them or 0.6 when
    that is more, and one of the three classes. *)
Definition calibrated (r : Calibration.PredictionResult) : Prop :=
  (Calibration.sum (Calibration.probabilities r) = 1 ∧
   Forall (λ p, 0 < p) (Calibration.probabilities r) ∧
   (∃ m, m ∈ Calibration.probabilities r ∧
         Forall (λ p, p <= m) (Calibration.probabilities r) ∧
         Calibration.confidence r = Rmax (6 / 10) m) ∧
   6 / 10 <= Calibration.confidence r ∧ Calibration.confidence r < 1 ∧
   Calibration.disease r ∈ DISEASE_LABELS)%R.

(** A row of three numbers none of which is, once scaled, twenty times
    another. *)
Definition moderate (row : list R) : Prop :=
  length row = 3 ∧
  ∀ p q, p ∈ row → q ∈ row →
         (Calibration.scaled p < 20 * Calibration.scaled q)%R.

(** Two rows on which the model finds the three classes equally likely. *)
Definition level_rows : list (list R) :=
  [[1 / 3; 1 / 3; 1 / 3]; [1 / 3; 1 / 3; 1 / 3]]%R.

(** The symptoms that the synthetic cohort never shows. *)
Definition absent_symptoms : list Text.str :=
  strs ["hemoptysis"; "edema"; "bruises"; "diarrhea";
        "respiratory_difficulty"; "itching"].

(** The scheduled class of record [i], 0 when none is scheduled. *)
Definition scheduled (diseases : list nat) (i : nat) : nat :=
  default 0 (diseases !! i).

(** What a feature of the synthetic cohort can be: a flag, a whole number
    or a number between two bounds. *)
Inductive range : Type :=
| Flag
| Whole (lo hi : Z)
| Real (lo hi : Q).

Definition fits (r : range) (v : Q) : Prop :=
  match r with
  | Flag => v = 0%Q ∨ v = 1%Q
  | Whole lo hi => ∃ z, (v == inject_Z z)%Q ∧ (lo <= z ∧ z <= hi)%Z
  | Real lo hi => (lo <= v ∧ v <= hi)%Q
  end.

(** The ranges of the 53 features, in the order of the schema. *)
Definition cohort_schema : list range :=
  [Whole 20 69] ++ replicate 9 Flag ++ [Whole 1 10; Real 36 41]
  ++ replicate 21 Flag
  ++ [Real 35 50; Real 11 17; Real 3.5 5.5; Real 4 12; Real 40 70;
      Real 0 5; Real 0 2; Real 2 10; Real 20 45; Real 50 400;
      Real 10 130; Real 10 130; Real 30 130; Real 0.3 4; Real 0.1 0.5;
      Real (-0.2) 3.9; Real 6 8; Real 3.5 5; Real 0.6 1.4; Real 10 40].

(** The accuracy that a matrix of three classes shows: its diagonal over
    the sum of its cells. *)
Definition matrix_accuracy (m : list (list nat)) : Q :=
  inject_Z (Z.of_nat (foldr Nat.add 0 (imap (λ i row, nth i row 0) m)))
  / inject_Z (Z.of_nat (foldr Nat.add 0 (concat m))).

(** What a prediction of the page shows besides the actual class. *)
Definition shown (p : Page.Prediction) : nat * Text.str * Q :=
  (Page.id p, Page.predicted p, Page.shown_confidence p).

(** What a batch result of the page shows apart from the actual classes. *)
Definition page_view (outcome : Handler.failure + Page.BatchResult)
  : Handler.failure
    + (nat * list (nat * Text.str * Q) * Page.Metrics * list (list nat)) :=
  match outcome with
  | inl e => inl e
  | inr r => inr (Page.totalRecords r, map shown (Page.predictions r),
                  Page.metrics r, Page.confusionMatrix r)
  end.

(** A form whose fields are all filled in. *)
Definition complete (formData : list (Text.str * Text.str)) : Prop :=
  Forall (λ kv, kv.2 ≠ []) formData.

(** * Properties *)

(** ** Evaluation engine *)

Section EvaluationFacts.
Import Evaluation.

(** C3.  On the matrix built from no pairs, which is the all-zero 3x3
    matrix, calculateMetrics divides zero by zero four times.  The quotients
    for precision, recall and f1 are replaced by 0, so those three are 0; the
    quotient for accuracy is returned as it is, and it is NaN, not 0. *)
Theorem calculateMetrics_empty_accuracy_is_NaN :
  calculateConfusionMatrix [] [] = Some (zero_matrix 3) ∧
  calculateMetrics (zero_matrix 3) =
    {| accuracy := JS.NaN; precision := JS.Fin 0; recall := JS.Fin 0;
       f1Score := JS.Fin 0 |} ∧
  JS.div (JS.Fin 0) (JS.Fin 0) = JS.NaN.
Proof. split; [|split]; vm_compute; reflexivity. Qed.

End EvaluationFacts.

(** ** Doubles *)

Section Doubles.
Local Open Scope Q_scope.

Lemma pow2_pos z : 0 < JS.pow2 z.
Proof. apply Qpower_0_lt. reflexivity. Qed.

Lemma pow2_add a b : JS.pow2 (a + b) == JS.pow2 a * JS.pow2 b.
Proof. apply Qpower_plus. discriminate. Qed.

Lemma pow2_succ a : JS.pow2 (a + 1) == 2 * JS.pow2 a.
Proof. rewrite pow2_add. change (JS.pow2 1) with 2. ring. Qed.



Lemma pow2_lt_inv a b : JS.pow2 a < JS.pow2 b → (a < b)%Z.
Proof. intros. by apply (Qpower_lt_compat_l_inv 2). Qed.

Lemma pow2_Z n : (0 <= n)%Z → JS.pow2 n == inject_Z (2 ^ n).
Proof. intros. unfold JS.pow2. by rewrite Zpower_Qpower. Qed.

Lemma pow2_cancel a b : JS.pow2 (a + b) / JS.pow2 b == JS.pow2 a.
Proof.
  rewrite pow2_add. field. pose proof (pow2_pos b). lra.
Qed.

(** The JS.exponent of a positive number. *)
Lemma exponent_spec a :
  0 < a → JS.pow2 (JS.exponent a) <= a ∧ a < JS.pow2 (JS.exponent a + 1).
Proof.
  intros Ha. destruct a as [n d].
  assert (0 < n)%Z as Hn.
  { unfold Qlt in Ha. cbn in Ha. lia. }
  pose proof (Z.log2_spec n Hn) as [Hn1 Hn2].
  pose proof (Z.log2_spec (Z.pos d) ltac:(lia)) as [Hd1 Hd2].
  pose proof (Z.log2_nonneg n) as Hln.
  pose proof (Z.log2_nonneg (Z.pos d)) as Hld.
  set (ln := Z.log2 n) in *. set (ld := Z.log2 (Z.pos d)) in *.
  assert (n # d == inject_Z n / inject_Z (Z.pos d)) as Hq
    by apply Qmake_Qdiv.
  assert (0 < inject_Z (Z.pos d)) as Hdpos by reflexivity.
  assert (JS.pow2 ln <= inject_Z n) as B1.
  { rewrite pow2_Z by done. by rewrite <- Zle_Qle. }
  assert (inject_Z n < JS.pow2 (ln + 1)) as B2.
  { rewrite pow2_Z by lia. rewrite <- Zlt_Qlt. by rewrite <- Z.add_1_r in Hn2. }
  assert (JS.pow2 ld <= inject_Z (Z.pos d)) as B3.
  { rewrite pow2_Z by done. by rewrite <- Zle_Qle. }
  assert (inject_Z (Z.pos d) < JS.pow2 (ld + 1)) as B4.
  { rewrite pow2_Z by lia. rewrite <- Zlt_Qlt. by rewrite <- Z.add_1_r in Hd2. }
  assert (n # d < JS.pow2 (ln - ld + 1)) as Hup.
  { rewrite Hq. apply Qlt_shift_div_r; [done|].
    apply Qlt_le_trans with (JS.pow2 (ln + 1)); [done|].
    replace (ln + 1)%Z with ((ln - ld + 1) + ld)%Z by lia.
    rewrite pow2_add. pose proof (pow2_pos (ln - ld + 1)). nra. }
  assert (JS.pow2 (ln - ld - 1) <= n # d) as Hlow.
  { rewrite Hq. apply Qle_shift_div_l; [done|].
    apply Qle_trans with (JS.pow2 ln); [|done].
    replace ln with ((ln - ld - 1) + (ld + 1))%Z at 2 by lia.
    rewrite pow2_add. pose proof (pow2_pos (ln - ld - 1)). nra. }
  unfold JS.exponent. cbn [Qnum Qden]. fold ln ld.
  destruct (Qle_bool (JS.pow2 (ln - ld)) (n # d)) eqn:E.
  - apply Qle_bool_iff in E. done.
  - split; [done|].
    replace (ln - ld - 1 + 1)%Z with (ln - ld)%Z by lia.
    apply Qnot_le_lt. intros H. apply Qle_bool_iff in H. congruence.
Qed.

Lemma exponent_unique a e :
  JS.pow2 e <= a → a < JS.pow2 (e + 1) → JS.exponent a = e.
Proof.
  intros H1 H2.
  assert (0 < a) as Ha by (pose proof (pow2_pos e); lra).
  destruct (exponent_spec a Ha) as [H3 H4].
  assert (JS.exponent a < e + 1)%Z by (apply pow2_lt_inv; lra).
  assert (e < JS.exponent a + 1)%Z by (apply pow2_lt_inv; lra).
  lia.
Qed.


Lemma exponent_proper a b : 0 < a → a == b → JS.exponent a = JS.exponent b.
Proof.
  intros Ha Hab. destruct (exponent_spec a Ha) as [H1 H2].
  symmetry. apply exponent_unique; lra.
Qed.

(** Rounding to the JS.nearest integer. *)
Lemma round_half_even_floor x :
  (Qfloor x <= JS.round_half_even x <= Qfloor x + 1)%Z.
Proof.
  unfold JS.round_half_even.
  destruct (Qcompare _ _); [destruct (Z.even _)| |]; lia.
Qed.

Lemma round_half_even_mono x y :
  x <= y → (JS.round_half_even x <= JS.round_half_even y)%Z.
Proof.
  intros Hxy. pose proof (Qfloor_resp_le _ _ Hxy) as Hf.
  destruct (Z.eq_dec (Qfloor x) (Qfloor y)) as [E|N].
  - unfold JS.round_half_even. rewrite <- E.
    destruct (Qcompare_spec (x - inject_Z (Qfloor x)) (1 # 2));
      destruct (Qcompare_spec (y - inject_Z (Qfloor x)) (1 # 2));
      try destruct (Z.even _); try lia; lra.
  - pose proof (round_half_even_floor x). pose proof (round_half_even_floor y).
    lia.
Qed.




Lemma round_half_even_proper x y :
  x == y → JS.round_half_even x = JS.round_half_even y.
Proof.
  intros H. apply Z.le_antisymm; apply round_half_even_mono; lra.
Qed.












Lemma nearest_never_NaN q : JS.nearest q ≠ JS.NaN.
Proof.
  unfold JS.nearest. destruct (Qcompare q 0); [done| |];
    by destruct (Qle_bool _ _).
Qed.








(** The rounding at known doubles: one tenth, a tie between two doubles,
    the underflow to zero, the largest double and the overflow. *)
Example nearest_tenth :
  JS.nearest (1 # 10) = JS.Fin (3602879701896397 # 36028797018963968).
Proof. vm_compute. reflexivity. Qed.

Example nearest_tie :
  JS.nearest (inject_Z (2 ^ 53 + 1)) = JS.Fin (inject_Z (2 ^ 53)) ∧
  JS.nearest (inject_Z (2 ^ 53 + 3)) = JS.Fin (inject_Z (2 ^ 53 + 4)).
Proof. split; vm_compute; reflexivity. Qed.

Example nearest_underflow :
  JS.nearest (JS.pow2 (-1075)) = JS.Fin 0 ∧
  JS.nearest (3 * JS.pow2 (-1075)) = JS.Fin (Qred (JS.pow2 (-1073))).
Proof. split; vm_compute; reflexivity. Qed.

Example nearest_largest :
  JS.nearest (JS.overflow_threshold - 1)
  = JS.Fin (Qred (JS.pow2 1024 - JS.pow2 971)) ∧
  JS.nearest JS.overflow_threshold = JS.PInf.
Proof. split; vm_compute; reflexivity. Qed.

End Doubles.

(** ** Random draws and the shuffle *)

Section RandomFacts.
Import Random.
Context {A : Type}.
Implicit Types (a : list A) (g : source).

Lemma insert_swap_head a j x y :
  a !! j = Some y → y :: <[j := x]> a ≡ₚ x :: a.
Proof.
  revert j. induction a as [|h t IH]; intros [|j] Hj; simplify_eq/=.
  - apply perm_swap.
  - rewrite perm_swap, (IH j Hj). apply perm_swap.
Qed.

Lemma swap_perm i j a : swap i j a ≡ₚ a.
Proof.
  unfold swap.
  destruct (a !! i) as [x|] eqn:Hi; [|done].
  destruct (a !! j) as [y|] eqn:Hj; [|done].
  revert i j Hi Hj.
  induction a as [|h t IH]; intros [|i] [|j] Hi Hj; simplify_eq/=; try done.
  - by apply insert_swap_head.
  - by apply insert_swap_head.
  - f_equiv. by apply IH.
Qed.

Lemma shuffle_from_perm n a g : (shuffle_from n a g).1 ≡ₚ a.
Proof.
  revert a g. induction n as [|n IH]; intros a g; [done|].
  cbn [shuffle_from]. unfold bind.
  destruct (random_below (S n + 1) g) as [j g'].
  rewrite IH. apply swap_perm.
Qed.

Lemma shuffle_perm a g : (shuffle a g).1 ≡ₚ a.
Proof. apply shuffle_from_perm. Qed.

Lemma shuffle_length a g : length (shuffle a g).1 = length a.
Proof. by rewrite shuffle_perm. Qed.

End RandomFacts.

Lemma count_of_perm `{EqDecision A} (x : A) (l k : list A) :
  l ≡ₚ k → count_of x l = count_of x k.
Proof. intros H. unfold count_of. by rewrite H. Qed.

Lemma count_of_app `{EqDecision A} (x : A) (l k : list A) :
  count_of x (l ++ k) = count_of x l + count_of x k.
Proof. unfold count_of. by rewrite filter_app, length_app. Qed.

Lemma count_of_replicate `{EqDecision A} (x y : A) n :
  count_of x (replicate n y) = if decide (y = x) then n else 0.
Proof.
  unfold count_of. induction n as [|n IH]; simpl.
  - by destruct (decide _).
  - rewrite filter_cons. destruct (decide (y = x)); simpl; by rewrite IH.
Qed.

Lemma random_below_lt n g : 0 < n → (Random.random_below n g).1 < n.
Proof.
  intros Hn. unfold Random.random_below, Random.bind, Random.Math_random.
  cbn -[Qfloor Qmult inject_Z].
  destruct (g 0) as [r [H0 H1]]; cbn -[Qfloor Qmult inject_Z].
  assert (Hle : (0 <= Qfloor (r * inject_Z (Z.of_nat n)))%Z).
  { change 0%Z with (Qfloor 0). apply Qfloor_resp_le.
    apply Qmult_le_0_compat; [done|].
    change 0%Q with (inject_Z 0). rewrite <- Zle_Qle. lia. }
  assert (Hlt : (Qfloor (r * inject_Z (Z.of_nat n)) < Z.of_nat n)%Z).
  { rewrite Zlt_Qlt. eapply Qle_lt_trans; [apply Qfloor_le|].
    rewrite <- (Qmult_1_l (inject_Z (Z.of_nat n))) at 2.
    apply Qmult_lt_compat_r; [|done].
    change 0%Q with (inject_Z 0). rewrite <- Zlt_Qlt. lia. }
  lia.
Qed.

(** ** Batch handler: the labels shown to the caller *)

Section BatchLabels.
Import Random Text Batch.

Lemma balanced_length n : length (balanced n) = n.
Proof.
  unfold balanced. cbn [List.flat_map nth DISEASE_LABELS map].
  rewrite !length_app, !length_replicate. cbn [length].
  pose proof (Nat.div_mod_eq n 3) as Hd.
  pose proof (Nat.mod_upper_bound n 3) as Hm.
  destruct (n mod 3) as [|[|[|?]]]; cbn [Nat.ltb Nat.leb]; lia.
Qed.

Lemma balanced_named n : Forall (λ s, s ∈ DISEASE_LABELS) (balanced n).
Proof.
  unfold balanced. cbn [List.flat_map nth DISEASE_LABELS map].
  rewrite !Forall_app. repeat split;
    try (apply Forall_replicate; set_solver); constructor.
Qed.

Lemma balanced_count n i :
  i < 3 →
  count_of (nth i DISEASE_LABELS []) (balanced n)
  = n / 3 + (if i <? n mod 3 then 1 else 0).
Proof.
  intros Hi. unfold balanced. cbn [List.flat_map].
  rewrite !count_of_app, !count_of_replicate.
  change (count_of _ []) with 0.
  destruct i as [|[|[|?]]]; [| | |lia]; cbn [nth DISEASE_LABELS map];
    repeat match goal with
    | |- context [decide (?a = ?b)] =>
        first [ rewrite (decide_True (P := a = b)) by reflexivity
              | rewrite (decide_False (P := a = b)) by discriminate ]
    end; lia.
Qed.

(** The labels handed to the caller are the shuffled balanced list: the
    decision of the model is never used. *)
Lemma predicted_is_balanced bp al g :
  map predicted (predictions bp al g).1 = (shuffle (balanced (length bp)) g).1.
Proof.
  unfold predictions, bind.
  pose proof (shuffle_perm (balanced (length bp)) g) as Hperm.
  pose proof (shuffle_length (balanced (length bp)) g) as Hlen.
  rewrite balanced_length in Hlen.
  destruct (shuffle (balanced (length bp)) g) as [bc g']. cbn in *.
  apply list_eq. intros i.
  rewrite list_lookup_fmap, list_lookup_imap.
  destruct (bp !! i) as [pred|] eqn:Hbp; cbn.
  - apply lookup_lt_Some in Hbp.
    destruct (lookup_lt_is_Some_2 bc i) as [s Hs]; [lia|].
    rewrite Hs. cbn. f_equal.
    assert (s ∈ DISEASE_LABELS) as Hin.
    { pose proof (balanced_named (length bp)) as Hall.
      rewrite Forall_forall in Hall. apply Hall.
      rewrite <- Hperm. by eapply list_elem_of_lookup_2. }
    unfold DISEASE_LABELS in Hin. cbn in Hin.
    set_unfold in Hin. by destruct Hin as [->|[->|[->|[]]]].
  - apply lookup_ge_None in Hbp. symmetry. apply lookup_ge_None. lia.
Qed.

Lemma balanced_whatever_the_model
    (bp1 bp2 : list Calibration.PredictionResult) (al1 al2 : list str)
    (g1 g2 : source) :
  length bp1 = length bp2 →
  let n := length bp1 in
  let labels1 := map predicted (predictions bp1 al1 g1).1 in
  let labels2 := map predicted (predictions bp2 al2 g2).1 in
  length labels1 = n ∧
  (∀ i, i < 3 →
     count_of (nth i DISEASE_LABELS []) labels1
     = n / 3 + (if i <? n mod 3 then 1 else 0)) ∧
  (∀ i, i < 3 →
     count_of (nth i DISEASE_LABELS []) labels1 = n / 3 ∨
     count_of (nth i DISEASE_LABELS []) labels1 = (n + 2) / 3) ∧
  (∀ c, count_of c labels1 = count_of c labels2).
Proof.
  intros Hlen n labels1 labels2. subst n labels1 labels2.
  rewrite !predicted_is_balanced, <- Hlen.
  set (n := length bp1).
  assert (Hcount : ∀ i, i < 3 →
     count_of (nth i DISEASE_LABELS []) (shuffle (balanced n) g1).1
     = n / 3 + (if i <? n mod 3 then 1 else 0)).
  { intros i Hi.
    rewrite (count_of_perm _ _ _ (shuffle_perm (balanced n) g1)).
    by apply balanced_count. }
  split; [by rewrite shuffle_length, balanced_length|].
  split; [exact Hcount|]. split.
  - intros i Hi. rewrite (Hcount i Hi).
    pose proof (Nat.div_mod_eq n 3) as Hd.
    pose proof (Nat.mod_upper_bound n 3) as Hm.
    destruct (i <? n mod 3) eqn:Hlt.
    + right. apply Nat.ltb_lt in Hlt.
      apply (Nat.div_unique _ _ _ (n mod 3 - 1)); lia.
    + left. lia.
  - intros c.
    rewrite (count_of_perm _ _ _ (shuffle_perm (balanced n) g1)).
    by rewrite (count_of_perm _ _ _ (shuffle_perm (balanced n) g2)).
Qed.

Lemma batch_loop_length targets acc pa :
  length (foldl (Calibration.batch_step targets) acc pa).2
  = length acc.2 + length pa.
Proof.
  revert acc. induction pa as [|row pa IH]; intros [cc rs]; cbn [foldl].
  - cbn. lia.
  - rewrite IH. unfold Calibration.batch_step.
    destruct (Calibration.argmax_from _ _ _) as [maxProb predictedClass].
    cbn [snd length]. rewrite length_app. cbn [length]. lia.
Qed.

Lemma predictBatch_length pa :
  length (Calibration.predictBatch pa) = length pa.
Proof. unfold Calibration.predictBatch. by rewrite batch_loop_length. Qed.

(** C2.  In handleBatchProcess the predicted labels handed to the caller are
    a rearrangement of the balanced list, not the decisions of predictBatch:
    for [n] processed records class [i] is predicted [n / 3] times, and once
    more when [i] is below [n mod 3], which is the floor or the ceiling of a
    third of [n].  The counts depend on [n] alone: two runs over the same
    number of records, whatever the probabilities returned by the model
    (hence whatever the features), the labels of the file and the random
    draws, give every label the same number of occurrences. *)
Theorem batch_labels_forced_balanced
    (probabilities1 probabilities2 : list (list R)) (al1 al2 : list str)
    (g1 g2 : source) :
  length probabilities1 = length probabilities2 →
  let n := length probabilities1 in
  let labels1 :=
    map predicted
        (predictions (Calibration.predictBatch probabilities1) al1 g1).1 in
  let labels2 :=
    map predicted
        (predictions (Calibration.predictBatch probabilities2) al2 g2).1 in
  length labels1 = n ∧
  (∀ i, i < 3 →
     count_of (nth i DISEASE_LABELS []) labels1
     = n / 3 + (if i <? n mod 3 then 1 else 0)) ∧
  (∀ i, i < 3 →
     count_of (nth i DISEASE_LABELS []) labels1 = n / 3 ∨
     count_of (nth i DISEASE_LABELS []) labels1 = (n + 2) / 3) ∧
  (∀ c, count_of c labels1 = count_of c labels2).
Proof.
  intros Hlen n. subst n.
  rewrite <- (predictBatch_length probabilities1).
  apply balanced_whatever_the_model.
  by rewrite !predictBatch_length.
Qed.

End BatchLabels.

(** ** Confusion matrices *)

Section ConfusionFacts.
Import Evaluation.

Lemma Qred_inject_Z z : Qred (inject_Z z) = inject_Z z.
Proof. apply Qred_iff. cbn. apply Z.gcd_1_r. Qed.

Lemma add_of_nat a b : JS.add (JS.of_nat a) (JS.of_nat b) = JS.of_nat (a + b).
Proof.
  unfold JS.of_nat, JS.of_Z. cbn [JS.add]. f_equal.
  rewrite Nat2Z.inj_add.
  rewrite <- (Qred_inject_Z (Z.of_nat a + Z.of_nat b)).
  apply Qred_complete. by rewrite inject_Z_plus.
Qed.

Lemma incr_of_nat a : JS.add (JS.of_nat a) (JS.Fin 1) = JS.of_nat (a + 1).
Proof. apply (add_of_nat a 1). Qed.

Lemma of_counts_ext f f' :
  (∀ a p, f a p = f' a p) → of_counts f = of_counts f'.
Proof. intros H. unfold of_counts. cbn. by rewrite !H. Qed.

Lemma zero_matrix_counts : zero_matrix 3 = of_counts (λ _ _, 0).
Proof. reflexivity. Qed.

Lemma cell_of_counts f a p :
  a < 3 → p < 3 → cell (of_counts f) a p = JS.of_nat (f a p).
Proof.
  intros Ha Hp.
  destruct a as [|[|[|?]]]; [| | |lia];
    (destruct p as [|[|[|?]]]; [| | |lia]); reflexivity.
Qed.


Lemma count_of_cons_pair (a p : nat) ap (l : list (nat * nat)) :
  count_of (a, p) (ap :: l) = hit a p ap + count_of (a, p) l.
Proof.
  unfold count_of, hit. rewrite filter_cons.
  by destruct (decide (ap = (a, p))).
Qed.

Lemma bump_of_counts f a p :
  a < 3 → p < 3 →
  bump (Some (of_counts f)) (a, p)
  = Some (of_counts (λ a' p', f a' p' + hit a' p' (a, p))).
Proof.
  intros Ha Hp.
  destruct a as [|[|[|?]]]; [| | |lia];
    (destruct p as [|[|[|?]]]; [| | |lia]);
    unfold bump, of_counts, incr_cell, hit;
    cbn -[JS.add JS.of_nat];
    rewrite incr_of_nat, ?Nat.add_0_r; reflexivity.
Qed.

Lemma bump_None incs : foldl bump None incs = None.
Proof. by induction incs. Qed.

Lemma foldl_bump f (incs : list (nat * nat)) :
  Forall (λ ap, ap.1 < 3 ∧ ap.2 < 3) incs →
  foldl bump (Some (of_counts f)) incs
  = Some (of_counts (λ a p, f a p + count_of (a, p) incs)).
Proof.
  intros Hall. revert f.
  induction Hall as [|[a p] incs [Ha Hp] _ IH]; intros f.
  - cbn [foldl]. f_equal. apply of_counts_ext. intros a p.
    unfold count_of. cbn. lia.
  - cbn [foldl]. cbn in Ha, Hp. rewrite bump_of_counts by done.
    rewrite IH. f_equal. apply of_counts_ext. intros a' p'.
    rewrite count_of_cons_pair. lia.
Qed.

(** Every pair of indices below 3 is counted in exactly one cell. *)
Lemma count_of_all_cells (incs : list (nat * nat)) :
  Forall (λ ap, ap.1 < 3 ∧ ap.2 < 3) incs →
  count_of (0, 0) incs + count_of (0, 1) incs + count_of (0, 2) incs
  + count_of (1, 0) incs + count_of (1, 1) incs + count_of (1, 2) incs
  + count_of (2, 0) incs + count_of (2, 1) incs + count_of (2, 2) incs
  = length incs.
Proof.
  induction 1 as [|[a p] incs [Ha Hp] _ IH]; [done|].
  rewrite !count_of_cons_pair. cbn [length]. cbn in Ha, Hp.
  destruct a as [|[|[|?]]]; [| | |lia];
    (destruct p as [|[|[|?]]]; [| | |lia]);
    unfold hit;
    repeat match goal with
    | |- context [decide (?x = ?y)] =>
        first [ rewrite (decide_True (P := x = y)) by reflexivity
              | rewrite (decide_False (P := x = y)) by discriminate ]
    end; lia.
Qed.



(** The loop of calculateConfusionMatrix, on the list of pairs. *)
Lemma confusion_loop actuals predictions k m :
  length predictions ≤ length (drop k actuals) →
  foldl (confusion_step actuals) m
        (imap (λ i p, (k + i, p)) predictions)
  = foldl bump m (zip (drop k actuals) predictions).
Proof.
  revert k m. induction predictions as [|p ps IH]; intros k m Hlen.
  - by destruct (drop k actuals).
  - rewrite imap_cons.
    destruct (drop k actuals) as [|a rest] eqn:Hd; [cbn in Hlen; lia|].
    assert (actuals !! k = Some a) as Hk.
    { rewrite <- (Nat.add_0_r k), <- lookup_drop, Hd. done. }
    assert (drop (S k) actuals = rest) as Hrest.
    { rewrite <- (drop_drop actuals 1 k) || idtac.
      change (S k) with (1 + k).
      rewrite Nat.add_comm, <- drop_drop, Hd. done. }
    cbn [zip zip_with foldl].
    rewrite (imap_ext _ (λ i p, (S k + i, p))) by (intros; cbn; f_equal; lia).
    rewrite IH by (rewrite Hrest; cbn in Hlen; lia).
    rewrite Hrest. f_equal.
    unfold confusion_step, bump. rewrite Nat.add_0_r.
    destruct m as [m|]; cbn; [|done]. by rewrite Hk.
Qed.

Lemma calculateConfusionMatrix_pairs predictions actuals :
  length predictions ≤ length actuals →
  calculateConfusionMatrix predictions actuals
  = foldl bump (Some (zero_matrix 3)) (zip actuals predictions).
Proof.
  intros Hlen. unfold calculateConfusionMatrix.
  apply (confusion_loop actuals predictions 0). by rewrite drop_0.
Qed.

End ConfusionFacts.

Section BatchConfusionFacts.
Import Evaluation Batch Random.

Lemma diseaseMap_range k a : diseaseMap !! k = Some a → a < 3.
Proof.
  intros H. apply elem_of_list_to_map_2 in H.
  repeat (apply elem_of_cons in H as [[= _ <-]|H]; [lia|]).
  by apply elem_of_nil in H.
Qed.

Lemma diseaseMap_names s :
  s ∈ DISEASE_LABELS → is_Some (diseaseMap !! s).
Proof.
  unfold DISEASE_LABELS. cbn [map list_ascii_of_string].
  intros H.
  repeat (apply elem_of_cons in H as [->|H];
          [eexists; vm_compute; reflexivity|]).
  by apply elem_of_nil in H.
Qed.

Lemma get_own (s : Text.str) a :
  diseaseMap !! s = Some a → Dict.get diseaseMap s = Dict.Own a.
Proof. unfold Dict.get. by intros ->. Qed.

Lemma get_label s :
  s ∈ DISEASE_LABELS → ∃ a, Dict.get diseaseMap s = Dict.Own a.
Proof.
  intros H. destruct (diseaseMap_names s H) as [a Ha].
  exists a. by apply get_own.
Qed.

(** No key of the literal is an inherited name. *)
Lemma inherited_not_key s :
  s ∈ Dict.inherited_names → diseaseMap !! s = None.
Proof.
  intros H. unfold Dict.inherited_names, strs in H. cbn [map] in H.
  repeat (apply elem_of_cons in H as [->|H]; [reflexivity|]).
  by apply elem_of_nil in H.
Qed.

Lemma convert_member l :
  names_member l → convert l = Dict.Inherited (Text.trim l).
Proof.
  intros H. unfold convert, Dict.get.
  rewrite (inherited_not_key _ H). by rewrite bool_decide_eq_true_2.
Qed.

Lemma convert_not_member l name :
  ¬ names_member l → convert l ≠ Dict.Inherited name.
Proof.
  intros H. unfold convert, Dict.get.
  destruct (diseaseMap !! _); [done|].
  by rewrite bool_decide_eq_false_2.
Qed.

Lemma batch_step_None conv l :
  foldl (Batch.confusion_step conv) None l = None.
Proof. induction l as [|[i p] l IH]; [done|]. exact IH. Qed.

(** Without inherited members the loop adds the pairs that resolve. *)
Lemma batch_loop conv preds k m :
  length preds ≤ length (drop k conv) →
  Forall (λ c, ∀ name, c ≠ Dict.Inherited name) conv →
  Forall (λ p, ∀ name,
            Dict.get diseaseMap (predicted p) ≠ Dict.Inherited name) preds →
  foldl (Batch.confusion_step conv) m (imap (λ i p, (k + i, p)) preds)
  = foldl bump m
      (effective
         (zip (map index_of (drop k conv))
              (map (λ x, index_of (Dict.get diseaseMap (predicted x)))
                   preds))).
Proof.
  intros Hlen Hconv Hpreds. revert k m Hlen.
  induction Hpreds as [|p ps Hp _ IH]; intros k m Hlen.
  - by destruct (drop k conv).
  - rewrite imap_cons.
    destruct (drop k conv) as [|c rest] eqn:Hd; [cbn in Hlen; lia|].
    assert (conv !! k = Some c) as Hk.
    { rewrite <- (Nat.add_0_r k), <- lookup_drop, Hd. done. }
    assert (drop (S k) conv = rest) as Hrest.
    { change (S k) with (1 + k).
      rewrite Nat.add_comm, <- drop_drop, Hd. done. }
    assert (∀ name, c ≠ Dict.Inherited name) as Hc.
    { rewrite Forall_forall in Hconv. apply Hconv.
      by eapply list_elem_of_lookup_2. }
    rewrite (imap_ext _ (λ i p, (S k + i, p))) by (intros; cbn; f_equal; lia).
    cbn [foldl]. rewrite IH by (rewrite Hrest; cbn in Hlen; lia).
    rewrite Hrest. cbn [map zip zip_with].
    destruct m as [m|];
      [|by rewrite !bump_None].
    unfold Batch.confusion_step. rewrite Nat.add_0_r, Hk.
    cbn [mbind option_bind]. unfold effective. cbn [omap fst snd].
    destruct c as [a|name|]; [| by destruct (Hc name) |];
      destruct (Dict.get diseaseMap (predicted p)) as [q|name|];
      try (by destruct (Hp name));
      cbn [index_of mbind option_bind foldl]; reflexivity.
Qed.

(** A label that is an inherited member raises, when the prediction beside
    it names a class. *)
Lemma batch_loop_raises conv preds k j name m :
  j < length preds → conv !! (k + j) = Some (Dict.Inherited name) →
  Forall (λ p, ∃ a, Dict.get diseaseMap (predicted p) = Dict.Own a) preds →
  foldl (Batch.confusion_step conv) m (imap (λ i p, (k + i, p)) preds)
  = None.
Proof.
  intros Hj Hconv Hpreds. revert k j m Hj Hconv.
  induction Hpreds as [|p ps [a Hp] _ IH]; intros k j m Hj Hconv;
    [cbn in Hj; lia|].
  rewrite imap_cons. cbn [foldl].
  rewrite (imap_ext _ (λ i p, (S k + i, p))) by (intros; cbn; f_equal; lia).
  destruct j as [|j].
  - destruct m as [m|]; [|apply batch_step_None].
    unfold Batch.confusion_step at 2.
    rewrite Hconv, Hp. cbn [mbind option_bind].
    apply batch_step_None.
  - apply (IH (S k) j); [cbn in Hj; lia|].
    by rewrite <- Hconv, Nat.add_succ_r.
Qed.

Lemma confusionMatrix_pairs preds al :
  length preds ≤ length al →
  Forall (λ l, ¬ names_member l) al →
  Forall (λ p, predicted p ∈ DISEASE_LABELS) preds →
  confusionMatrix preds al
  = foldl bump (Some (zero_matrix 3)) (effective (resolved preds al)).
Proof.
  intros Hlen Hal Hpreds. unfold confusionMatrix, resolved, class_of.
  rewrite <- (List.map_map convert index_of).
  rewrite <- (drop_0 (map convert al)).
  apply (batch_loop (map convert al) preds 0).
  - by rewrite drop_0, length_map.
  - apply List.Forall_map. eapply Forall_impl; [exact Hal|].
    intros l Hl name. by apply convert_not_member.
  - eapply Forall_impl; [exact Hpreds|].
    intros p Hp name. destruct (get_label _ Hp) as [a ->]. done.
Qed.

Lemma confusionMatrix_raises preds al :
  length al = length preds →
  Exists names_member al →
  Forall (λ p, predicted p ∈ DISEASE_LABELS) preds →
  confusionMatrix preds al = None.
Proof.
  intros Hlen Hex Hpreds. unfold confusionMatrix.
  apply Exists_exists in Hex as (l & Hin & Hl).
  apply list_elem_of_lookup in Hin as [j Hj].
  apply (batch_loop_raises (map convert al) preds 0 j (Text.trim l)).
  - apply lookup_lt_Some in Hj. lia.
  - change (map convert al) with (convert <$> al). cbn [Nat.add].
    by rewrite list_lookup_fmap, Hj, <- (convert_member l Hl).
  - eapply Forall_impl; [exact Hpreds|]. intros p. apply get_label.
Qed.

Lemma zip_Forall {X Y} (P : X → Prop) (Q : Y → Prop) xs ys :
  Forall P xs → Forall Q ys → Forall (λ xy, P xy.1 ∧ Q xy.2) (zip xs ys).
Proof.
  intros HP. revert ys. induction HP as [|x xs Hx _ IH]; intros ys HQ.
  - constructor.
  - destruct HQ as [|y ys Hy HQ]; constructor; [done|]. by apply IH.
Qed.

Lemma effective_range l :
  Forall (λ oap, (∀ a, oap.1 = Some a → a < 3)
                 ∧ (∀ p, oap.2 = Some p → p < 3)) l →
  Forall (λ ap, ap.1 < 3 ∧ ap.2 < 3) (effective l).
Proof.
  induction 1 as [|[[a|] [p|]] l [Ha Hp] _ IH]; cbn in *; auto.
Qed.

Lemma index_of_range s a :
  index_of (Dict.get diseaseMap s) = Some a → a < 3.
Proof.
  unfold Dict.get. destruct (diseaseMap !! s) as [a'|] eqn:E.
  - intros [= <-]. by apply diseaseMap_range in E.
  - by destruct (bool_decide _).
Qed.

Lemma resolved_range preds al :
  Forall (λ oap, (∀ a, oap.1 = Some a → a < 3)
                 ∧ (∀ p, oap.2 = Some p → p < 3)) (resolved preds al).
Proof.
  unfold resolved.
  apply (zip_Forall (λ oa, ∀ a, oa = Some a → a < 3)
                    (λ op, ∀ p, op = Some p → p < 3));
    apply Forall_fmap, Forall_true; intros x a; apply index_of_range.
Qed.

(** The predictions of the handler name classes. *)
Lemma predictions_named bp al g :
  Forall (λ p, predicted p ∈ DISEASE_LABELS) (predictions bp al g).1.
Proof.
  apply (List.Forall_map predicted (λ s, s ∈ DISEASE_LABELS)).
  rewrite predicted_is_balanced, shuffle_perm. apply balanced_named.
Qed.






End BatchConfusionFacts.

(** ** Parser and encoder on the scenarios *)

Section Scenarios.
Import Text Parser Encoder.

(** C9.  The text of the first scenario parses to the headers age, gender,
    diagnosis and to two data rows; encoding them gives two feature vectors
    of 53 entries whose gender column (position 1 of the schema) is 1, 0 and
    the labels 0, 1. *)
Theorem scenario_csv_parses_and_encodes :
  ∃ parsed td,
    parseCSV scenario_csv = inr parsed ∧
    headers parsed = strs ["age"; "gender"; "diagnosis"] ∧
    rows parsed = [strs ["30"; "M"; "dengue"]; strs ["40"; "F"; "malaria"]] ∧
    convertToTrainingData (headers parsed) (rows parsed) = Some td ∧
    map length (features td) = [53; 53] ∧
    featureColumns !! 1 = Some (list_ascii_of_string "gender") ∧
    feature_column 1 (features td) = [Some (JS.Fin 1); Some (JS.Fin 0)] ∧
    feature_column 0 (features td) = [Some (JS.Fin 30); Some (JS.Fin 40)] ∧
    labels td = [Index 0; Index 1] ∧
    hasLabels td = true ∧
    rowCount td = 2.
Proof.
  eexists _, _. split; [vm_compute; reflexivity|].
  cbn [headers rows].
  split; [reflexivity|]. split; [reflexivity|].
  split; [vm_compute; reflexivity|].
  cbn [features labels hasLabels rowCount].
  repeat split.
Qed.

End Scenarios.

(** ** Synthetic cohort *)

Section GeneratorFacts.
Import Random Generator.

(** C1 fails on the code.  For three records, one per class is scheduled;
    with every draw equal to one half the shuffle leaves class 0 first, and
    a scheduled class 0, being falsy, is drawn again and becomes class 1.
    The labels are 1, 2, 1: no record of class 0 and two of class 1, where
    one of each is asked for. *)
Theorem generateSampleData_three_is_unbalanced :
  let labels := (generateSampleData 3 always_half).1.2 in
  (shuffle (schedule (3 / 3)) always_half).1 = [0; 2; 1] ∧
  labels = [1; 2; 1] ∧
  count_of 0 labels = 0 ∧ count_of 1 labels = 2 ∧ count_of 2 labels = 1.
Proof. vm_compute. repeat split. Qed.

Lemma schedule_range k : Forall (λ d, d < 3) (schedule k).
Proof.
  unfold schedule. cbn [List.flat_map]. rewrite !Forall_app.
  repeat split; try (apply Forall_replicate; lia). constructor.
Qed.

Lemma pick_disease_range diseases i g :
  Forall (λ d, d < 3) diseases → (pick_disease diseases i g).1 < 3.
Proof.
  intros Hall. unfold pick_disease.
  destruct (diseases !! i) as [[|d]|] eqn:Hi;
    try (apply random_below_lt; lia).
  rewrite Forall_forall in Hall. apply (Hall (S d)).
  by eapply list_elem_of_lookup_2.
Qed.

(** One record: 53 features and the class that was picked. *)
Lemma record_shape diseases i g :
  length (record diseases i g).1.1 = 53 ∧
  (record diseases i g).1.2 = (pick_disease diseases i g).1.
Proof.
  unfold record.
  cbv beta iota zeta delta
    [bind ret uniform uniform_int bernoulli Math_random profile].
  destruct (pick_disease diseases i g) as [[|[|d]] g1];
    split; reflexivity.
Qed.

Lemma records_shape diseases todo features labels g :
  Forall (λ d, d < 3) diseases →
  Forall (λ fv, length fv = 53) features → Forall (λ l, l < 3) labels →
  let result := (records diseases todo features labels g).1 in
  length result.1 = length features + length todo ∧
  length result.2 = length labels + length todo ∧
  Forall (λ fv, length fv = 53) result.1 ∧
  Forall (λ l, l < 3) result.2.
Proof.
  intros Hd. revert features labels g.
  induction todo as [|i todo IH]; intros features labels g Hf Hl.
  - cbn. split; [lia|]. split; [lia|]. by split.
  - cbn [records]. unfold bind.
    destruct (record_shape diseases i g) as [H53 Hclass].
    pose proof (pick_disease_range diseases i g Hd) as Hlt.
    destruct (record diseases i g) as [[fv l] g1]. cbn [fst snd] in *.
    destruct (IH (features ++ [fv]) (labels ++ [l]) g1)
      as (H1 & H2 & H3 & H4).
    + apply Forall_app. split; [done|]. by constructor.
    + apply Forall_app. split; [done|]. constructor; [lia|constructor].
    + rewrite !length_app in H1, H2. cbn [length] in *.
      split; [lia|]. split; [lia|]. by split.
Qed.

(** The parts of C1 that hold: for every size and all draws the generator
    returns [numSamples] records, each with 53 features and a label among
    0, 1 and 2. *)
Lemma generateSampleData_shape numSamples g :
  let result := (generateSampleData numSamples g).1 in
  length result.1 = numSamples ∧
  length result.2 = numSamples ∧
  Forall (λ fv, length fv = 53) result.1 ∧
  Forall (λ l, l < 3) result.2.
Proof.
  unfold generateSampleData, bind.
  pose proof (shuffle_perm (schedule (numSamples / 3)) g) as Hperm.
  destruct (shuffle (schedule (numSamples / 3)) g) as [diseases g1].
  cbn [fst] in Hperm.
  destruct (records_shape diseases (seq 0 numSamples) [] [] g1)
    as (H1 & H2 & H3 & H4); [|constructor|constructor|].
  - rewrite Hperm. apply schedule_range.
  - rewrite length_seq in H1, H2. cbn zeta.
    split; [exact H1|]. split; [exact H2|]. by split.
Qed.

End GeneratorFacts.

(** ** The cells of a line *)

Section LineFacts.
Import Text Parser.

Lemma eqc_true a b : eqc a b = true ↔ a = b.
Proof. apply Ascii.eqb_eq. Qed.

Lemma eqc_false a b : eqc a b = false ↔ a ≠ b.
Proof. apply Ascii.eqb_neq. Qed.

Lemma matchAll_skip k s : matchAll k s = matchAll 0 (drop k s).
Proof.
  revert k. induction s as [|c s IH]; intros [|k]; try reflexivity.
  cbn [matchAll drop]. apply IH.
Qed.

(** What follows the run is empty or starts with a comma. *)
Lemma after_run s :
  drop (length (unquoted_run s)) s = [] ∨
  ∃ rem, drop (length (unquoted_run s)) s = comma :: rem.
Proof.
  induction s as [|c s IH]; [by left|]. cbn [unquoted_run].
  destruct (eqc c comma) eqn:Hc; cbn [length drop]; [|exact IH].
  right. apply eqc_true in Hc as ->. by eexists.
Qed.

Lemma split_run s :
  split comma s
  = match drop (length (unquoted_run s)) s with
    | [] => [unquoted_run s]
    | _ :: rem => unquoted_run s :: split comma rem
    end.
Proof.
  induction s as [|c s IH]; [done|]. cbn [split unquoted_run].
  destruct (eqc c comma); cbn [length drop]; [done|].
  rewrite IH. by destruct (drop _ s).
Qed.

Lemma unquoted_run_plain s : plain s → plain (unquoted_run s).
Proof.
  induction 1 as [|c s Hc _ IH]; [constructor|]. cbn [unquoted_run].
  destruct (eqc c comma); by constructor.
Qed.

Lemma plain_drop k s : plain s → plain (drop k s).
Proof. apply Forall_drop. Qed.

Lemma matchAll_run s :
  plain s →
  matchAll 0 s
  = match unquoted_run s with [] => [] | run => [run] end
    ++ match drop (length (unquoted_run s)) s with
       | [] => []
       | _ :: rem => matchAll 0 rem
       end.
Proof.
  intros Hs. destruct Hs as [|c s Hc Hs]; [done|].
  cbn [matchAll match_here].
  apply eqc_false in Hc. rewrite Hc. unfold unquoted.
  cbn [unquoted_run]. destruct (eqc c comma) eqn:Hcomma.
  - reflexivity.
  - replace (length (c :: unquoted_run s) - 1)
      with (length (unquoted_run s)) by (cbn [length]; lia).
    cbn [length drop app]. rewrite matchAll_skip. f_equal.
    destruct (after_run s) as [->|[rem ->]]; [done|].
    cbn [matchAll match_here]. unfold unquoted. cbn [unquoted_run].
    by rewrite (proj2 (eqc_true comma comma) eq_refl).
Qed.

Lemma cell_of_plain_match m : plain m → cell_of_match m = trim m.
Proof.
  intros Hm. unfold cell_of_match.
  destruct Hm as [|c m Hc _]; [done|].
  cbn [startsWith]. apply eqc_false in Hc. by rewrite Hc.
Qed.

Lemma parse_line_plain_bounded n line :
  length line ≤ n → plain line →
  parse_line line = map trim (nonempty_fields line).
Proof.
  unfold parse_line, nonempty_fields.
  revert line. induction n as [|n IH]; intros line Hn Hp.
  - destruct line; [|cbn in Hn; lia]. reflexivity.
  - rewrite (matchAll_run line Hp), (split_run line).
    pose proof (unquoted_run_plain line Hp) as Hrun.
    assert (length (drop (length (unquoted_run line)) line) ≤ length line)
      as Hshort by (rewrite length_drop; lia).
    pose proof (plain_drop (length (unquoted_run line)) line Hp) as Hrest.
    destruct (drop (length (unquoted_run line)) line) as [|x rem] eqn:Hd.
    + destruct (unquoted_run line) as [|c run] eqn:Hr; [done|].
      rewrite filter_cons, decide_True by done.
      cbn. by rewrite (cell_of_plain_match _ Hrun).
    + assert (IHrem := IH rem).
      rewrite filter_cons.
      inversion Hrest; subst. cbn [length] in Hshort.
      destruct (unquoted_run line) as [|c run] eqn:Hr.
      * rewrite decide_False by (intros H; by apply H).
        cbn [app]. apply IHrem; [lia|done].
      * rewrite decide_True by done. cbn [app map].
        rewrite (cell_of_plain_match _ Hrun). f_equal.
        apply IHrem; [lia|done].
Qed.

End LineFacts.

Section EmptyFields.
Import Text Parser Encoder.

Lemma match_here_nonempty s m : match_here s = Some m → m ≠ [].
Proof.
  unfold match_here, unquoted. destruct s as [|c s]; [done|].
  destruct (eqc c dquote); [destruct (quoted s)|];
    try (intros [= <-]; done);
    destruct (unquoted_run (c :: s)); intros [= <-]; done.
Qed.

Lemma matchAll_nonempty k s : Forall (λ m, m ≠ []) (matchAll k s).
Proof.
  revert k. induction s as [|c s IH]; intros k; [constructor|].
  cbn [matchAll]. destruct k as [|k]; [|apply IH].
  destruct (match_here (c :: s)) as [m|] eqn:Hm; [|apply IH].
  constructor; [by eapply match_here_nonempty|apply IH].
Qed.

(** C10.  A match of the cell pattern is never empty, so no cell comes from
    an empty field.  On a line without double quotes the returned row is
    exactly the trimmed non-empty fields: the empty text between two commas
    or after the last comma is dropped, not returned as an empty cell.  The
    line made of 40 and two commas has three fields and parses to the single
    cell 40; under three headers convertToTrainingData skips that row for
    having fewer cells than headers. *)
Theorem parseCSV_omits_empty_fields :
  (∀ line, Forall (λ m, m ≠ []) (matchAll 0 line)) ∧
  (∀ line, plain line → parse_line line = map trim (nonempty_fields line)) ∧
  split comma (list_ascii_of_string "40,,") = strs ["40"; ""; ""] ∧
  parse_line (list_ascii_of_string "40,,") = strs ["40"] ∧
  (∃ parsed td,
     parseCSV sparse_csv = inr parsed ∧
     headers parsed = strs ["age"; "gender"; "diagnosis"] ∧
     rows parsed = [strs ["40"]] ∧
     Forall (λ row, length row < length (headers parsed)
                    ∧ skipped (headers parsed) row = true) (rows parsed) ∧
     convertToTrainingData (headers parsed) (rows parsed) = Some td ∧
     features td = [] ∧ rowCount td = 0).
Proof.
  split; [intros line; apply matchAll_nonempty|].
  split; [intros line; by apply (parse_line_plain_bounded (length line))|].
  split; [reflexivity|]. split; [reflexivity|].
  eexists _, _. split; [vm_compute; reflexivity|].
  cbn [headers rows].
  split; [reflexivity|]. split; [reflexivity|].
  split; [repeat constructor|].
  split; [vm_compute; reflexivity|]. by cbn.
Qed.

End EmptyFields.

(** ** Feature encoder *)

Section EncoderFacts.
Import Text Encoder.

Lemma findIndex_lt {X} (p : X → bool) xs i :
  findIndex p xs = Some i → i < length xs.
Proof.
  revert i. induction xs as [|x xs IH]; intros i; [done|].
  cbn [findIndex length]. destruct (p x); [intros [= <-]; lia|].
  destruct (findIndex p xs) as [j|]; [|done].
  intros [= <-]. specialize (IH j eq_refl). lia.
Qed.

Lemma zip_with_map {X Y} (f : X → Y) l :
  zip l (map f l) = map (λ x, (x, f x)) l.
Proof. induction l as [|x l IH]; [done|]. cbn. by rewrite IH. Qed.

Lemma bit_not_NaN b : bit b ≠ JS.NaN.
Proof. by destruct b. Qed.

(** A cell of a row that is at least as long as the header row. *)
Lemma encode_cell_total headers row col :
  length headers ≤ length row →
  ∃ v, encode_cell row col (column_index headers col) = Some v ∧
       v ≠ JS.NaN ∧
       (column_index headers col = None → v = JS.Fin 0).
Proof.
  intros Hlen. unfold encode_cell.
  destruct (column_index headers col) as [i|] eqn:Hi;
    [|by eexists].
  apply findIndex_lt in Hi.
  destruct (lookup_lt_is_Some_2 row i) as [v Hv]; [lia|]. rewrite Hv.
  cbn [mbind option_bind from_option].
  repeat case_match; eexists; (split; [reflexivity|]);
    (split; [|done]); try apply bit_not_NaN; try done.
  by destruct (parseFloat v).
Qed.

Lemma featureRow_total headers row :
  length headers ≤ length row →
  ∃ fv, featureRow (map (column_index headers) featureColumns) row = Some fv
        ∧ well_encoded headers fv.
Proof.
  intros Hlen. unfold featureRow. rewrite zip_with_map.
  set (cells := map _ featureColumns).
  assert (Forall (λ ci, ∃ v, encode_cell row ci.1 ci.2 = Some v ∧
                             v ≠ JS.NaN ∧ (ci.2 = None → v = JS.Fin 0))
                 cells) as Hcells.
  { apply List.Forall_map, Forall_true. intros col.
    by apply encode_cell_total. }
  destruct (mapM_is_Some_2 (λ ci, encode_cell row ci.1 ci.2) cells)
    as [fv Hfv].
  { eapply Forall_impl; [exact Hcells|]. intros ci (v & Hv & _). by exists v. }
  exists fv. split; [exact Hfv|].
  pose proof (mapM_Some_1 _ _ _ Hfv) as H2.
  split; [|split].
  - rewrite <- (Forall2_length _ _ _ H2). unfold cells.
    by rewrite length_map.
  - apply Forall_forall. intros v Hin.
    apply list_elem_of_lookup in Hin as [j Hj].
    destruct (Forall2_lookup_r _ _ _ _ _ H2 Hj) as (ci & Hci & Hv).
    rewrite Forall_forall in Hcells.
    destruct (Hcells ci) as (v' & Hv' & Hnan & _);
      [by eapply list_elem_of_lookup_2|].
    congruence.
  - intros j col Hcol Hnone.
    assert (cells !! j = Some (col, column_index headers col)) as Hci.
    { unfold cells.
      change (map ?f featureColumns) with (f <$> featureColumns).
      by rewrite list_lookup_fmap, Hcol. }
    destruct (Forall2_lookup_l _ _ _ _ _ H2 Hci) as (v & Hv & Henc).
    rewrite Forall_forall in Hcells.
    destruct (Hcells _ (list_elem_of_lookup_2 _ _ _ Hci))
      as (v' & Hv' & _ & Hzero).
    cbn [fst snd] in *. rewrite Hv. f_equal.
    rewrite <- (Hzero Hnone). congruence.
Qed.

Lemma not_skipped_long headers row :
  skipped headers row = false → length headers ≤ length row.
Proof.
  unfold skipped. intros H.
  apply orb_false_elim in H as [_ H].
  apply bool_decide_eq_false in H. lia.
Qed.

(** The loop over the rows, from any state of the two arrays. *)
Lemma rows_loop headers labelIndex rows fs ls :
  ∃ fs' ls',
    foldl (row_step headers (map (column_index headers) featureColumns)
                    labelIndex)
          (Some (fs, ls)) rows = Some (fs ++ fs', ls ++ ls') ∧
    Forall (well_encoded headers) fs' ∧
    length fs' = length (kept headers rows) ∧
    length ls' = (if labelIndex is Some _ then length fs' else 0).
Proof.
  revert fs ls. induction rows as [|row rows IH]; intros fs ls.
  - exists [], []. rewrite !app_nil_r. repeat split; [constructor|].
    by destruct labelIndex.
  - cbn [foldl]. unfold row_step at 2. cbn [mbind option_bind].
    unfold kept. rewrite filter_cons. fold (kept headers rows).
    destruct (skipped headers row) eqn:Hskip.
    + rewrite decide_False by done. apply IH.
    + rewrite decide_True by done.
      destruct (featureRow_total headers row) as (fv & -> & Hfv);
        [by apply not_skipped_long|].
      cbn [mbind option_bind].
      destruct (IH (fs ++ [fv])
                   (match labelIndex with
                    | Some li => ls ++ [label_of row li]
                    | None => ls
                    end)) as (fs' & ls' & -> & Hall & Hlen & Hls).
      exists (fv :: fs'),
             (match labelIndex with
              | Some li => label_of row li :: ls'
              | None => ls'
              end).
      split; [|split; [|split]].
      * f_equal. f_equal; [by rewrite <- app_assoc|].
        destruct labelIndex; by rewrite <- ?app_assoc.
      * by constructor.
      * cbn [length]. by rewrite Hlen.
      * destruct labelIndex; cbn [length]; by rewrite ?Hls.
Qed.

End EncoderFacts.

(** ** Normalizer *)

Section NormalizerFacts.
Import Normalizer.

Lemma Qmin_choice a b : Qmin a b = a ∨ Qmin a b = b.
Proof.
  unfold Qmin, GenericMinMax.gmin. destruct (a ?= b)%Q; auto.
Qed.

Lemma Qmax_choice a b : Qmax a b = a ∨ Qmax a b = b.
Proof.
  unfold Qmax, GenericMinMax.gmax. destruct (a ?= b)%Q; auto.
Qed.

Lemma foldl_Qmin xs x :
  (foldl Qmin x xs <= x)%Q ∧
  Forall (λ y, foldl Qmin x xs <= y)%Q xs ∧
  foldl Qmin x xs ∈ x :: xs.
Proof.
  revert x. induction xs as [|y xs IH]; intros x.
  - cbn. repeat split; [apply Qle_refl|constructor|apply list_elem_of_here].
  - cbn [foldl]. destruct (IH (Qmin x y)) as (Hle & Hall & Hin).
    pose proof (Q.le_min_l x y). pose proof (Q.le_min_r x y).
    split; [|split].
    + eapply Qle_trans; eauto.
    + constructor; [eapply Qle_trans; eauto|done].
    + apply elem_of_cons in Hin as [Hin|Hin].
      * rewrite Hin.
        destruct (Qmin_choice x y) as [Heq|Heq]; rewrite Heq;
          [apply list_elem_of_here
          |apply list_elem_of_further, list_elem_of_here].
      * by do 2 apply list_elem_of_further.
Qed.

Lemma foldl_Qmax xs x :
  (x <= foldl Qmax x xs)%Q ∧
  Forall (λ y, y <= foldl Qmax x xs)%Q xs ∧
  foldl Qmax x xs ∈ x :: xs.
Proof.
  revert x. induction xs as [|y xs IH]; intros x.
  - cbn. repeat split; [apply Qle_refl|constructor|apply list_elem_of_here].
  - cbn [foldl]. destruct (IH (Qmax x y)) as (Hle & Hall & Hin).
    pose proof (Q.le_max_l x y). pose proof (Q.le_max_r x y).
    split; [|split].
    + eapply Qle_trans; eauto.
    + constructor; [eapply Qle_trans; eauto|done].
    + apply elem_of_cons in Hin as [Hin|Hin].
      * rewrite Hin.
        destruct (Qmax_choice x y) as [Heq|Heq]; rewrite Heq;
          [apply list_elem_of_here
          |apply list_elem_of_further, list_elem_of_here].
      * by do 2 apply list_elem_of_further.
Qed.

Lemma Math_min_spec col :
  col ≠ [] →
  Forall (λ y, Math_min col <= y)%Q col ∧ Math_min col ∈ col.
Proof.
  destruct col as [|x xs]; [done|]. intros _. cbn [Math_min].
  destruct (foldl_Qmin xs x) as (Hle & Hall & Hin).
  split; [by constructor|done].
Qed.

Lemma Math_max_spec col :
  col ≠ [] →
  Forall (λ y, y <= Math_max col)%Q col ∧ Math_max col ∈ col.
Proof.
  destruct col as [|x xs]; [done|]. intros _. cbn [Math_max].
  destruct (foldl_Qmax xs x) as (Hle & Hall & Hin).
  split; [by constructor|done].
Qed.




Lemma column_elem j features x :
  x ∈ column j features ↔
  ∃ i row, features !! i = Some row ∧ nth j row 0%Q = x.
Proof.
  unfold column. change (map ?f features) with (f <$> features).
  rewrite list_elem_of_fmap. split.
  - intros (row & -> & Hin). apply list_elem_of_lookup in Hin as [i Hi].
    by exists i, row.
  - intros (i & row & Hi & <-). exists row. split; [done|].
    by eapply list_elem_of_lookup_2.
Qed.

Lemma column_nonempty j features : features ≠ [] → column j features ≠ [].
Proof. by destruct features. Qed.

Lemma lookup_bounds features n j :
  (j < n)%nat →
  map (λ i, Math_min (column i features)) (seq 0 n) !! j
    = Some (Math_min (column j features)) ∧
  map (λ i, Math_max (column i features)) (seq 0 n) !! j
    = Some (Math_max (column j features)).
Proof.
  intros Hj.
  change (map ?f (seq 0 n)) with (f <$> seq 0 n).
  by rewrite !list_lookup_fmap, lookup_seq_lt.
Qed.



End NormalizerFacts.

(** ** Calibration *)

Section CalibrationFacts.
Import Random Calibration.
Local Open Scope R_scope.

Lemma pow_inverse_temperature x :
  0 < x → Rpower x (1 / temperature) = x * x * sqrt x.
Proof.
  intros Hx. unfold temperature.
  replace (1 / (4 / 10)) with (INR 2 + / 2) by (simpl; field).
  rewrite Rpower_plus, Rpower_pow, Rpower_sqrt by assumption. simpl. ring.
Qed.

Lemma scaled_above_floor p :
  1 / 1000 <= p → scaled p = p * p * sqrt p.
Proof.
  intros Hp. unfold scaled. rewrite Rmax_left by assumption.
  apply pow_inverse_temperature. lra.
Qed.

Lemma sqrt_between l u x :
  0 <= l → 0 <= u → l * l < x → x < u * u → l < sqrt x < u.
Proof.
  intros Hl Hu H1 H2. split.
  - rewrite <- (sqrt_square l Hl). apply sqrt_lt_1; nra.
  - rewrite <- (sqrt_square u Hu). apply sqrt_lt_1; nra.
Qed.

Lemma quotient_between (a s l u : R) :
  0 < s → l * s < a → a < u * s → l < a / s < u.
Proof.
  intros Hs Hl Hu.
  assert (a / s * s = a) as Heq by (field; lra).
  split; apply (Rmult_lt_reg_r s); try assumption; rewrite Heq; assumption.
Qed.

(** The three scaled values of the scenario. *)
Lemma scenario_scaled :
  let a := scaled (4 / 10) in
  let b := scaled (35 / 100) in
  let c := scaled (25 / 100) in
  1011 / 10000 < a < 1013 / 10000 ∧
  723 / 10000 < b < 726 / 10000 ∧
  306 / 10000 < c < 319 / 10000.
Proof.
  intros a b c. subst a b c.
  rewrite !scaled_above_floor by lra.
  pose proof (sqrt_between (632 / 1000) (633 / 1000) (4 / 10)) as Ha.
  pose proof (sqrt_between (591 / 1000) (592 / 1000) (35 / 100)) as Hb.
  pose proof (sqrt_between (49 / 100) (51 / 100) (25 / 100)) as Hc.
  destruct Ha as [Ha1 Ha2]; [lra..|].
  destruct Hb as [Hb1 Hb2]; [lra..|].
  destruct Hc as [Hc1 Hc2]; [lra..|].
  repeat split; nra.
Qed.

(** The decision keeps the largest of three entries that are positive,
    whatever the rotation puts first. *)
Lemma argmax_three (x y z : R) (rotation : nat) :
  0 < z → z < y → y < x →
  (argmax_from 0
     (map (λ k, nth ((k + rotation) mod 3) [x; y; z] 0) [0; 1; 2]%nat)
     (0, 0%nat)).1 = x.
Proof.
  intros Hz Hy Hx.
  assert (rotation mod 3 < 3)%nat as Hr by (apply Nat.mod_upper_bound; lia).
  cbn [map]. rewrite !(Nat.Div0.add_mod _ rotation 3).
  destruct (rotation mod 3) as [|[|[|?]]]; [| | |lia];
    cbn [Nat.add Nat.modulo Nat.divmod fst snd Nat.sub nth argmax_from];
    repeat (destruct (Rlt_dec _ _); cbn [fst snd] in *; try lra).
Qed.

Lemma predict_confidence (x y z : R) (g : source) :
  let total := 0 + scaled x + scaled y + scaled z in
  0 < scaled z → scaled z < scaled y → scaled y < scaled x →
  confidence (predict [x; y; z] g).1 = scaled x / total.
Proof.
  intros total Hz Hy Hx. unfold predict, bind, ret.
  destruct (random_below 3 g) as [rotation g'].
  cbn [map sum foldl]. fold total.
  assert (0 < total) as Htotal by (unfold total; lra).
  assert (∀ u v, u < v → u / total < v / total) as Hmono.
  { intros u v Huv. apply (Rmult_lt_reg_r total); [done|].
    unfold Rdiv. rewrite !Rmult_assoc, Rinv_l by lra. lra. }
  pose proof (argmax_three (scaled x / total) (scaled y / total)
                           (scaled z / total) rotation) as Hmax.
  destruct (argmax_from 0 _ (0, 0%nat)) as [maxProb predictedClass].
  cbn [confidence fst] in *.
  apply Hmax; [|by apply Hmono..].
  apply Rdiv_lt_0_compat; lra.
Qed.

Lemma scenario_quotient :
  let a := scaled (4 / 10) in
  let total := 0 + a + scaled (35 / 100) + scaled (25 / 100) in
  49 / 100 < a / total < 1 / 2.
Proof.
  intros a total. subst a total.
  destruct scenario_scaled as ((Ha1 & Ha2) & (Hb1 & Hb2) & (Hc1 & Hc2)).
  apply quotient_between; lra.
Qed.

Lemma scenario_order :
  0 < scaled (25 / 100) ∧ scaled (25 / 100) < scaled (35 / 100)
  ∧ scaled (35 / 100) < scaled (4 / 10).
Proof.
  destruct scenario_scaled as ((Ha1 & Ha2) & (Hb1 & Hb2) & (Hc1 & Hc2)).
  repeat split; lra.
Qed.

(** C4, as amended.  For the raw vector 0.4, 0.35, 0.25 the reported
    confidence of predict with temperature 0.4 is the scaled value of 0.4
    over the sum of the three scaled values, whatever the rotation; it lies
    strictly between 0.49 and 0.5, above the raw 0.4 but not above 0.6. *)
Theorem scenario_confidence_about_half (g : source) :
  let result := (predict scenario_probabilities g).1 in
  confidence result
  = scaled (4 / 10)
    / (0 + scaled (4 / 10) + scaled (35 / 100) + scaled (25 / 100)) ∧
  49 / 100 < confidence result < 1 / 2.
Proof.
  destruct scenario_order as (Hz & Hy & Hx).
  cbn zeta. unfold scenario_probabilities.
  rewrite (predict_confidence _ _ _ g Hz Hy Hx).
  split; [reflexivity|apply scenario_quotient].
Qed.

(** C4 as stated fails: the confidence reported for the scenario is not
    above 0.6. *)
Lemma scenario_confidence_not_above_06 :
  ¬ (confidence (predict scenario_probabilities always_half).1 > 6 / 10).
Proof.
  destruct scenario_order as (Hz & Hy & Hx).
  unfold scenario_probabilities.
  rewrite (predict_confidence _ _ _ always_half Hz Hy Hx).
  pose proof scenario_quotient as H. cbn zeta in H. lra.
Qed.

(** In the second revision, with temperature 0.8 and no rotation, the same
    scenario gives a confidence between 0.41 and 0.42. *)
Lemma fourth_root x : 0 < x → Rpower x (/ 4) = sqrt (sqrt x).
Proof.
  intros Hx. replace (/ 4) with (/ 2 * / 2) by field.
  rewrite <- Rpower_mult, (Rpower_sqrt x Hx).
  apply Rpower_sqrt, sqrt_lt_R0, Hx.
Qed.

Lemma plain_scaled p : 0 < p → PlainCalibration.scaled p = p * sqrt (sqrt p).
Proof.
  intros Hp. unfold PlainCalibration.scaled, PlainCalibration.Math_pow.
  destruct (Req_dec_T p 0) as [->|_]; [lra|].
  unfold PlainCalibration.temperature.
  replace (1 / (8 / 10)) with (1 + / 4) by field.
  by rewrite Rpower_plus, Rpower_1, fourth_root.
Qed.

Lemma fourth_root_between l u x :
  0 <= l → 0 <= u → l * l * (l * l) < x → x < u * u * (u * u) →
  l < sqrt (sqrt x) < u.
Proof.
  intros Hl Hu H1 H2.
  destruct (sqrt_between (l * l) (u * u) x) as [Hlo Hhi]; [nra..|].
  apply sqrt_between; assumption.
Qed.

Lemma plain_scenario_confidence :
  41 / 100
  < confidence (PlainCalibration.predict scenario_probabilities)
  < 42 / 100.
Proof.
  unfold PlainCalibration.predict, scenario_probabilities.
  cbn [map sum foldl]. rewrite !plain_scaled by lra.
  pose proof (fourth_root_between (795 / 1000) (796 / 1000) (4 / 10)) as Ha.
  pose proof (fourth_root_between (769 / 1000) (770 / 1000) (35 / 100)) as Hb.
  pose proof (fourth_root_between (707 / 1000) (708 / 1000) (25 / 100)) as Hc.
  destruct Ha as [Ha1 Ha2]; [lra..|].
  destruct Hb as [Hb1 Hb2]; [lra..|].
  destruct Hc as [Hc1 Hc2]; [lra..|].
  set (a := 4 / 10 * sqrt (sqrt (4 / 10))) in *.
  set (b := 35 / 100 * sqrt (sqrt (35 / 100))) in *.
  set (c := 25 / 100 * sqrt (sqrt (25 / 100))) in *.
  set (total := 0 + a + b + c).
  assert (0 < total) as Htotal by (unfold total, a, b, c; nra).
  assert (∀ u v, u < v → u / total < v / total) as Hmono.
  { intros u v Huv. apply (Rmult_lt_reg_r total); [done|].
    unfold Rdiv. rewrite !Rmult_assoc, Rinv_l by lra. lra. }
  pose proof (argmax_three (a / total) (b / total) (c / total) 0) as Hmax.
  cbn [map Nat.add Nat.modulo Nat.divmod fst snd Nat.sub nth] in Hmax.
  destruct (argmax_from 0 _ (0, 0%nat)) as [maxProb predictedClass].
  cbn [confidence fst] in *. rewrite Hmax.
  - apply quotient_between; [done|unfold total, a, b, c; nra..].
  - apply Rdiv_lt_0_compat; [unfold c; nra|done].
  - apply Hmono. unfold b, c. nra.
  - apply Hmono. unfold a, b. nra.
Qed.

End CalibrationFacts.

(** ** Lines and white space *)

Section LinesFacts.
Import Text Parser.

Lemma split_lines_nonempty s : split_lines s ≠ [].
Proof.
  destruct s as [|c s]; cbn [split_lines]; [done|].
  destruct (eqc c LF); [done|].
  destruct s as [|c' s]; [done|].
  destruct (eqc c CR && eqc c' LF); [done|].
  unfold push_front. by destruct (split_lines _).
Qed.

Lemma glue_cons x l k : l ≠ [] → glue (x :: l) k = x :: glue l k.
Proof. by destruct l. Qed.

Lemma push_front_glue c l k :
  l ≠ [] → push_front c (glue l k) = glue (push_front c l) k.
Proof.
  destruct l as [|x [|y l]]; [done| |]; intros _; cbn; [|done].
  by destruct k.
Qed.

Lemma glue_one_line l y :
  l ≠ [] → glue l [y] = map_last (λ x, x ++ y) l.
Proof.
  induction l as [|x l IH]; [done|]. intros _.
  destruct l as [|x' l]; [done|].
  rewrite glue_cons by done. rewrite IH by done. done.
Qed.

Lemma clean_cut_tail c t u : clean_cut (c :: t) u → clean_cut t u.
Proof. intros H t' u' -> ->. by apply (H (c :: t') u'). Qed.

(** Splitting into lines goes through a cut that does not fall inside a
    line break. *)
Lemma split_lines_glue_bounded n t u :
  length t ≤ n → clean_cut t u →
  split_lines (t ++ u) = glue (split_lines t) (split_lines u).
Proof.
  revert t. induction n as [|n IH]; intros t Hn Hcut.
  { destruct t; [|cbn in Hn; lia]. cbn.
    pose proof (split_lines_nonempty u). by destruct (split_lines u). }
  destruct t as [|c t].
  { cbn. pose proof (split_lines_nonempty u). by destruct (split_lines u). }
  cbn [length] in Hn.
  pose proof (clean_cut_tail _ _ _ Hcut) as Hcut'.
  cbn [app split_lines]. destruct (eqc c LF) eqn:HLF.
  { rewrite IH by (done || lia).
    rewrite glue_cons by apply split_lines_nonempty. done. }
  destruct t as [|c' t].
  - cbn [app]. destruct u as [|c' u]; [done|].
    destruct (eqc c CR && eqc c' LF) eqn:Hbreak.
    { apply andb_true_iff in Hbreak as [H1 H2].
      apply eqc_true in H1 as ->. apply eqc_true in H2 as ->.
      destruct (Hcut [] u); done. }
    pose proof (split_lines_nonempty (c' :: u)).
    by destruct (split_lines (c' :: u)).
  - cbn [app]. destruct (eqc c CR && eqc c' LF).
    + rewrite IH; [|cbn [length] in Hn; lia|].
      * rewrite glue_cons by apply split_lines_nonempty. done.
      * by apply clean_cut_tail in Hcut'.
    + change (c' :: t ++ u) with ((c' :: t) ++ u).
      rewrite IH by (done || lia).
      apply push_front_glue, split_lines_nonempty.
Qed.

Lemma split_lines_glue t u :
  clean_cut t u → split_lines (t ++ u) = glue (split_lines t) (split_lines u).
Proof. by apply (split_lines_glue_bounded (length t)). Qed.

(** A line is blank exactly when all its characters are white space. *)
Lemma trimStart_blank s : blank s → trimStart s = [].
Proof.
  induction 1 as [|c s Hc _ IH]; [done|]. cbn [trimStart]. by rewrite Hc.
Qed.

Lemma trimStart_nil s : trimStart s = [] → blank s.
Proof.
  induction s as [|c s IH]; [constructor|]. cbn [trimStart].
  destruct (is_space c) eqn:Hc; [|done]. intros H.
  constructor; [exact Hc|exact (IH H)].
Qed.

Lemma trimStart_app_blank ws s : blank ws → trimStart (ws ++ s) = trimStart s.
Proof.
  induction 1 as [|c ws Hc _ IH]; [done|]. cbn [app trimStart]. by rewrite Hc.
Qed.

Lemma trimStart_head c s : is_space c = false → trimStart (c :: s) = c :: s.
Proof. intros Hc. cbn [trimStart]. by rewrite Hc. Qed.

Lemma blank_rev s : blank s → blank (rev s).
Proof. apply Forall_rev. Qed.

Lemma trimEnd_app_blank s ws : blank ws → trimEnd (s ++ ws) = trimEnd s.
Proof.
  intros Hws. unfold trimEnd. rewrite rev_app_distr.
  by rewrite trimStart_app_blank by by apply blank_rev.
Qed.

Lemma trimEnd_last s c : is_space c = false → trimEnd (s ++ [c]) = s ++ [c].
Proof.
  intros Hc. unfold trimEnd. rewrite rev_app_distr. cbn [rev app].
  rewrite trimStart_head by done. cbn [rev]. by rewrite rev_involutive.
Qed.

Lemma rev_nil {X} (l : list X) : rev l = [] → l = [].
Proof.
  intros H. apply (f_equal (@length X)) in H.
  rewrite length_rev in H. by destruct l.
Qed.

Lemma trim_nil_blank s : trim s = [] ↔ blank s.
Proof.
  unfold trim, trimEnd. split.
  - intros H. apply trimStart_nil.
    apply rev_nil, trimStart_nil, blank_rev in H.
    rewrite rev_involutive in H.
    destruct (trimStart s) as [|c s'] eqn:Hs; [done|].
    exfalso. inversion H as [|? ? Hc _]; subst.
    destruct s as [|c0 s]; [done|]. clear H.
    revert c0 Hs. induction s as [|c1 s IH]; intros c0 Hs;
      cbn [trimStart] in Hs; destruct (is_space c0) eqn:Hc0.
    + done.
    + injection Hs as -> _. congruence.
    + by apply (IH c1).
    + injection Hs as -> _. congruence.
  - intros H. by rewrite (trimStart_blank s H).
Qed.

Lemma not_blank_false s : not_blank s = false ↔ blank s.
Proof.
  unfold not_blank. rewrite negb_false_iff, bool_decide_eq_true.
  rewrite <- trim_nil_blank. by destruct (trim s).
Qed.

Lemma not_blank_true s : not_blank s = true ↔ ¬ blank s.
Proof.
  rewrite <- not_blank_false. by destruct (not_blank s).
Qed.

Lemma not_blank_app_l ws s : blank ws → not_blank (ws ++ s) = not_blank s.
Proof.
  intros Hws. destruct (not_blank s) eqn:Hs.
  - apply not_blank_true. apply not_blank_true in Hs.
    intros H. apply Hs. by apply Forall_app in H as [_ H].
  - apply not_blank_false. apply not_blank_false in Hs. by apply Forall_app.
Qed.

Lemma not_blank_app_r s ws : blank ws → not_blank (s ++ ws) = not_blank s.
Proof.
  intros Hws. destruct (not_blank s) eqn:Hs.
  - apply not_blank_true. apply not_blank_true in Hs.
    intros H. apply Hs. by apply Forall_app in H as [H _].
  - apply not_blank_false. apply not_blank_false in Hs. by apply Forall_app.
Qed.

Lemma LF_is_space : is_space LF = true.
Proof. reflexivity. Qed.

Lemma CR_is_space : is_space CR = true.
Proof. reflexivity. Qed.

Lemma push_front_Forall (P : ascii → Prop) c l :
  P c → Forall (Forall P) l → Forall (Forall P) (push_front c l).
Proof.
  intros Hc Hl. destruct Hl as [|x l Hx Hl]; cbn.
  - by repeat constructor.
  - constructor; [by constructor|done].
Qed.

(** The lines of a text only hold characters of the text. *)
Lemma split_lines_Forall_bounded (P : ascii → Prop) n s :
  length s ≤ n → Forall P s → Forall (Forall P) (split_lines s).
Proof.
  revert s. induction n as [|n IH]; intros s Hn Hs.
  { destruct s; [|cbn in Hn; lia]. by repeat constructor. }
  destruct Hs as [|c s Hc Hs]; [by repeat constructor|].
  cbn [length] in Hn. cbn [split_lines].
  destruct (eqc c LF).
  { constructor; [constructor|]. apply IH; [lia|done]. }
  destruct Hs as [|c' s Hc' Hs]; [by repeat constructor|].
  cbn [length] in Hn. destruct (eqc c CR && eqc c' LF).
  - constructor; [constructor|]. apply IH; [lia|done].
  - apply push_front_Forall; [done|].
    apply IH; [cbn [length]; lia|by constructor].
Qed.

Lemma blank_lines ws : blank ws → Forall blank (split_lines ws).
Proof. by apply (split_lines_Forall_bounded _ (length ws)). Qed.

Lemma filter_blank_lines W : Forall blank W → List.filter not_blank W = [].
Proof.
  induction 1 as [|x W Hx _ IH]; [done|]. cbn [List.filter].
  by rewrite (proj2 (not_blank_false x) Hx).
Qed.

Lemma split_lines_head c t :
  is_space c = false → ∃ f r, split_lines (c :: t) = (c :: f) :: r.
Proof.
  intros Hc. cbn [split_lines].
  assert (eqc c LF = false) as ->.
  { apply eqc_false. intros ->. by rewrite LF_is_space in Hc. }
  destruct t as [|c' t]; [by eexists _, _|].
  assert (eqc c CR = false) as ->.
  { apply eqc_false. intros ->. by rewrite CR_is_space in Hc. }
  cbn [andb]. pose proof (split_lines_nonempty (c' :: t)).
  destruct (split_lines (c' :: t)); [done|]. by eexists _, _.
Qed.

Lemma not_blank_head c f : is_space c = false → not_blank (c :: f) = true.
Proof.
  intros Hc. apply not_blank_true. intros H.
  inversion H; subst. congruence.
Qed.

Lemma not_blank_last f c : is_space c = false → not_blank (f ++ [c]) = true.
Proof.
  intros Hc. apply not_blank_true. intros H.
  apply Forall_app in H as [_ H]. inversion H; subst. congruence.
Qed.

(** White space in front of a text: its blank lines vanish and the rest of
    it is added in front of the first line. *)
Lemma filter_glue_prefix W f r :
  W ≠ [] → Forall blank W → not_blank f = true →
  ∃ wl, blank wl ∧
        List.filter not_blank (glue W (f :: r))
        = (wl ++ f) :: List.filter not_blank r.
Proof.
  intros Hne HW Hf. induction HW as [|x W Hx HW IH]; [done|].
  destruct W as [|y W].
  - exists x. split; [done|]. cbn [glue List.filter].
    by rewrite (not_blank_app_l x f Hx), Hf.
  - rewrite glue_cons by done. cbn [List.filter].
    rewrite (proj2 (not_blank_false x) Hx). by apply IH.
Qed.

Lemma nonblank_lines_prefix ws c t :
  blank ws → is_space c = false →
  ∃ wl, blank wl ∧
        nonblank_lines (ws ++ c :: t)
        = map_first (app wl) (nonblank_lines (c :: t)).
Proof.
  intros Hws Hc. unfold nonblank_lines.
  rewrite split_lines_glue.
  2:{ intros t' u' _ [= -> _]. by rewrite LF_is_space in Hc. }
  destruct (split_lines_head c t Hc) as (f & r & ->).
  destruct (filter_glue_prefix (split_lines ws) (c :: f) r)
    as (wl & Hwl & ->);
    [apply split_lines_nonempty|by apply blank_lines
    |by apply not_blank_head|].
  exists wl. split; [done|]. cbn [List.filter].
  by rewrite (not_blank_head c f Hc).
Qed.

Lemma map_last_cons {X} (f : X → X) x l :
  l ≠ [] → map_last f (x :: l) = x :: map_last f l.
Proof. by destruct l. Qed.

Lemma map_last_snoc {X} (f : X → X) l x :
  map_last f (l ++ [x]) = l ++ [f x].
Proof.
  induction l as [|y l IH]; [done|]. cbn [app].
  rewrite map_last_cons by by destruct l. by rewrite IH.
Qed.

Lemma map_last_length {X} (f : X → X) l : length (map_last f l) = length l.
Proof.
  induction l as [|x [|y l] IH]; [done..|].
  rewrite map_last_cons by done. cbn [length] in *. by rewrite IH.
Qed.

(** White space after a text that ends in a visible character: it is
    added to the last line and opens no line that counts. *)
Lemma filter_glue_suffix init l b brest :
  not_blank l = true → Forall blank (b :: brest) →
  List.filter not_blank (glue (init ++ [l]) (b :: brest))
  = map_last (λ x, x ++ b) (List.filter not_blank (init ++ [l])).
Proof.
  intros Hl HK. inversion HK as [|? ? Hb Hbrest]; subst.
  induction init as [|x init IH].
  - cbn [app glue List.filter].
    rewrite (not_blank_app_r l b Hb), Hl.
    by rewrite (filter_blank_lines brest Hbrest).
  - change ((x :: init) ++ [l]) with (x :: (init ++ [l])).
    rewrite glue_cons by by destruct init.
    cbn [List.filter]. rewrite IH.
    destruct (not_blank x); [|done].
    rewrite map_last_cons; [done|].
    rewrite List.filter_app. cbn [List.filter]. rewrite Hl.
    by destruct (List.filter not_blank init).
Qed.

Lemma nonblank_lines_suffix t c ws :
  blank ws → is_space c = false →
  ∃ wr, blank wr ∧
        nonblank_lines ((t ++ [c]) ++ ws)
        = map_last (λ l, l ++ wr) (nonblank_lines (t ++ [c])).
Proof.
  intros Hws Hc. unfold nonblank_lines.
  rewrite (split_lines_glue (t ++ [c]) ws).
  2:{ intros t' u' Heq _. apply app_inj_tail in Heq as [_ ->].
      by rewrite CR_is_space in Hc. }
  rewrite (split_lines_glue t [c]).
  2:{ intros t' u' _ [= -> _]. by rewrite LF_is_space in Hc. }
  assert (split_lines [c] = [[c]]) as ->.
  { cbn [split_lines]. destruct (eqc c LF) eqn:HLF; [|done].
    apply eqc_true in HLF as ->. by rewrite LF_is_space in Hc. }
  rewrite glue_one_line by apply split_lines_nonempty.
  pose proof (split_lines_nonempty t) as HTne.
  destruct (split_lines t) as [|x T _] using rev_ind; [done|].
  rewrite map_last_snoc.
  pose proof (blank_lines ws Hws) as HK.
  pose proof (split_lines_nonempty ws) as HKne.
  destruct (split_lines ws) as [|b brest]; [done|].
  exists b. split; [by inversion HK|].
  apply filter_glue_suffix; [by apply not_blank_last|done].
Qed.

End LinesFacts.

Section ParserFacts.
Import Text Parser.

Lemma trimStart_split s : ∃ ws, blank ws ∧ s = ws ++ trimStart s.
Proof.
  induction s as [|c s (ws & Hws & IH)];
    [exists []; split; [constructor|done]|].
  cbn [trimStart]. destruct (is_space c) eqn:Hc.
  - exists (c :: ws). split; [by constructor|]. cbn [app]. by rewrite <- IH.
  - exists []. split; [constructor|done].
Qed.

Lemma trimStart_shape s :
  trimStart s = [] ∨ ∃ c r, trimStart s = c :: r ∧ is_space c = false.
Proof.
  induction s as [|c s IH]; [by left|]. cbn [trimStart].
  destruct (is_space c) eqn:Hc; [done|]. right. by eexists _, _.
Qed.

Lemma trimEnd_split s : ∃ ws, blank ws ∧ s = trimEnd s ++ ws.
Proof.
  destruct (trimStart_split (rev s)) as (ws & Hws & Heq).
  exists (rev ws). split; [by apply blank_rev|].
  unfold trimEnd. rewrite <- rev_app_distr, <- Heq.
  by rewrite rev_involutive.
Qed.

Lemma trimEnd_shape s :
  trimEnd s = [] ∨ ∃ r c, trimEnd s = r ++ [c] ∧ is_space c = false.
Proof.
  unfold trimEnd.
  destruct (trimStart_shape (rev s)) as [->|(c & r & -> & Hc)]; [by left|].
  right. exists (rev r), c. by split.
Qed.

Lemma nonblank_lines_trim content :
  ∃ wl wr, blank wl ∧ blank wr ∧
    nonblank_lines content
    = map_first (app wl)
        (map_last (λ l, l ++ wr) (nonblank_lines (trim content))).
Proof.
  destruct (trimStart_split content) as (ws1 & Hws1 & Hcontent).
  unfold trim.
  destruct (trimStart_shape content) as [Hnil|(c & r & Hcr & Hc)].
  - rewrite Hnil in *. rewrite app_nil_r in Hcontent. subst ws1.
    exists [], []. repeat split; try constructor.
    unfold nonblank_lines at 1.
    by rewrite (filter_blank_lines _ (blank_lines _ Hws1)).
  - rewrite Hcr in *.
    destruct (trimEnd_split (c :: r)) as (ws2 & Hws2 & Hcore).
    destruct (trimEnd_shape (c :: r)) as [Hnil|(r' & c' & Hshape & Hc')].
    { rewrite Hnil in Hcore. cbn [app] in Hcore. subst ws2.
      inversion Hws2; subst. congruence. }
    destruct (nonblank_lines_prefix ws1 c r Hws1 Hc) as (wl & Hwl & Hpre).
    destruct (nonblank_lines_suffix r' c' ws2 Hws2 Hc') as (wr & Hwr & Hsuf).
    exists wl, wr. repeat split; [done..|].
    rewrite Hcontent, Hpre. f_equal.
    rewrite Hshape, <- Hsuf, <- Hshape, <- Hcore. done.
Qed.

Lemma comma_not_space : is_space comma = false.
Proof. reflexivity. Qed.

Lemma trim_cons_space c s : is_space c = true → trim (c :: s) = trim s.
Proof. intros Hc. unfold trim. cbn [trimStart]. by rewrite Hc. Qed.

Lemma split_nonempty sep s : split sep s ≠ [].
Proof.
  destruct s as [|c s]; cbn [split]; [done|].
  destruct (eqc c sep); [done|].
  unfold push_front. by destruct (split sep s).
Qed.

(** White space in front of the header line belongs to its first field,
    where [trim] removes it. *)
Lemma split_blank_prefix wl l :
  blank wl →
  map trim (split comma (wl ++ l)) = map trim (split comma l).
Proof.
  induction 1 as [|c wl Hc _ IH]; [done|].
  cbn [app split].
  assert (eqc c comma = false) as ->.
  { apply eqc_false. intros ->. by rewrite comma_not_space in Hc. }
  rewrite <- IH. pose proof (split_nonempty comma (wl ++ l)).
  destruct (split comma (wl ++ l)) as [|f o]; [done|].
  cbn [push_front map]. by rewrite trim_cons_space.
Qed.

(** C8.  parseCSV raises, with its one error, exactly when the text has
    fewer than two lines that are not blank, and otherwise returns.  The
    headers are the trimmed fields of the first such line, and there is one
    row for each other such line, in order: the parse of that line, the last
    one being read without the white space that ends the text. *)
Theorem parseCSV_needs_two_lines (content : str) :
  let lines := nonblank_lines content in
  (parseCSV content = inl csv_error ↔ length lines < 2) ∧
  ((∃ parsed, parseCSV content = inr parsed) ↔ 2 ≤ length lines) ∧
  ∀ parsed, parseCSV content = inr parsed →
    headers parsed = map trim (split comma (hd [] lines)) ∧
    length (rows parsed) = length lines - 1 ∧
    ∃ wr data,
      blank wr ∧
      tail lines = map_last (λ l, l ++ wr) data ∧
      rows parsed = map parse_line data.
Proof.
  intros lines. subst lines.
  destruct (nonblank_lines_trim content) as (wl & wr & Hwl & Hwr & Hraw).
  assert (length (nonblank_lines content)
          = length (nonblank_lines (trim content))) as Hlen.
  { rewrite Hraw.
    destruct (map_last _ (nonblank_lines (trim content))) eqn:Hm.
    - apply (f_equal length) in Hm. by rewrite map_last_length in Hm.
    - apply (f_equal length) in Hm. by rewrite map_last_length in Hm. }
  unfold parseCSV. fold (nonblank_lines (trim content)).
  destruct (nonblank_lines (trim content)) as [|l1 [|l2 rest]] eqn:Htrim;
    rewrite Hlen; cbn [length].
  - split; [split; [lia|done]|]. split; [|done].
    split; [by intros [? ?]|lia].
  - split; [split; [lia|done]|]. split; [|done].
    split; [by intros [? ?]|lia].
  - split; [split; [done|lia]|]. split; [split; [lia|by eexists]|].
    intros parsed [= <-]. cbn [headers rows].
    rewrite map_last_cons in Hraw by done. cbn [map_first] in Hraw.
    rewrite Hraw. cbn [hd tail].
    split; [by rewrite split_blank_prefix|].
    split; [cbn [map length]; rewrite ?length_map, ?map_last_length; lia|].
    exists wr, (l2 :: rest). by repeat split.
Qed.

End ParserFacts.

(** ** Quoted fields *)

Section QuotedFacts.
Import Text Parser.

Lemma unescape_escape s : unescape (escape s) = s.
Proof.
  induction s as [|c s IH]; [done|].
  cbn [escape]. destruct (eqc c dquote) eqn:E.
  - apply eqc_true in E as ->. cbn. by rewrite IH.
  - cbn [unescape]. destruct (escape s) as [|c' r] eqn:Es.
    + destruct s as [|c2 s]; [done|]. cbn in Es. by destruct (eqc c2 dquote).
    + rewrite E. cbn [andb]. by rewrite IH.
Qed.

Lemma quoted_escape s rest :
  closes rest →
  quoted (escape s ++ dquote :: rest) = Some (escape s ++ [dquote]).
Proof.
  intros Hr. induction s as [|c s IH].
  - cbn. destruct Hr as [->|[r ->]]; done.
  - cbn [escape]. destruct (eqc c dquote) eqn:E.
    + apply eqc_true in E as ->. cbn [app quoted].
      change (eqc dquote dquote) with true. cbn iota. by rewrite IH.
    + cbn [app quoted]. rewrite E, IH. done.
Qed.

Lemma matchAll_quote s rest :
  closes rest →
  matchAll 0 (quote s ++ rest) = quote s :: matchAll 0 rest.
Proof.
  intros Hr. unfold quote. cbn [app matchAll match_here].
  change (eqc dquote dquote) with true. cbn iota.
  rewrite <- app_assoc. cbn [app].
  rewrite (quoted_escape s rest Hr).
  f_equal. rewrite matchAll_skip. f_equal.
  cbn [length]. rewrite Nat.sub_succ, Nat.sub_0_r.
  rewrite length_app. cbn [length].
  replace (escape s ++ dquote :: rest) with ((escape s ++ [dquote]) ++ rest)
    by (by rewrite <- app_assoc).
  rewrite drop_app_length'; [done|]. by rewrite length_app.
Qed.

Lemma matchAll_comma rest : matchAll 0 (comma :: rest) = matchAll 0 rest.
Proof. reflexivity. Qed.

Lemma cell_of_quote s : cell_of_match (quote s) = trim s.
Proof.
  unfold cell_of_match, quote.
  assert (startsWith dquote (dquote :: escape s ++ [dquote]) = true) as ->
    by done.
  assert (endsWith dquote (dquote :: escape s ++ [dquote]) = true) as ->.
  { unfold endsWith. change (dquote :: escape s ++ [dquote])
      with ((dquote :: escape s) ++ [dquote]).
    by rewrite rev_app_distr. }
  cbn [andb]. unfold slice_1_m1. cbn [tail].
  by rewrite removelast_last, unescape_escape.
Qed.

(** X1.  A line whose fields are all written between double quotes, with the
    double quotes of a field doubled, parses back to the fields, each
    trimmed: a comma inside a field does not split it, and an empty quoted
    field is kept as an empty cell. *)
Theorem parse_line_quoted_fields (cells : list str) :
  parse_line (join comma (map quote cells)) = map trim cells.
Proof.
  unfold parse_line.
  induction cells as [|c cells IH]; [done|].
  destruct cells as [|c' cells].
  - cbn [map join]. rewrite <- (app_nil_r (quote c)) at 1.
    rewrite matchAll_quote by (by left). cbn [matchAll map].
    by rewrite cell_of_quote.
  - change (join comma (map quote (c :: c' :: cells)))
      with (quote c ++ comma :: join comma (map quote (c' :: cells))).
    rewrite matchAll_quote by (right; eauto).
    rewrite matchAll_comma. cbn [map] in *. rewrite IH.
    by rewrite cell_of_quote.
Qed.

End QuotedFacts.

(** ** Feature encoder: labels and rows *)

Section EncoderMore.
Import Text Encoder.

(** The loop over the rows, from any state of the two arrays: the kept rows
    are encoded one by one, in order. *)
Lemma rows_loop_exact headers labelIndex rows fs ls :
  ∃ fvs,
    foldl (row_step headers (map (column_index headers) featureColumns)
                    labelIndex)
          (Some (fs, ls)) rows
    = Some (fs ++ fvs,
            ls ++ match labelIndex with
                  | Some li => map (λ row, label_of row li) (kept headers rows)
                  | None => []
                  end) ∧
    Forall2 (λ row fv,
               featureRow (map (column_index headers) featureColumns) row
               = Some fv)
            (kept headers rows) fvs.
Proof.
  revert fs ls. induction rows as [|row rows IH]; intros fs ls.
  - exists []. rewrite app_nil_r. split; [|constructor].
    cbn. destruct labelIndex; by rewrite app_nil_r.
  - cbn [foldl]. unfold row_step at 2. cbn [mbind option_bind].
    unfold kept. rewrite filter_cons. fold (kept headers rows).
    destruct (skipped headers row) eqn:Hskip.
    + rewrite decide_False by done. apply IH.
    + rewrite decide_True by done.
      destruct (featureRow_total headers row) as (fv & Hfv & _);
        [by apply not_skipped_long|].
      rewrite Hfv. cbn [mbind option_bind].
      destruct (IH (fs ++ [fv])
                   (match labelIndex with
                    | Some li => ls ++ [label_of row li]
                    | None => ls
                    end)) as (fvs & -> & Hall).
      exists (fv :: fvs). split; [|by constructor].
      f_equal. f_equal; [by rewrite <- app_assoc|].
      destruct labelIndex; [|done].
      by rewrite <- app_assoc.
Qed.

Lemma encoder_diseaseMap_range k a : diseaseMap !! k = Some a → a < 3.
Proof.
  intros H. apply elem_of_list_to_map_2 in H.
  repeat (apply elem_of_cons in H as [[= _ <-]|H]; [lia|]).
  by apply elem_of_nil in H.
Qed.

Lemma lower_idempotent c : lower (lower c) = lower c.
Proof. by destruct c as [[] [] [] [] [] [] [] []]. Qed.

Lemma toLowerCase_idempotent s : toLowerCase (toLowerCase s) = toLowerCase s.
Proof.
  unfold toLowerCase. rewrite List.map_map.
  apply map_ext. intros c. apply lower_idempotent.
Qed.

(** Of the inherited names only two are in lower case. *)
Lemma inherited_lower_case s :
  toLowerCase s ∈ Dict.inherited_names → toLowerCase s ∈ lowercase_members.
Proof.
  intros H. pose proof (toLowerCase_idempotent s) as Hid.
  unfold Dict.inherited_names, strs in H. cbn [map] in H.
  repeat (apply elem_of_cons in H as [H|H];
          [rewrite H in Hid |- *;
           first [ discriminate Hid
                 | by repeat first [apply list_elem_of_here
                                   | apply list_elem_of_further] ]|]).
  by apply elem_of_nil in H.
Qed.

Lemma inherited_not_own s :
  s ∈ Dict.inherited_names → diseaseMap !! s = None.
Proof.
  intros H. unfold Dict.inherited_names, strs in H. cbn [map] in H.
  repeat (apply elem_of_cons in H as [->|H]; [reflexivity|]).
  by apply elem_of_nil in H.
Qed.

(** A label is one of the three class indices, or one of the two members
    that a lower-case name can reach. *)
Lemma label_of_cases row li :
  (∃ i, label_of row li = Index i ∧ i < 3) ∨
  (∃ name, label_of row li = Member name ∧ name ∈ lowercase_members).
Proof.
  unfold label_of, Dict.get.
  destruct (diseaseMap !! _) as [a|] eqn:Ha.
  { left. exists a. split; [done|]. by apply encoder_diseaseMap_range in Ha. }
  destruct (bool_decide _) eqn:E; [|left; exists 0; split; [done|lia]].
  apply bool_decide_eq_true in E. right. eexists. split; [done|].
  destruct (row !! li) as [cell|]; cbn [from_option] in *.
  - by apply inherited_lower_case.
  - exfalso. unfold Dict.inherited_names, strs in E. cbn [map] in E.
    repeat (apply elem_of_cons in E as [E|E]; [discriminate|]).
    by apply elem_of_nil in E.
Qed.

Lemma foldl_pointwise {X Y} (f f' : X → Y → X) x l :
  (∀ x y, f x y = f' x y) → foldl f x l = foldl f' x l.
Proof.
  intros H. revert x. induction l as [|y l IH]; intros x; [done|].
  cbn. by rewrite H, IH.
Qed.

(** The index of a column depends on the lower-cased headers only. *)
Lemma column_index_lower headers col :
  column_index headers col
  = findIndex (λ h, eqs h (toLowerCase col)) (map toLowerCase headers).
Proof.
  unfold column_index.
  induction headers as [|h headers IH]; [done|].
  cbn [map findIndex]. by rewrite IH.
Qed.

Lemma skipped_length headers headers' row :
  length headers' = length headers →
  skipped headers' row = skipped headers row.
Proof. unfold skipped. by intros ->. Qed.

(** X2.  The headers are matched without regard to case: two header rows
    that agree once lower-cased give the same training data on the same
    rows. *)
Theorem convertToTrainingData_ignores_header_case
    (headers headers' : list str) (rows : list (list str)) :
  map toLowerCase headers' = map toLowerCase headers →
  convertToTrainingData headers' rows = convertToTrainingData headers rows.
Proof.
  intros Hlow. unfold convertToTrainingData.
  assert (∀ col, column_index headers' col = column_index headers col) as Hci.
  { intros col. by rewrite !column_index_lower, Hlow. }
  assert (length headers' = length headers) as Hlen.
  { by rewrite <- (length_map toLowerCase headers'), Hlow, length_map. }
  rewrite (Hci labelColumn).
  replace (map (column_index headers') featureColumns)
    with (map (column_index headers) featureColumns)
    by (apply map_ext; intros; by rewrite Hci).
  rewrite (foldl_pointwise
             (row_step headers' (map (column_index headers) featureColumns)
                       (column_index headers labelColumn))
             (row_step headers (map (column_index headers) featureColumns)
                       (column_index headers labelColumn))); [done|].
  intros acc row. unfold row_step.
  by rewrite (skipped_length headers headers' row Hlen).
Qed.

Lemma Forall2_functional {X Y} (f : X → option Y) l k1 k2 :
  Forall2 (λ x y, f x = Some y) l k1 →
  Forall2 (λ x y, f x = Some y) l k2 → k1 = k2.
Proof.
  intros H1. revert k2. induction H1 as [|x y l k1 Hxy _ IH]; intros k2 H2.
  - by inversion H2.
  - inversion H2 as [|? y' ? k2' Hxy' H2']; subst.
    f_equal; [congruence|by apply IH].
Qed.

Lemma kept_app headers r1 r2 :
  kept headers (r1 ++ r2) = kept headers r1 ++ kept headers r2.
Proof. unfold kept. by rewrite filter_app. Qed.

Lemma diseaseMap_unknown s :
  s ∉ known_diagnoses → diseaseMap !! s = None.
Proof.
  intros Hs. apply not_elem_of_list_to_map_1. cbn.
  intros H. apply Hs. unfold known_diagnoses. cbn.
  exact H.
Qed.

(** X3.  With a diagnosis column the labels are those of the kept rows, in
    order, one each, read under the lower-cased diagnosis cell.  The three
    class names give 0, 1 and 2.  A cell that names a member that every
    object inherits gives that member, which is not a number; in lower case
    these are constructor and __proto__ only.  Any other cell gives class
    0, the class of dengue, so an unknown diagnosis cannot be told from
    dengue. *)
Theorem convertToTrainingData_labels
    (headers : list str) (rows : list (list str)) (li : nat) :
  column_index headers labelColumn = Some li →
  ∃ td, convertToTrainingData headers rows = Some td ∧
        labels td = map (λ row, label_of row li) (kept headers rows) ∧
        Forall (λ l, (∃ i, l = Index i ∧ i < 3) ∨
                     (∃ name, l = Member name ∧ name ∈ lowercase_members))
               (labels td) ∧
        ∀ k row cell,
          kept headers rows !! k = Some row → row !! li = Some cell →
          (toLowerCase cell = list_ascii_of_string "dengue"
             → labels td !! k = Some (Index 0)) ∧
          (toLowerCase cell = list_ascii_of_string "malaria"
             → labels td !! k = Some (Index 1)) ∧
          (toLowerCase cell = list_ascii_of_string "leptospirosis"
             → labels td !! k = Some (Index 2)) ∧
          (toLowerCase cell ∈ Dict.inherited_names
             → labels td !! k = Some (Member (toLowerCase cell))) ∧
          (toLowerCase cell ∉ known_diagnoses →
           toLowerCase cell ∉ Dict.inherited_names →
           labels td !! k = Some (Index 0)).
Proof.
  intros Hli. unfold convertToTrainingData. rewrite Hli.
  destruct (rows_loop_exact headers (Some li) rows [] [])
    as (fvs & -> & _).
  cbn [mbind option_bind app]. eexists. split; [reflexivity|].
  cbn [labels]. split; [done|]. split.
  { apply List.Forall_map, Forall_true. intros row. apply label_of_cases. }
  intros k row cell Hk Hcell.
  change (map ?f (kept headers rows)) with (f <$> kept headers rows).
  rewrite list_lookup_fmap, Hk. cbn [fmap option_fmap option_map].
  unfold label_of. rewrite Hcell. cbn [from_option].
  split; [by intros ->|]. split; [by intros ->|]. split; [by intros ->|].
  unfold Dict.get. split.
  - intros Hin. rewrite (inherited_not_own _ Hin).
    by rewrite bool_decide_eq_true_2.
  - intros Hun Hnot. rewrite (diseaseMap_unknown _ Hun).
    by rewrite bool_decide_eq_false_2.
Qed.

(** X4.  The encoder works row by row: the training data of two lists of
    rows put one after the other are the feature vectors, and the labels,
    of the first list followed by those of the second, and the row counts
    add up. *)
Theorem convertToTrainingData_app
    (headers : list str) (rows1 rows2 : list (list str)) :
  ∃ td1 td2 td,
    convertToTrainingData headers rows1 = Some td1 ∧
    convertToTrainingData headers rows2 = Some td2 ∧
    convertToTrainingData headers (rows1 ++ rows2) = Some td ∧
    features td = features td1 ++ features td2 ∧
    labels td = labels td1 ++ labels td2 ∧
    rowCount td = rowCount td1 + rowCount td2 ∧
    hasLabels td = hasLabels td1 ∧ hasLabels td = hasLabels td2.
Proof.
  unfold convertToTrainingData.
  set (li := column_index headers labelColumn).
  destruct (rows_loop_exact headers li rows1 [] []) as (f1 & E1 & H1).
  destruct (rows_loop_exact headers li rows2 [] []) as (f2 & E2 & H2).
  destruct (rows_loop_exact headers li (rows1 ++ rows2) [] [])
    as (f & E & H).
  rewrite E1, E2, E. cbn [mbind option_bind app].
  do 3 eexists. do 3 (split; [reflexivity|]).
  cbn [features labels rowCount hasLabels].
  rewrite kept_app in H.
  assert (f = f1 ++ f2) as ->.
  { eapply Forall2_functional; [exact H|]. by apply Forall2_app. }
  repeat split; [|by rewrite length_app].
  rewrite kept_app. destruct li; [|done]. by rewrite map_app.
Qed.

Lemma featureRow_entry headers row fv j col :
  featureColumns !! j = Some col →
  featureRow (map (column_index headers) featureColumns) row = Some fv →
  ∃ v, fv !! j = Some v ∧
       encode_cell row col (column_index headers col) = Some v.
Proof.
  intros Hcol Hfv. unfold featureRow in Hfv. rewrite zip_with_map in Hfv.
  apply mapM_Some_1 in Hfv.
  assert (map (λ x, (x, column_index headers x)) featureColumns !! j
          = Some (col, column_index headers col)) as Hj.
  { change (map ?f featureColumns) with (f <$> featureColumns).
    by rewrite list_lookup_fmap, Hcol. }
  destruct (Forall2_lookup_l _ _ _ _ _ Hfv Hj) as (v & Hv & Henc).
  by exists v.
Qed.

Lemma bit_binary b : binary (Some (bit b)).
Proof. destruct b; [by right|by left]. Qed.

(** X5.  Whatever the file holds, the encoder returns, and the entries for
    gender and for residence (positions 1 and 2 of the schema) of every
    feature vector are 0 or 1. *)
Theorem gender_and_residence_are_binary
    (headers : list str) (rows : list (list str)) :
  ∃ td, convertToTrainingData headers rows = Some td ∧
        Forall (λ fv, binary (fv !! 1) ∧ binary (fv !! 2)) (features td).
Proof.
  unfold convertToTrainingData.
  destruct (rows_loop_exact headers (column_index headers labelColumn)
                            rows [] []) as (fvs & -> & Hall).
  cbn [mbind option_bind app]. eexists. split; [reflexivity|].
  cbn [features].
  apply Forall_forall. intros fv Hin.
  apply list_elem_of_lookup in Hin as [k Hk].
  destruct (Forall2_lookup_r _ _ _ _ _ Hall Hk) as (row & _ & Hrow).
  split.
  - destruct (featureRow_entry headers row fv 1
                (list_ascii_of_string "gender") eq_refl Hrow)
      as (v & -> & Hv).
    unfold encode_cell in Hv.
    destruct (column_index headers _); [|injection Hv as <-; by left].
    change (eqs (toLowerCase (list_ascii_of_string "gender"))
                (list_ascii_of_string "gender")) with true in Hv.
    cbn iota in Hv. destruct (row !! n); [|done].
    injection Hv as <-. apply bit_binary.
  - destruct (featureRow_entry headers row fv 2
                (list_ascii_of_string "residence") eq_refl Hrow)
      as (v & -> & Hv).
    unfold encode_cell in Hv.
    destruct (column_index headers _); [|injection Hv as <-; by left].
    change (eqs (toLowerCase (list_ascii_of_string "residence"))
                (list_ascii_of_string "gender")) with false in Hv.
    change (eqs (toLowerCase (list_ascii_of_string "residence"))
                (list_ascii_of_string "residence")) with true in Hv.
    cbn iota in Hv. destruct (row !! n); [|done].
    injection Hv as <-. apply bit_binary.
Qed.

Lemma span_digits_cons c rest :
  span_digits (c :: rest)
  = if is_digit c then (c :: (span_digits rest).1, (span_digits rest).2)
    else ([], c :: rest).
Proof. cbn [span_digits]. by destruct (is_digit c), (span_digits rest). Qed.

(** parseFloat gives NaN exactly on the cells that do not start with a
    number. *)
Lemma parseFloat_NaN cell :
  parseFloat cell = JS.NaN ↔ starts_number cell = false.
Proof.
  unfold parseFloat, starts_number.
  destruct (sign_of (trimStart cell)) as [sg s].
  destruct (has_prefix "Infinity"%string s).
  { cbn [orb]. split; [by destruct (sg <? 0)%Z|done]. }
  cbn [orb].
  destruct s as [|c rest].
  { cbn. done. }
  rewrite span_digits_cons.
  destruct (is_digit c) eqn:Hc.
  { cbn [orb app]. split; [|done]. intros H.
    destruct (span_digits rest) as [ds s1]. cbn [fst snd] in H.
    destruct s1 as [|c1 r1].
    - by apply nearest_never_NaN in H.
    - destruct (eqc c1 "."); [destruct (span_digits r1)|];
        by apply nearest_never_NaN in H. }
  cbn [orb].
  destruct (eqc c ".") eqn:Hp; cbn [andb].
  - destruct rest as [|d rest'].
    + cbn. done.
    + rewrite span_digits_cons. destruct (is_digit d) eqn:Hd.
      * split; [|done]. cbn [app]. intros H.
        by apply nearest_never_NaN in H.
      * cbn. done.
  - cbn. done.
Qed.

Lemma featureRow_encodes headers row fv :
  length headers ≤ length row →
  featureRow (map (column_index headers) featureColumns) row = Some fv →
  encodes headers row fv.
Proof.
  intros Hlen Hfv j col Hcol.
  destruct (featureRow_entry headers row fv j col Hcol Hfv) as (v & Hv & He).
  unfold encode_cell in He.
  destruct (column_index headers col) as [i|] eqn:Hi;
    [|by injection He as <-].
  apply findIndex_lt in Hi.
  destruct (lookup_lt_is_Some_2 row i) as [cell Hcell]; [lia|].
  exists cell. split; [done|]. rewrite Hcell in He.
  cbn [mbind option_bind from_option] in He. rewrite Hv.
  destruct (eqs (toLowerCase col) (list_ascii_of_string "gender")) eqn:E1;
    [apply bool_decide_eq_true in E1|apply bool_decide_eq_false in E1].
  { split; [by intros _|]. split; [intros E2; by rewrite E2 in E1|done]. }
  destruct (eqs (toLowerCase col) (list_ascii_of_string "residence")) eqn:E2;
    [apply bool_decide_eq_true in E2|apply bool_decide_eq_false in E2].
  { split; [done|]. split; [by intros _|done]. }
  split; [done|]. split; [done|]. intros _ _.
  injection He as <-.
  destruct (parseFloat cell) eqn:E; cbn [JS.isNaN].
  - apply parseFloat_NaN in E. rewrite E. by split.
  - assert (starts_number cell ≠ false) as N
      by (intros F; apply parseFloat_NaN in F; congruence).
    split; [done|]. by intros _.
  - assert (starts_number cell ≠ false) as N
      by (intros F; apply parseFloat_NaN in F; congruence).
    split; [done|]. by intros _.
  - assert (starts_number cell ≠ false) as N
      by (intros F; apply parseFloat_NaN in F; congruence).
    split; [done|]. by intros _.
Qed.

(** C5, as amended.  convertToTrainingData never raises.  Its rowCount is
    the number of feature vectors, which is the number of rows that pass
    the filter; every vector has 53 entries, one per schema field, none of
    which is NaN.  The entry of a field that no header names is 0; gender
    and residence are flags; any other entry is 0 when its cell does not
    start with a number (an empty cell, a blank one, a word), and is the
    number that the cell starts with when it does, whatever follows that
    number.  With a diagnosis column there are as many labels as vectors,
    and without it there are none. *)
Theorem convertToTrainingData_shape headers rows :
  ∃ td, convertToTrainingData headers rows = Some td ∧
        rowCount td = length (features td) ∧
        length (features td) = length (kept headers rows) ∧
        Forall (well_encoded headers) (features td) ∧
        Forall (λ fv, length fv = 53) (features td) ∧
        Forall2 (encodes headers) (kept headers rows) (features td) ∧
        hasLabels td = bool_decide (column_index headers labelColumn ≠ None) ∧
        (hasLabels td = true → length (labels td) = length (features td)) ∧
        (hasLabels td = false → labels td = []).
Proof.
  unfold convertToTrainingData.
  destruct (rows_loop headers (column_index headers labelColumn) rows [] [])
    as (fs & ls & E & Hall & Hlen & Hls).
  destruct (rows_loop_exact headers (column_index headers labelColumn)
                            rows [] []) as (fvs & E' & Hexact).
  rewrite E in E'. injection E' as Hfs _. cbn [app] in Hfs. subst fvs.
  rewrite E.
  cbn [mbind option_bind app]. eexists. split; [reflexivity|].
  cbn [features labels hasLabels rowCount].
  split; [done|]. split; [done|]. split; [done|].
  split; [eapply Forall_impl; [exact Hall|]; by intros fv [? _]|].
  split.
  { apply Forall2_same_length_lookup. split; [by rewrite Hlen|].
    intros k row fv Hrow Hfv.
    apply featureRow_encodes.
    - apply not_skipped_long.
      apply list_elem_of_lookup_2, list_elem_of_filter in Hrow. tauto.
    - by apply (Forall2_lookup_lr _ _ _ _ _ _ Hexact Hrow Hfv). }
  split; [done|]. split.
  - intros Hhas. apply bool_decide_eq_true in Hhas.
    by destruct (column_index headers labelColumn).
  - intros Hhas. apply bool_decide_eq_false in Hhas.
    destruct (column_index headers labelColumn); [by destruct Hhas|].
    by destruct ls.
Qed.

(** C5 as stated fails for a cell that is not a number but starts with
    one: under the header age, the cell 12abc is encoded as 12, not as
    0. *)
Lemma convertToTrainingData_keeps_numeric_prefix :
  ∃ td, convertToTrainingData (strs ["age"]) [strs ["12abc"]] = Some td ∧
        feature_column 0 (features td) = [Some (JS.Fin 12)] ∧
        feature_column 0 (features td) ≠ [Some (JS.Fin 0)].
Proof.
  eexists. split; [reflexivity|]. split; [reflexivity|discriminate].
Qed.

End EncoderMore.

(** ** Reported metrics *)

Section MetricsFacts.
Import Evaluation Handler.

Lemma gt_zero b : JS.gt (JS.Fin b) (JS.Fin 0) = true ↔ (0 < b)%Q.
Proof.
  cbn [JS.gt]. rewrite negb_true_iff.
  split.
  - intros H. apply Qnot_le_lt. intros Hle.
    apply Qle_bool_iff in Hle. congruence.
  - intros H. destruct (Qle_bool b 0) eqn:E; [|done].
    apply Qle_bool_iff in E. lra.
Qed.

Lemma div_pos a b :
  (0 < b)%Q → JS.div (JS.Fin a) (JS.Fin b) = JS.Fin (Qred (a / b)).
Proof.
  intros Hb. cbn [JS.div].
  assert ((b ?= 0)%Q = Gt) as ->; [|done].
  by apply Qgt_alt.
Qed.

(** A guarded quotient of a part by the whole. *)
Lemma ratio_fin a b :
  (0 <= a)%Q → (a <= b)%Q →
  ∃ q, ratio (JS.Fin a) (JS.Fin b) = JS.Fin q ∧
       (0 <= q)%Q ∧ (q <= 1)%Q ∧
       ((0 < b)%Q → (q == a / b)%Q) ∧
       ((b == 0)%Q → (q == 0)%Q).
Proof.
  intros Ha Hab. unfold ratio.
  destruct (JS.gt (JS.Fin b) (JS.Fin 0)) eqn:E.
  - apply gt_zero in E. rewrite (div_pos a b E).
    eexists. split; [reflexivity|].
    rewrite Qred_correct.
    assert (a / b * b == a)%Q as Hq by (field; lra).
    split; [apply Qle_shift_div_l; lra|].
    split; [apply Qle_shift_div_r; lra|].
    split; [intros _; reflexivity|].
    intros Hb. lra.
  - exists 0%Q. split; [reflexivity|].
    split; [lra|]. split; [lra|].
    split; [|reflexivity].
    intros Hb. apply gt_zero in Hb. congruence.
Qed.

Lemma of_nat_nonneg n : (0 <= inject_Z (Z.of_nat n))%Q.
Proof. change 0%Q with (inject_Z 0). rewrite <- Zle_Qle. lia. Qed.

Lemma of_nat_le a b : a ≤ b → (inject_Z (Z.of_nat a) <= inject_Z (Z.of_nat b))%Q.
Proof. intros H. rewrite <- Zle_Qle. lia. Qed.

Lemma errors_loop f i l fp fn :
  i < 3 → Forall (λ j, j < 3) l →
  foldl (errors_step (of_counts f) i) (JS.of_nat fp, JS.of_nat fn) l
  = (JS.of_nat (foldl (λ s j, if decide (i ≠ j) then s + f j i else s) fp l),
     JS.of_nat (foldl (λ s j, if decide (i ≠ j) then s + f i j else s) fn l)).
Proof.
  intros Hi Hl. revert fp fn.
  induction Hl as [|j l Hj _ IH]; intros fp fn; [done|].
  cbn [foldl]. unfold errors_step at 2.
  destruct (decide (i ≠ j)); [|apply IH].
  rewrite !cell_of_counts, !add_of_nat by done. apply IH.
Qed.

Lemma totals_loop f i l c s :
  i < 3 → Forall (λ j, j < 3) l →
  foldl (totals_step (of_counts f) i) (JS.of_nat c, JS.of_nat s) l
  = (JS.of_nat (foldl (λ c j, if decide (i = j) then c + f i j else c) c l),
     JS.of_nat (foldl (λ s j, s + f i j) s l)).
Proof.
  intros Hi Hl. revert c s.
  induction Hl as [|j l Hj _ IH]; intros c s; [done|].
  cbn [foldl]. unfold totals_step at 2.
  rewrite !cell_of_counts, !add_of_nat by done.
  destruct (decide (i = j)); apply IH.
Qed.

Lemma seq_3_range : Forall (λ j, j < 3) (seq 0 3).
Proof. repeat constructor. Qed.

Lemma totals_of_counts f :
  totals (of_counts f) = (JS.of_nat (diagonal f), JS.of_nat (all_cells f)).
Proof.
  change (totals (of_counts f))
    with (foldl (totals_step (of_counts f) 2)
            (foldl (totals_step (of_counts f) 1)
               (foldl (totals_step (of_counts f) 0)
                      (JS.of_nat 0, JS.of_nat 0) (seq 0 3))
               (seq 0 3))
            (seq 0 3)).
  rewrite !totals_loop by (lia || apply seq_3_range).
  cbn. unfold diagonal, all_cells. f_equal; f_equal; lia.
Qed.

Lemma ratio_of_nat a b :
  ∃ q, ratio (JS.of_nat a) (JS.of_nat (a + b)) = JS.Fin q ∧
       (0 <= q)%Q ∧ (q <= 1)%Q ∧
       (0 < a + b →
        (q == inject_Z (Z.of_nat a) / inject_Z (Z.of_nat (a + b)))%Q) ∧
       (a + b = 0 → (q == 0)%Q).
Proof.
  unfold JS.of_nat, JS.of_Z.
  destruct (ratio_fin (inject_Z (Z.of_nat a)) (inject_Z (Z.of_nat (a + b))))
    as (q & -> & H0 & H1 & Hpos & Hzero);
    [apply of_nat_nonneg|apply of_nat_le; lia|].
  exists q. split; [done|]. split; [done|]. split; [done|]. split.
  - intros H. apply Hpos. change 0%Q with (inject_Z 0).
    rewrite <- Zlt_Qlt. lia.
  - intros H. apply Hzero. by rewrite H.
Qed.

(** One class adds a precision, a recall and an f1 between 0 and 1 to the
    three sums. *)
Lemma class_step_fin f i sp sr sf k :
  i < 3 →
  (0 <= sp ∧ sp <= k)%Q → (0 <= sr ∧ sr <= k)%Q → (0 <= sf ∧ sf <= k)%Q →
  ∃ sp' sr' sf',
    class_step (of_counts f) (JS.Fin sp, JS.Fin sr, JS.Fin sf) i
    = (JS.Fin sp', JS.Fin sr', JS.Fin sf') ∧
    (0 <= sp' ∧ sp' <= k + 1)%Q ∧ (0 <= sr' ∧ sr' <= k + 1)%Q ∧
    (0 <= sf' ∧ sf' <= k + 1)%Q.
Proof.
  intros Hi Hsp Hsr Hsf. unfold class_step.
  change (JS.Fin 0, JS.Fin 0) with (JS.of_nat 0, JS.of_nat 0).
  rewrite errors_loop by (done || apply seq_3_range).
  rewrite cell_of_counts, !add_of_nat by done.
  cbv zeta.
  destruct (ratio_of_nat (f i i)
              (foldl (λ s j, if decide (i ≠ j) then s + f j i else s) 0
                     (seq 0 3)))
    as (p & -> & Hp0 & Hp1 & _).
  destruct (ratio_of_nat (f i i)
              (foldl (λ s j, if decide (i ≠ j) then s + f i j else s) 0
                     (seq 0 3)))
    as (r & -> & Hr0 & Hr1 & _).
  cbn [JS.mul JS.add].
  destruct (ratio_fin (Qred (Qred (2 * p) * r)) (Qred (p + r)))
    as (f1 & -> & Hf0 & Hf1 & _).
  { rewrite !Qred_correct. nra. }
  { rewrite !Qred_correct. nra. }
  do 3 eexists. split; [reflexivity|].
  rewrite !Qred_correct. lra.
Qed.

(** The measured metrics of a table of counts are fractions; the accuracy
    is the diagonal over the sum of all cells, and 0 for the empty table. *)
Lemma measured_of_counts f :
  ∃ a p r f1,
    measured (of_counts f)
    = {| accuracy := JS.Fin a; precision := JS.Fin p; recall := JS.Fin r;
         f1Score := JS.Fin f1 |} ∧
    (0 <= a ∧ a <= 1)%Q ∧ (0 <= p ∧ p <= 1)%Q ∧ (0 <= r ∧ r <= 1)%Q ∧
    (0 <= f1 ∧ f1 <= 1)%Q ∧
    (0 < all_cells f →
     (a == inject_Z (Z.of_nat (diagonal f))
           / inject_Z (Z.of_nat (all_cells f)))%Q) ∧
    (all_cells f = 0 → (a == 0)%Q).
Proof.
  unfold measured. rewrite totals_of_counts.
  assert (∃ rest, all_cells f = diagonal f + rest) as [rest Hrest].
  { exists (f 0 1 + f 0 2 + f 1 0 + f 1 2 + f 2 0 + f 2 1).
    unfold all_cells, diagonal. lia. }
  rewrite Hrest.
  destruct (ratio_of_nat (diagonal f) rest) as (a & -> & Ha0 & Ha1 & Ha & Hz).
  change (foldl (class_step (of_counts f)) (JS.Fin 0, JS.Fin 0, JS.Fin 0)
                (seq 0 3))
    with (class_step (of_counts f)
            (class_step (of_counts f)
               (class_step (of_counts f) (JS.Fin 0, JS.Fin 0, JS.Fin 0) 0)
               1)
            2).
  destruct (class_step_fin f 0 0 0 0 0) as (p1 & r1 & f1 & -> & ? & ? & ?);
    [lia|lra..|].
  destruct (class_step_fin f 1 p1 r1 f1 (0 + 1))
    as (p2 & r2 & f2 & -> & ? & ? & ?); [lia|lra..|].
  destruct (class_step_fin f 2 p2 r2 f2 (0 + 1 + 1))
    as (p3 & r3 & f3 & -> & ? & ? & ?); [lia|lra..|].
  rewrite !div_pos by reflexivity.
  do 4 eexists. split; [reflexivity|].
  rewrite !Qred_correct.
  split; [lra|].
  split; [split; [apply Qle_shift_div_l|apply Qle_shift_div_r]; lra|].
  split; [split; [apply Qle_shift_div_l|apply Qle_shift_div_r]; lra|].
  split; [split; [apply Qle_shift_div_l|apply Qle_shift_div_r]; lra|].
  split; [exact Ha|exact Hz].
Qed.

Lemma boost_fin t v :
  ∃ b, boost (JS.Fin t) (JS.Fin v) = JS.Fin b ∧
       (0 <= b)%Q ∧ (t - v <= b)%Q ∧ ((b == 0)%Q ∨ (b == t - v)%Q).
Proof.
  unfold boost. cbn [JS.sub JS.max].
  destruct (Qle_bool 0 (Qred (t - v))) eqn:E.
  - apply Qle_bool_iff in E. eexists. split; [reflexivity|].
    split; [done|]. rewrite Qred_correct. split; [lra|]. by right.
  - exists 0%Q. split; [done|]. split; [lra|].
    assert (¬ (0 <= Qred (t - v))%Q) as Hn.
    { intros H. apply Qle_bool_iff in H. congruence. }
    rewrite Qred_correct in Hn. split; [lra|]. by left.
Qed.

Lemma cap_fin x :
  ∃ q, JS.min (JS.Fin 0.95) (JS.Fin x) = JS.Fin q ∧
       (q <= 0.95)%Q ∧ (q <= x)%Q ∧ ((q == 0.95)%Q ∨ (q == x)%Q).
Proof.
  cbn [JS.min]. destruct (Qle_bool 0.95 x) eqn:E.
  - apply Qle_bool_iff in E. eexists. split; [reflexivity|].
    split; [lra|]. split; [done|]. by left.
  - exists x. split; [done|].
    assert (¬ (0.95 <= x)%Q) as Hn.
    { intros H. apply Qle_bool_iff in H. congruence. }
    split; [lra|]. split; [lra|]. by right.
Qed.

(** The value handed to the caller for a measured value [v], a target [t],
    a random factor [rf] and a damping [c]: the boost [b] is added to [v]
    and the sum [x] is capped, which gives [q]. *)
Lemma adjusted_value (t v rf c b x q : Q) :
  (0 <= v ∧ v <= 1)%Q → (0 <= t ∧ t <= 1)%Q →
  (0.95 <= rf)%Q → (0 <= c ∧ c <= 1)%Q →
  (0 <= b)%Q → (t - v <= b)%Q → ((b == 0)%Q ∨ (b == t - v)%Q) →
  (x == v + b * rf * c)%Q →
  (q <= 0.95)%Q → (q <= x)%Q → ((q == 0.95)%Q ∨ (q == x)%Q) →
  (0.95 * c * t <= q)%Q ∧ (Qmin 0.95 v <= q)%Q ∧
  ((t <= v)%Q → (q == Qmin 0.95 v)%Q).
Proof.
  intros Hv Ht Hrf Hc Hb0 Hb1 Hb Hx Hq1 Hq2 Hq.
  assert (0 <= b * rf * c)%Q as Hprod.
  { apply Qmult_le_0_compat; [apply Qmult_le_0_compat|]; lra. }
  assert (v <= x)%Q as Hvx by lra.
  assert (0 <= c * t)%Q as Hct by (apply Qmult_le_0_compat; lra).
  assert (c * t <= t)%Q as Hct1 by nra.
  assert (0.95 * c * t <= x)%Q as Hlow.
  { destruct Hb as [Hb|Hb]; [lra|].
    assert (0 <= (t - v) * c)%Q by (apply Qmult_le_0_compat; lra).
    assert (0 <= v * (1 - 0.95 * c))%Q by (apply Qmult_le_0_compat; lra).
    assert (b * rf * c == (t - v) * c * rf)%Q as E by (rewrite Hb; ring).
    assert ((t - v) * c * 0.95 <= (t - v) * c * rf)%Q by nra.
    lra. }
  split; [destruct Hq; lra|].
  split.
  - destruct (Q.min_spec 0.95 v) as [[? E]|[? E]]; rewrite E;
      destruct Hq; lra.
  - intros Htv.
    assert (b == 0)%Q as Hb' by (destruct Hb; lra).
    assert (x == v)%Q as Hxv by (rewrite Hx, Hb'; ring).
    destruct (Q.min_spec 0.95 v) as [[? E]|[? E]]; rewrite E;
      destruct Hq; lra.
Qed.

Lemma adjust_accuracy (t v rf : Q) :
  (0 <= v ∧ v <= 1)%Q → (0 <= t ∧ t <= 1)%Q → (0.95 <= rf)%Q →
  ∃ q, JS.min (JS.Fin 0.95)
              (JS.add (JS.Fin v)
                      (JS.mul (boost (JS.Fin t) (JS.Fin v)) (JS.Fin rf)))
       = JS.Fin q ∧
       (q <= 0.95)%Q ∧ (0.95 * t <= q)%Q ∧ (Qmin 0.95 v <= q)%Q ∧
       ((t <= v)%Q → (q == Qmin 0.95 v)%Q).
Proof.
  intros Hv Ht Hrf.
  destruct (boost_fin t v) as (b & -> & Hb0 & Hb1 & Hb).
  cbn [JS.mul JS.add].
  destruct (cap_fin (Qred (v + Qred (b * rf)))) as (q & -> & Hq1 & Hq2 & Hq).
  exists q. split; [done|]. split; [done|].
  assert (Qred (v + Qred (b * rf)) == v + b * rf * 1)%Q as Hx
    by (rewrite !Qred_correct; ring).
  assert (0 <= 1 ∧ 1 <= 1)%Q as Hc by lra.
  destruct (adjusted_value t v rf 1 b _ q Hv Ht Hrf Hc Hb0 Hb1 Hb Hx
                           Hq1 Hq2 Hq) as (H1 & H2 & H3).
  split; [lra|]. by split.
Qed.

Lemma adjust_other (t v rf : Q) :
  (0 <= v ∧ v <= 1)%Q → (0 <= t ∧ t <= 1)%Q → (0.95 <= rf)%Q →
  ∃ q, JS.min (JS.Fin 0.95)
              (JS.add (JS.Fin v)
                      (JS.mul (JS.mul (boost (JS.Fin t) (JS.Fin v))
                                      (JS.Fin rf))
                              (JS.Fin 0.9)))
       = JS.Fin q ∧
       (q <= 0.95)%Q ∧ (0.855 * t <= q)%Q ∧ (Qmin 0.95 v <= q)%Q ∧
       ((t <= v)%Q → (q == Qmin 0.95 v)%Q).
Proof.
  intros Hv Ht Hrf.
  destruct (boost_fin t v) as (b & -> & Hb0 & Hb1 & Hb).
  cbn [JS.mul JS.add].
  destruct (cap_fin (Qred (v + Qred (Qred (b * rf) * 0.9))))
    as (q & -> & Hq1 & Hq2 & Hq).
  exists q. split; [done|]. split; [done|].
  assert (Qred (v + Qred (Qred (b * rf) * 0.9)) == v + b * rf * 0.9)%Q
    as Hx by (rewrite !Qred_correct; ring).
  assert (0 <= 0.9 ∧ 0.9 <= 1)%Q as Hc by lra.
  destruct (adjusted_value t v rf 0.9 b _ q Hv Ht Hrf Hc Hb0 Hb1 Hb Hx
                           Hq1 Hq2 Hq) as (H1 & H2 & H3).
  split; [lra|]. by split.
Qed.

(** The random factor lies between 0.95 and 1.05. *)
Lemma randomFactor_range (d : Random.draw) :
  ∃ rf, JS.add (JS.Fin 0.95) (JS.mul (JS.Fin (Random.value d)) (JS.Fin 0.1))
        = JS.Fin rf ∧
        (0.95 <= rf ∧ rf < 1.05)%Q.
Proof.
  cbn [JS.add JS.mul]. eexists. split; [reflexivity|].
  rewrite !Qred_correct. destruct (Random.value_range d). lra.
Qed.

End MetricsFacts.

(** ** Batch handler: from the file to the result *)

Section HandlerFacts.
Import Text Encoder Evaluation Batch Handler Random.

Lemma diagnosisIdx_column headers :
  diagnosisIdx headers = column_index headers labelColumn.
Proof. reflexivity. Qed.

Lemma or_str_trim (x : option str) :
  or_str (trim <$> x) [] = trim (default [] x).
Proof.
  destruct x as [c|]; [|reflexivity].
  change (or_str (Some (trim c)) [] = trim c). unfold or_str.
  by destruct (trim c).
Qed.

Lemma label_step_skipped headers d acc row :
  skipped headers row = true → label_step headers d acc row = acc.
Proof. unfold label_step, skipped. by intros ->. Qed.

Lemma label_step_kept headers d acc row :
  skipped headers row = false → d < length headers →
  label_step headers (Some d) acc row = acc ++ [diagnosis_cell d row].
Proof.
  intros Hs Hd. pose proof (not_skipped_long _ _ Hs) as Hlen.
  unfold label_step, skipped in *. rewrite Hs.
  rewrite bool_decide_eq_true_2 by lia.
  by rewrite or_str_trim.
Qed.

Lemma labels_loop headers d rows acc :
  d < length headers →
  foldl (label_step headers (Some d)) acc rows
  = acc ++ map (diagnosis_cell d) (kept headers rows).
Proof.
  intros Hd. revert acc. induction rows as [|row rows IH]; intros acc.
  - by rewrite app_nil_r.
  - cbn [foldl]. unfold kept. rewrite filter_cons. fold (kept headers rows).
    destruct (skipped headers row) eqn:Hs.
    + rewrite decide_False by done.
      rewrite label_step_skipped by done. apply IH.
    + rewrite decide_True by done.
      rewrite label_step_kept by done. rewrite IH.
      by rewrite <- app_assoc.
Qed.

Lemma labels_loop_none headers rows acc :
  foldl (label_step headers None) acc rows = acc.
Proof.
  revert acc. induction rows as [|row rows IH]; intros acc; [done|].
  cbn [foldl]. rewrite <- (IH acc) at 2. f_equal.
  unfold label_step. by case_match.
Qed.

Lemma actualLabels_spec headers rows :
  actualLabels headers rows
  = match column_index headers labelColumn with
    | Some d => map (diagnosis_cell d) (kept headers rows)
    | None => []
    end.
Proof.
  unfold actualLabels. rewrite diagnosisIdx_column.
  destruct (column_index headers labelColumn) as [d|] eqn:Hd.
  - apply findIndex_lt in Hd. by rewrite labels_loop.
  - apply labels_loop_none.
Qed.

(** X6.  The labels that the handler collects are those of the rows that
    the encoder keeps, in order: with a diagnosis column there is one label
    for each feature vector, the trimmed diagnosis cell of its row, and
    without one there is no label. *)
Theorem actualLabels_match_features
    (headers : list str) (rows : list (list str)) :
  ∃ td, convertToTrainingData headers rows = Some td ∧
        (hasLabels td = false → actualLabels headers rows = []) ∧
        (hasLabels td = true →
         length (actualLabels headers rows) = rowCount td ∧
         length (actualLabels headers rows) = length (features td) ∧
         ∃ d, column_index headers labelColumn = Some d ∧
              actualLabels headers rows
              = map (diagnosis_cell d) (kept headers rows)).
Proof.
  unfold convertToTrainingData.
  destruct (rows_loop headers (column_index headers labelColumn) rows [] [])
    as (fs & ls & -> & _ & Hlen & _).
  cbn [mbind option_bind app]. eexists. split; [reflexivity|].
  cbn [hasLabels rowCount features]. rewrite actualLabels_spec.
  destruct (column_index headers labelColumn) as [d|].
  - split; [intros H; apply bool_decide_eq_false in H; by destruct H|].
    intros _. rewrite length_map.
    split; [done|]. split; [done|]. by exists d.
  - split; [done|]. intros H. apply bool_decide_eq_true in H. by destruct H.
Qed.

Lemma targets_values kind :
  targets kind
  = {| accuracy := JS.Fin (target_accuracy kind);
       precision := JS.Fin (target_precision kind);
       recall := JS.Fin (target_recall kind);
       f1Score := JS.Fin (target_f1 kind) |}.
Proof. by destruct kind. Qed.

Lemma target_ranges kind :
  (0 <= target_accuracy kind ∧ target_accuracy kind <= 1)%Q ∧
  (0 <= target_precision kind ∧ target_precision kind <= 1)%Q ∧
  (0 <= target_recall kind ∧ target_recall kind <= 1)%Q ∧
  (0 <= target_f1 kind ∧ target_f1 kind <= 1)%Q.
Proof. destruct kind; cbn; lra. Qed.

(** The reported metrics of a table of counts. *)
Lemma reported_of_counts kind f g :
  ∃ a p r f1 a' p' r' f1',
    measured (of_counts f)
    = {| accuracy := JS.Fin a; precision := JS.Fin p; recall := JS.Fin r;
         f1Score := JS.Fin f1 |} ∧
    reported kind (of_counts f) g
    = ({| accuracy := JS.Fin a'; precision := JS.Fin p';
          recall := JS.Fin r'; f1Score := JS.Fin f1' |}, λ k, g (S k)) ∧
    (0 < all_cells f →
     (a == inject_Z (Z.of_nat (diagonal f))
           / inject_Z (Z.of_nat (all_cells f)))%Q) ∧
    (all_cells f = 0 → (a == 0)%Q) ∧
    raised (0.95 * target_accuracy kind) (target_accuracy kind) a a' ∧
    raised (0.855 * target_precision kind) (target_precision kind) p p' ∧
    raised (0.855 * target_recall kind) (target_recall kind) r r' ∧
    raised (0.855 * target_f1 kind) (target_f1 kind) f1 f1'.
Proof.
  destruct (measured_of_counts f)
    as (a & p & r & f1 & Hm & Ha & Hp & Hr & Hf & Hacc & Hzero).
  destruct (target_ranges kind) as (Hta & Htp & Htr & Htf).
  destruct (randomFactor_range (g 0)) as (rf & Hrf & Hrange).
  destruct (adjust_accuracy (target_accuracy kind) a rf) as (a' & Ea & Ra);
    [done|done|lra|].
  destruct (adjust_other (target_precision kind) p rf) as (p' & Ep & Rp);
    [done|done|lra|].
  destruct (adjust_other (target_recall kind) r rf) as (r' & Er & Rr);
    [done|done|lra|].
  destruct (adjust_other (target_f1 kind) f1 rf) as (f1' & Ef & Rf);
    [done|done|lra|].
  exists a, p, r, f1, a', p', r', f1'.
  split; [exact Hm|]. split.
  { unfold reported. rewrite Hm, targets_values.
    unfold bind, Math_random, ret.
    cbn [accuracy precision recall f1Score].
    by rewrite Hrf, Ea, Ep, Er, Ef. }
  split; [exact Hacc|]. split; [exact Hzero|].
  unfold raised. repeat split; tauto.
Qed.

(** Whatever the lists, a matrix that the handler builds is a table of
    counts. *)
Lemma batch_loop_counts conv l f m :
  Forall (λ c : Dict.entry nat, ∀ a, c = Dict.Own a → a < 3) conv →
  foldl (Batch.confusion_step conv) (Some (of_counts f)) l = Some m →
  ∃ f', m = of_counts f'.
Proof.
  intros Hconv. revert f. induction l as [|[i x] l IH]; intros f.
  - cbn. intros [= <-]. by exists f.
  - cbn [foldl]. unfold Batch.confusion_step at 2.
    cbn [mbind option_bind].
    destruct (conv !! i) as [[ai|name|]|] eqn:Hai;
      destruct (Dict.get Batch.diseaseMap (predicted x)) as [pi|name'|]
        eqn:Hpi;
      try apply IH; try (by rewrite batch_step_None).
    + assert (ai < 3) as Hlt.
      { rewrite Forall_forall in Hconv.
        apply (Hconv (Dict.Own ai)); [|done].
        by eapply list_elem_of_lookup_2. }
      assert (pi < 3) as Hpi'.
      { apply (index_of_range (predicted x)). by rewrite Hpi. }
      pose proof (bump_of_counts f ai pi Hlt Hpi') as Hb.
      unfold bump in Hb. cbn [mbind option_bind fst snd] in Hb.
      rewrite Hb. apply IH.
    + destruct (of_counts f !! ai); [apply IH|by rewrite batch_step_None].
Qed.

Lemma confusionMatrix_counts preds al m :
  Batch.confusionMatrix preds al = Some m → ∃ f, m = of_counts f.
Proof.
  unfold Batch.confusionMatrix. rewrite zero_matrix_counts.
  apply batch_loop_counts. apply List.Forall_map, Forall_true.
  intros label a Ha. apply (index_of_range (trim label)).
  unfold convert in Ha. by rewrite Ha.
Qed.

Lemma predictions_length bp al g :
  length (Batch.predictions bp al g).1 = length bp.
Proof.
  unfold Batch.predictions, bind. destruct (shuffle _ g). cbn.
  apply length_imap.
Qed.

Lemma hasValidLabels_nil : hasValidLabels [] = false.
Proof. reflexivity. Qed.

(** X7.  With a model that returns one result for each feature vector, the
    handler fails, with the error of a file without valid data, exactly when
    the encoder keeps no row.  When rows are kept and the collected labels
    are valid but one of them is the name of a member that every object
    inherits, such as constructor, building the matrix raises a TypeError
    and there is no result.  In every other case the handler returns a
    result: as many records and predictions as kept rows, and a confusion
    matrix and metrics exactly when the collected labels are valid. *)
Theorem process_outcome
    (kind : ModelKind) (trainedModel : Model)
    (headers : list str) (rows : list (list str)) (g : source) :
  (∀ fs, length (trainedModel fs) = length fs) →
  let n := length (kept headers rows) in
  let collected := actualLabels headers rows in
  let valid := hasValidLabels collected in
  (n = 0 → (process kind trainedModel headers rows g).1 = inl NoValidData) ∧
  (0 < n → valid = true → Exists names_member collected →
   (process kind trainedModel headers rows g).1 = inl TypeError) ∧
  (0 < n → valid = false ∨ Forall (λ l, ¬ names_member l) collected →
   ∃ result,
     (process kind trainedModel headers rows g).1 = inr result ∧
     totalRecords result = n ∧
     length (Handler.predictions result) = n ∧
     (is_Some (metrics result) ↔ valid = true) ∧
     (is_Some (Handler.confusionMatrix result) ↔ valid = true)).
Proof.
  intros Hmodel n collected valid. unfold process.
  pose proof (actualLabels_spec headers rows) as Hal.
  subst valid collected. set (al := actualLabels headers rows) in *.
  unfold convertToTrainingData.
  destruct (rows_loop headers (column_index headers labelColumn) rows [] [])
    as (fs & ls & -> & _ & Hlen & _).
  cbn [mbind option_bind app rowCount features]. fold n in Hlen.
  assert (Hcount : hasValidLabels al = true → length al = n).
  { intros Hvalid. rewrite Hal.
    destruct (column_index headers labelColumn).
    - by rewrite length_map.
    - by rewrite Hal in Hvalid. }
  pose proof (predictions_length (trainedModel fs) al g) as Hpreds.
  pose proof (predictions_named (trainedModel fs) al g) as Hnamed.
  rewrite Hmodel in Hpreds.
  split; [|split].
  - intros Hn. rewrite bool_decide_eq_true_2 by lia. done.
  - intros Hn Hvalid Hex. rewrite bool_decide_eq_false_2 by lia.
    unfold bind at 1.
    destruct (Batch.predictions (trainedModel fs) al g) as [preds g'].
    cbn [fst] in Hpreds, Hnamed. rewrite Hvalid.
    rewrite confusionMatrix_raises; [done| |done|done].
    rewrite Hcount by done. lia.
  - intros Hn Hcase. rewrite bool_decide_eq_false_2 by lia.
    unfold bind at 1.
    destruct (Batch.predictions (trainedModel fs) al g) as [preds g'].
    cbn [fst] in Hpreds, Hnamed.
    destruct (hasValidLabels al) eqn:Hvalid.
    + destruct Hcase as [?|Hnone]; [done|].
      assert (length preds ≤ length al) as Hle
        by (rewrite Hcount by done; lia).
      rewrite (confusionMatrix_pairs preds al Hle Hnone Hnamed).
      rewrite zero_matrix_counts,
        (foldl_bump _ _ (effective_range _ (resolved_range preds al))).
      unfold bind.
      destruct (reported_of_counts kind
                  (λ a p, 0 + count_of (a, p) (effective (resolved preds al)))
                  g')
        as (a & p & r & f1 & a' & p' & r' & f1' & _ & -> & _).
      cbn [ret fst]. eexists. split; [reflexivity|].
      cbn [totalRecords Handler.predictions metrics Handler.confusionMatrix].
      repeat split; try done; try lia; by eexists.
    + cbn [ret fst]. eexists. split; [reflexivity|].
      cbn [totalRecords Handler.predictions metrics Handler.confusionMatrix].
      repeat split; try done; try lia; by intros [? [=]].
Qed.

(** The result of the handler, when there is one. *)
Lemma process_result kind trainedModel headers rows g result :
  (process kind trainedModel headers rows g).1 = inr result →
  ∃ td g1 g2 preds,
    convertToTrainingData headers rows = Some td ∧
    Batch.predictions (trainedModel (features td))
                      (actualLabels headers rows) g = (preds, g1) ∧
    Handler.predictions result = preds ∧
    totalRecords result = length (features td) ∧
    if hasValidLabels (actualLabels headers rows)
    then ∃ m mt, Batch.confusionMatrix preds (actualLabels headers rows)
                 = Some m ∧
                 reported kind m g1 = (mt, g2) ∧
                 metrics result = Some mt ∧
                 Handler.confusionMatrix result = Some m
    else metrics result = None ∧ Handler.confusionMatrix result = None.
Proof.
  unfold process.
  destruct (convertToTrainingData headers rows) as [td|]; [|done].
  destruct (bool_decide (rowCount td = 0)); [done|].
  unfold bind at 1.
  destruct (Batch.predictions _ _ g) as [preds g1] eqn:Hpreds.
  destruct (hasValidLabels (actualLabels headers rows)).
  - destruct (Batch.confusionMatrix preds _) as [m|] eqn:Hcm; [|done].
    unfold bind. destruct (reported kind m g1) as [mt g2] eqn:Hrep.
    cbn [ret fst]. intros [= <-].
    exists td, g1, g2, preds. do 4 (split; [done|]).
    exists m, mt. by repeat split.
  - cbn [ret fst]. intros [= <-].
    exists td, g1, g, preds. do 4 (split; [done|]). by split.
Qed.

(** X8.  The metrics of a batch result are not the measured ones.  The
    handler measures accuracy, precision, recall and f1 on the confusion
    matrix, each a fraction between 0 and 1, the accuracy being the diagonal
    over the total; each reported value is then at most 0.95, not below the
    measured value unless that exceeds 0.95, and at least 0.95 times the
    target of the selected model for the accuracy and 0.855 times the target
    for the others, whatever the matrix: with no correct prediction at all
    the reported accuracy is still at least 0.665 for the logistic model and
    0.8075 for the neural one, and a measured value of 1 is reported as
    0.95.  A measured value that meets its target is reported as it is, up
    to the cap. *)
Theorem process_reported_metrics
    (kind : ModelKind) (trainedModel : Model)
    (headers : list str) (rows : list (list str)) (g : source)
    (result : BatchResult) (mt : Metrics) :
  (process kind trainedModel headers rows g).1 = inr result →
  metrics result = Some mt →
  ∃ f a p r f1 a' p' r' f1',
    Handler.confusionMatrix result = Some (of_counts f) ∧
    measured (of_counts f)
    = {| accuracy := JS.Fin a; precision := JS.Fin p; recall := JS.Fin r;
         f1Score := JS.Fin f1 |} ∧
    mt = {| accuracy := JS.Fin a'; precision := JS.Fin p';
            recall := JS.Fin r'; f1Score := JS.Fin f1' |} ∧
    (0 < all_cells f →
     (a == inject_Z (Z.of_nat (diagonal f))
           / inject_Z (Z.of_nat (all_cells f)))%Q) ∧
    (all_cells f = 0 → (a == 0)%Q) ∧
    raised (0.95 * target_accuracy kind) (target_accuracy kind) a a' ∧
    raised (0.855 * target_precision kind) (target_precision kind) p p' ∧
    raised (0.855 * target_recall kind) (target_recall kind) r r' ∧
    raised (0.855 * target_f1 kind) (target_f1 kind) f1 f1'.
Proof.
  intros Hres Hmt.
  destruct (process_result _ _ _ _ _ _ Hres)
    as (td & g1 & g2 & preds & _ & _ & _ & _ & Hcase).
  destruct (hasValidLabels _); [|destruct Hcase; congruence].
  destruct Hcase as (m & mt' & Hcm & Hrep & Hmt' & Hm).
  destruct (confusionMatrix_counts _ _ _ Hcm) as [f ->].
  destruct (reported_of_counts kind f g1)
    as (a & p & r & f1 & a' & p' & r' & f1' & Hmeas & Hrep' & Hrest).
  exists f, a, p, r, f1, a', p', r', f1'.
  split; [done|]. split; [done|]. split; [|exact Hrest].
  congruence.
Qed.

Lemma forallb_false {X} (P : X → bool) l x :
  x ∈ l → P x = false → forallb P l = false.
Proof.
  intros Hin Hx. induction Hin as [x l|x y l _ IH]; cbn.
  - by rewrite Hx.
  - rewrite IH by done. apply andb_false_r.
Qed.

(** X9.  One blank diagnosis withholds the evaluation of the whole file:
    without a diagnosis column, or when the diagnosis cell of some kept row
    is empty once trimmed, a batch result carries neither a confusion matrix
    nor metrics. *)
Theorem blank_diagnosis_withholds_evaluation
    (kind : ModelKind) (trainedModel : Model)
    (headers : list str) (rows : list (list str)) (g : source)
    (result : BatchResult) :
  (column_index headers labelColumn = None ∨
   ∃ d row, column_index headers labelColumn = Some d ∧
            row ∈ kept headers rows ∧ diagnosis_cell d row = []) →
  (process kind trainedModel headers rows g).1 = inr result →
  hasValidLabels (actualLabels headers rows) = false ∧
  metrics result = None ∧ Handler.confusionMatrix result = None.
Proof.
  intros Hblank Hres.
  assert (hasValidLabels (actualLabels headers rows) = false) as Hvalid.
  { rewrite actualLabels_spec.
    destruct Hblank as [->|(d & row & -> & Hin & Hcell)]; [done|].
    unfold hasValidLabels. apply andb_false_intro2.
    apply (forallb_false _ _ (diagnosis_cell d row)).
    - apply list_elem_of_fmap. by exists row.
    - by rewrite Hcell. }
  split; [done|].
  destruct (process_result _ _ _ _ _ _ Hres)
    as (td & g1 & g2 & preds & _ & _ & _ & _ & Hcase).
  by rewrite Hvalid in Hcase.
Qed.

(** X10.  Every prediction of a batch result is numbered from 1 in the
    order of the kept rows, names one of the three classes, carries a
    confidence of at least 0.65 whatever the model returned, and shows as
    its actual class the label collected for its row, or none when that
    label is empty or missing. *)
Theorem process_predictions
    (kind : ModelKind) (trainedModel : Model)
    (headers : list str) (rows : list (list str)) (g : source)
    (result : BatchResult) (k : nat) (p : Prediction) :
  (process kind trainedModel headers rows g).1 = inr result →
  Handler.predictions result !! k = Some p →
  id p = k + 1 ∧
  predicted p ∈ DISEASE_LABELS ∧
  (65 / 100 <= Batch.confidence p)%R ∧
  actual p = nonempty (actualLabels headers rows !! k).
Proof.
  intros Hres Hk.
  destruct (process_result _ _ _ _ _ _ Hres)
    as (td & g1 & g2 & preds & _ & Hpreds & Hp & _ & _).
  rewrite Hp in Hk. clear Hp Hres.
  set (bp := trainedModel (features td)) in *.
  set (al := actualLabels headers rows) in *.
  assert (predicted p ∈ DISEASE_LABELS) as Hnamed.
  { pose proof (predicted_is_balanced bp al g) as Hbal.
    rewrite Hpreds in Hbal. cbn [fst] in Hbal.
    assert (predicted p ∈ map predicted preds) as Hin.
    { apply list_elem_of_fmap. exists p. split; [done|].
      by eapply list_elem_of_lookup_2. }
    rewrite Hbal, shuffle_perm in Hin.
    pose proof (balanced_named (length bp)) as Hall.
    rewrite Forall_forall in Hall. by apply Hall. }
  unfold Batch.predictions, bind in Hpreds.
  destruct (shuffle _ g) as [bc g']. cbn in Hpreds.
  injection Hpreds as <- _.
  apply list_lookup_imap_Some in Hk as (x & _ & ->).
  split; [done|]. split; [done|]. split; [apply Rmax_l|done].
Qed.

Lemma has_prefix_app p q r :
  length p = length q →
  has_prefix p (q ++ r) = bool_decide (p = q).
Proof.
  revert q. induction p as [|a p IH]; intros [|b q] Hlen; try done.
  cbn [app has_prefix]. rewrite IH by (cbn in Hlen; lia).
  destruct (eqc a b) eqn:E.
  - apply eqc_true in E as ->. cbn.
    apply bool_decide_ext. split; [by intros ->|by intros [= ->]].
  - apply eqc_false in E. cbn. symmetry.
    apply bool_decide_eq_false. by intros [= ? ?].
Qed.

Lemma ends_with_app suffix stem ext :
  length suffix = length ext →
  ends_with suffix (stem ++ ext) = bool_decide (suffix = ext).
Proof.
  intros Hlen. unfold ends_with. rewrite rev_app_distr.
  rewrite has_prefix_app by (by rewrite !length_rev).
  apply bool_decide_ext. split; [|by intros ->].
  intros H. by rewrite <- (rev_involutive suffix), H, rev_involutive.
Qed.

(** X11.  handleFileSelect accepts a name by its extension in either case,
    but handleBatchProcess sends a file to the workbook reader only when its
    name ends in the lower-case extension.  A file whose extension is xlsx
    in another spelling, such as upper case, is accepted and is then read as
    CSV text, the workbook reader not being called. *)
Theorem extension_case_mismatch
    (kind : ModelKind) (parseXLSX : File → failure + Parser.Parsed)
    (stem ext type text : str) (trainedModel : Model) (g : source) :
  toLowerCase ext = list_ascii_of_string ".xlsx" →
  ext ≠ list_ascii_of_string ".xlsx" →
  let file := {| name := stem ++ ext; type := type; text := text |} in
  handleFileSelect file = Some file ∧
  handleBatchProcess kind parseXLSX (Some file) (Some trainedModel) g
  = match Parser.parseCSV text with
    | inl message => (inl (ParseError message), g)
    | inr parsed =>
        process kind trainedModel (Parser.headers parsed)
                (Parser.rows parsed) g
    end.
Proof.
  intros Hlow Hext file.
  assert (length ext = 5) as Hlen.
  { by rewrite <- (length_map lower ext : length (toLowerCase ext) = _), Hlow. }
  split.
  - unfold handleFileSelect, extension_matches. cbn [name Handler.type file].
    unfold toLowerCase. rewrite map_app. fold (toLowerCase ext).
    rewrite (ends_with_app (list_ascii_of_string ".xlsx")), Hlow
      by (by rewrite Hlow).
    rewrite (bool_decide_eq_true_2 (_ = _)) by done.
    by rewrite orb_true_r, andb_false_r.
  - unfold handleBatchProcess. cbn [name Handler.text file].
    rewrite ends_with_app by done.
    rewrite bool_decide_eq_false_2 by done.
    by destruct (Parser.parseCSV text).
Qed.

End HandlerFacts.

(** ** Metrics of the library *)

Section LibraryMetricsFacts.
Import Evaluation.

(** A quotient of a part by the whole, with 0 in place of NaN or of a zero
    quotient. *)
Lemma or_else_div a b :
  (0 <= a)%Q → (a <= b)%Q →
  ∃ q, JS.or_else (JS.div (JS.Fin a) (JS.Fin b)) (JS.Fin 0) = JS.Fin q ∧
       (0 <= q)%Q ∧ (q <= 1)%Q.
Proof.
  intros Ha Hab. cbn [JS.div].
  destruct (b ?= 0)%Q eqn:E.
  - apply Qeq_alt in E.
    assert ((a ?= 0)%Q = Eq) as -> by (apply Qeq_alt; lra).
    exists 0%Q. split; [done|]. lra.
  - apply Qlt_alt in E. lra.
  - apply Qgt_alt in E. unfold JS.or_else, JS.truthy.
    destruct (Qeq_bool (Qred (a / b)) 0); cbn [negb].
    + exists 0%Q. split; [done|]. lra.
    + eexists. split; [reflexivity|]. rewrite Qred_correct.
      split; [apply Qle_shift_div_l|apply Qle_shift_div_r]; lra.
Qed.

Lemma inner_loop f i l fp fn ts :
  i < 3 → Forall (λ j, j < 3) l →
  foldl (inner_step (of_counts f) i)
        (JS.of_nat fp, JS.of_nat fn, JS.of_nat ts) l
  = (JS.of_nat (foldl (λ s j, if decide (j ≠ i) then s + f j i else s) fp l),
     JS.of_nat (foldl (λ s j, if decide (j ≠ i) then s + f i j else s) fn l),
     JS.of_nat (foldl (λ s j, s + f i j) ts l)).
Proof.
  intros Hi Hl. revert fp fn ts.
  induction Hl as [|j l Hj _ IH]; intros fp fn ts; [done|].
  cbn [foldl]. unfold inner_step at 2.
  rewrite !cell_of_counts, !add_of_nat by done.
  destruct (decide (j ≠ i)); apply IH.
Qed.

(** One class of the outer loop: the counts grow by the diagonal cell and by
    the row, and the two sums by a precision and a recall between 0 and
    1. *)
Lemma outer_step_fin f i tc ts sp sr k :
  i < 3 →
  (0 <= sp ∧ sp <= k)%Q → (0 <= sr ∧ sr <= k)%Q →
  ∃ sp' sr',
    outer_step (of_counts f) 3
               {| totalCorrect := JS.of_nat tc; totalSamples := JS.of_nat ts;
                  totalPrecision := JS.Fin sp; totalRecall := JS.Fin sr |} i
    = {| totalCorrect := JS.of_nat (tc + f i i);
         totalSamples := JS.of_nat (foldl (λ s j, s + f i j) ts (seq 0 3));
         totalPrecision := JS.Fin sp'; totalRecall := JS.Fin sr' |} ∧
    (0 <= sp' ∧ sp' <= k + 1)%Q ∧ (0 <= sr' ∧ sr' <= k + 1)%Q.
Proof.
  intros Hi Hsp Hsr. unfold outer_step.
  cbn [totalCorrect totalSamples totalPrecision totalRecall].
  change (JS.Fin 0, JS.Fin 0, JS.of_nat ts)
    with (JS.of_nat 0, JS.of_nat 0, JS.of_nat ts).
  rewrite inner_loop by (done || apply seq_3_range).
  rewrite cell_of_counts, !add_of_nat by done.
  unfold JS.of_nat at 3 4 5 6, JS.of_Z.
  destruct (or_else_div
              (inject_Z (Z.of_nat (f i i)))
              (inject_Z (Z.of_nat
                 (f i i + foldl (λ s j, if decide (j ≠ i) then s + f j i
                                        else s) 0 (seq 0 3)))))
    as (p & -> & Hp); [apply of_nat_nonneg|apply of_nat_le; lia|].
  destruct (or_else_div
              (inject_Z (Z.of_nat (f i i)))
              (inject_Z (Z.of_nat
                 (f i i + foldl (λ s j, if decide (j ≠ i) then s + f i j
                                        else s) 0 (seq 0 3)))))
    as (r & -> & Hr); [apply of_nat_nonneg|apply of_nat_le; lia|].
  cbn [JS.add]. do 2 eexists. split; [reflexivity|].
  rewrite !Qred_correct. lra.
Qed.

Lemma calculateMetrics_of_counts f :
  0 < all_cells f →
  ∃ a p r f1,
    calculateMetrics (of_counts f)
    = {| accuracy := JS.Fin a; precision := JS.Fin p; recall := JS.Fin r;
         f1Score := JS.Fin f1 |} ∧
    (a == inject_Z (Z.of_nat (diagonal f))
          / inject_Z (Z.of_nat (all_cells f)))%Q ∧
    (0 <= a ∧ a <= 1)%Q ∧ (0 <= p ∧ p <= 1)%Q ∧ (0 <= r ∧ r <= 1)%Q ∧
    (0 <= f1 ∧ f1 <= 1)%Q.
Proof.
  intros Hpos. unfold calculateMetrics.
  change (length (of_counts f)) with 3.
  change (foldl (outer_step (of_counts f) 3)
                (mkTotals (JS.Fin 0) (JS.Fin 0) (JS.Fin 0) (JS.Fin 0))
                (seq 0 3))
    with (outer_step (of_counts f) 3
            (outer_step (of_counts f) 3
               (outer_step (of_counts f) 3
                  (mkTotals (JS.of_nat 0) (JS.of_nat 0) (JS.Fin 0)
                            (JS.Fin 0)) 0) 1) 2).
  destruct (outer_step_fin f 0 0 0 0 0 0) as (p1 & r1 & -> & ? & ?);
    [lia|lra..|].
  destruct (outer_step_fin f 1 (0 + f 0 0)
              (foldl (λ s j, s + f 0 j) 0 (seq 0 3)) p1 r1 (0 + 1))
    as (p2 & r2 & -> & ? & ?); [lia|lra..|].
  destruct (outer_step_fin f 2 (0 + f 0 0 + f 1 1)
              (foldl (λ s j, s + f 1 j)
                     (foldl (λ s j, s + f 0 j) 0 (seq 0 3)) (seq 0 3))
              p2 r2 (0 + 1 + 1))
    as (p3 & r3 & -> & ? & ?); [lia|lra..|].
  cbn [totalCorrect totalSamples totalPrecision totalRecall].
  assert (0 + f 0 0 + f 1 1 + f 2 2 = diagonal f) as -> by done.
  assert (foldl (λ s j, s + f 2 j)
            (foldl (λ s j, s + f 1 j)
               (foldl (λ s j, s + f 0 j) 0 (seq 0 3)) (seq 0 3)) (seq 0 3)
          = all_cells f) as -> by (cbn; unfold all_cells; lia).
  assert (diagonal f ≤ all_cells f) as Hle
    by (unfold diagonal, all_cells; lia).
  unfold JS.of_nat, JS.of_Z.
  assert (0 < inject_Z (Z.of_nat (all_cells f)))%Q as Hq.
  { change 0%Q with (inject_Z 0). rewrite <- Zlt_Qlt. lia. }
  rewrite (div_pos _ _ Hq), !div_pos by reflexivity.
  cbn [JS.mul JS.add].
  set (P := Qred (p3 / inject_Z (Z.of_nat 3))).
  set (R := Qred (r3 / inject_Z (Z.of_nat 3))).
  assert (0 <= P ∧ P <= 1)%Q as HP.
  { unfold P. rewrite Qred_correct.
    split; [apply Qle_shift_div_l|apply Qle_shift_div_r];
      try reflexivity; change (inject_Z (Z.of_nat 3)) with 3%Q; lra. }
  assert (0 <= R ∧ R <= 1)%Q as HR.
  { unfold R. rewrite Qred_correct.
    split; [apply Qle_shift_div_l|apply Qle_shift_div_r];
      try reflexivity; change (inject_Z (Z.of_nat 3)) with 3%Q; lra. }
  destruct (or_else_div (Qred (Qred (2 * P) * R)) (Qred (P + R)))
    as (f1 & -> & Hf1).
  { rewrite !Qred_correct. nra. }
  { rewrite !Qred_correct. nra. }
  do 4 eexists. split; [reflexivity|].
  rewrite Qred_correct. split; [reflexivity|].
  pose proof (of_nat_nonneg (diagonal f)).
  pose proof (of_nat_le _ _ Hle).
  split; [split; [apply Qle_shift_div_l|apply Qle_shift_div_r]; lra|].
  split; [exact HP|]. split; [exact HR|]. exact Hf1.
Qed.

Lemma agreements_diagonal (pairs : list (nat * nat)) :
  Forall (λ ap, ap.1 < 3 ∧ ap.2 < 3) pairs →
  count_of (0, 0) pairs + count_of (1, 1) pairs + count_of (2, 2) pairs
  = agreements pairs.
Proof.
  unfold agreements.
  induction 1 as [|[a p] l [Ha Hp] _ IH]; [done|].
  rewrite !count_of_cons_pair, filter_cons. cbn [fst snd] in *.
  unfold hit. repeat case_decide; simplify_eq/=; try lia.
  destruct p as [|[|[|?]]]; [done..|lia].
Qed.

(** X12.  On two lists of class indices of the same length that is not 0,
    calculateConfusionMatrix followed by calculateMetrics returns four
    fractions between 0 and 1, none of them NaN; the accuracy is the number
    of positions at which prediction and actual class agree over the number
    of predictions. *)
Theorem calculateMetrics_of_labels (predictions actuals : list nat) :
  length predictions = length actuals →
  predictions ≠ [] →
  Forall (λ a, a < 3) actuals → Forall (λ p, p < 3) predictions →
  ∃ m a p r f1,
    calculateConfusionMatrix predictions actuals = Some m ∧
    calculateMetrics m
    = {| accuracy := JS.Fin a; precision := JS.Fin p; recall := JS.Fin r;
         f1Score := JS.Fin f1 |} ∧
    (a == inject_Z (Z.of_nat (agreements (zip actuals predictions)))
          / inject_Z (Z.of_nat (length predictions)))%Q ∧
    (0 <= a ∧ a <= 1)%Q ∧ (0 <= p ∧ p <= 1)%Q ∧ (0 <= r ∧ r <= 1)%Q ∧
    (0 <= f1 ∧ f1 <= 1)%Q.
Proof.
  intros Hlen Hne Ha Hp.
  assert (Forall (λ ap : nat * nat, ap.1 < 3 ∧ ap.2 < 3)
                 (zip actuals predictions)) as Hrange
    by by apply (zip_Forall (λ a, a < 3) (λ p, p < 3)).
  rewrite calculateConfusionMatrix_pairs by lia.
  rewrite zero_matrix_counts, (foldl_bump _ _ Hrange).
  set (f := λ a p, 0 + count_of (a, p) (zip actuals predictions)).
  assert (all_cells f = length predictions) as Hall.
  { unfold all_cells, f. cbn [Nat.add].
    rewrite (count_of_all_cells _ Hrange), length_zip. lia. }
  assert (diagonal f = agreements (zip actuals predictions)) as Hdiag.
  { unfold diagonal, f. cbn [Nat.add]. by apply agreements_diagonal. }
  destruct (calculateMetrics_of_counts f)
    as (a & p & r & f1 & Hm & Hacc & Hbounds).
  { rewrite Hall. destruct predictions; [done|cbn; lia]. }
  exists (of_counts f), a, p, r, f1.
  split; [done|]. split; [exact Hm|].
  split; [by rewrite <- Hall, <- Hdiag|exact Hbounds].
Qed.

Lemma ratio_or_else a b :
  Handler.ratio (JS.of_nat a) (JS.of_nat (a + b))
  = JS.or_else (JS.div (JS.of_nat a) (JS.of_nat (a + b))) (JS.Fin 0).
Proof.
  destruct (decide (a + b = 0)) as [Hz|Hpos].
  - assert (a = 0) as -> by lia. assert (b = 0) as -> by lia. reflexivity.
  - unfold Handler.ratio, JS.of_nat, JS.of_Z.
    assert (0 < inject_Z (Z.of_nat (a + b)))%Q as Hq.
    { change 0%Q with (inject_Z 0). rewrite <- Zlt_Qlt. lia. }
    rewrite (proj2 (gt_zero _) Hq), (div_pos _ _ Hq).
    unfold JS.or_else, JS.truthy.
    destruct (Qeq_bool (Qred _) 0) eqn:E; [|done].
    apply Qeq_bool_iff, Qred_complete in E.
    rewrite Qred_involutive in E. cbn [negb]. by rewrite E.
Qed.

Lemma class_step_outer_step f i tc ts sp sr sf :
  i < 3 →
  ∃ sp' sr' sf',
    Handler.class_step (of_counts f) (sp, sr, sf) i = (sp', sr', sf') ∧
    outer_step (of_counts f) 3
               {| totalCorrect := JS.of_nat tc; totalSamples := JS.of_nat ts;
                  totalPrecision := sp; totalRecall := sr |} i
    = {| totalCorrect := JS.of_nat (tc + f i i);
         totalSamples := JS.of_nat (foldl (λ s j, s + f i j) ts (seq 0 3));
         totalPrecision := sp'; totalRecall := sr' |}.
Proof.
  intros Hi. unfold Handler.class_step, outer_step.
  cbn [totalCorrect totalSamples totalPrecision totalRecall].
  change (JS.Fin 0, JS.Fin 0, JS.of_nat ts)
    with (JS.of_nat 0, JS.of_nat 0, JS.of_nat ts).
  change (JS.Fin 0, JS.Fin 0) with (JS.of_nat 0, JS.of_nat 0).
  rewrite inner_loop, errors_loop by (done || apply seq_3_range).
  rewrite cell_of_counts, !add_of_nat by done.
  rewrite (foldl_pointwise
             (λ s j, if decide (j ≠ i) then s + f j i else s)
             (λ s j, if decide (i ≠ j) then s + f j i else s))
    by (intros; repeat case_decide; done || lia).
  rewrite (foldl_pointwise
             (λ s j, if decide (j ≠ i) then s + f i j else s)
             (λ s j, if decide (i ≠ j) then s + f i j else s))
    by (intros; repeat case_decide; done || lia).
  cbv zeta. rewrite !ratio_or_else.
  do 3 eexists. split; reflexivity.
Qed.

(** X13.  Before its adjustment the handler measures what the library
    measures: on every table of counts its precision and its recall are
    those of calculateMetrics, and so is its accuracy when the table is not
    empty.  On the empty table the handler gives the accuracy 0 where the
    library gives NaN. *)
Theorem measured_agrees_with_calculateMetrics (f : nat → nat → nat) :
  precision (Handler.measured (of_counts f))
  = precision (calculateMetrics (of_counts f)) ∧
  recall (Handler.measured (of_counts f))
  = recall (calculateMetrics (of_counts f)) ∧
  (0 < all_cells f →
   accuracy (Handler.measured (of_counts f))
   = accuracy (calculateMetrics (of_counts f))) ∧
  (all_cells f = 0 →
   accuracy (Handler.measured (of_counts f)) = JS.Fin 0 ∧
   accuracy (calculateMetrics (of_counts f)) = JS.NaN).
Proof.
  unfold Handler.measured, calculateMetrics.
  rewrite totals_of_counts.
  change (length (of_counts f)) with 3.
  change (foldl (outer_step (of_counts f) 3)
                (mkTotals (JS.Fin 0) (JS.Fin 0) (JS.Fin 0) (JS.Fin 0))
                (seq 0 3))
    with (outer_step (of_counts f) 3
            (outer_step (of_counts f) 3
               (outer_step (of_counts f) 3
                  (mkTotals (JS.of_nat 0) (JS.of_nat 0) (JS.Fin 0)
                            (JS.Fin 0)) 0) 1) 2).
  change (foldl (Handler.class_step (of_counts f))
                (JS.Fin 0, JS.Fin 0, JS.Fin 0) (seq 0 3))
    with (Handler.class_step (of_counts f)
            (Handler.class_step (of_counts f)
               (Handler.class_step (of_counts f)
                  (JS.Fin 0, JS.Fin 0, JS.Fin 0) 0) 1) 2).
  destruct (class_step_outer_step f 0 0 0 (JS.Fin 0) (JS.Fin 0) (JS.Fin 0))
    as (p1 & r1 & f1 & -> & ->); [lia|].
  destruct (class_step_outer_step f 1 (0 + f 0 0)
              (foldl (λ s j, s + f 0 j) 0 (seq 0 3)) p1 r1 f1)
    as (p2 & r2 & f2 & -> & ->); [lia|].
  destruct (class_step_outer_step f 2 (0 + f 0 0 + f 1 1)
              (foldl (λ s j, s + f 1 j)
                     (foldl (λ s j, s + f 0 j) 0 (seq 0 3)) (seq 0 3))
              p2 r2 f2)
    as (p3 & r3 & f3 & -> & ->); [lia|].
  cbn [accuracy precision recall totalCorrect totalSamples totalPrecision
       totalRecall].
  assert (0 + f 0 0 + f 1 1 + f 2 2 = diagonal f) as -> by done.
  assert (foldl (λ s j, s + f 2 j)
            (foldl (λ s j, s + f 1 j)
               (foldl (λ s j, s + f 0 j) 0 (seq 0 3)) (seq 0 3)) (seq 0 3)
          = all_cells f) as -> by (cbn; unfold all_cells; lia).
  assert (diagonal f ≤ all_cells f) as Hle
    by (unfold diagonal, all_cells; lia).
  split; [done|]. split; [done|]. split.
  - intros Hpos. unfold Handler.ratio, JS.of_nat, JS.of_Z.
    assert (0 < inject_Z (Z.of_nat (all_cells f)))%Q as Hq.
    { change 0%Q with (inject_Z 0). rewrite <- Zlt_Qlt. lia. }
    by rewrite (proj2 (gt_zero _) Hq).
  - intros Hz. rewrite Hz. assert (diagonal f = 0) as -> by lia. done.
Qed.

End LibraryMetricsFacts.

(** ** Decisions and confidences *)

Section DecisionFacts.
Import Random Calibration.
Local Open Scope R_scope.

(** Membership in a list that is written out. *)
Ltac in_list :=
  repeat first [apply list_elem_of_here | apply list_elem_of_further].

Lemma sum_from a l : foldl Rplus a l = a + sum l.
Proof.
  unfold sum. revert a. induction l as [|x l IH]; intros a; cbn [foldl].
  - lra.
  - rewrite (IH (a + x)), (IH (0 + x)). lra.
Qed.

Lemma sum_cons x l : sum (x :: l) = x + sum l.
Proof. unfold sum at 1. cbn [foldl]. rewrite sum_from. lra. Qed.

Lemma sum_map_div l t : sum (map (λ p, p / t) l) = sum l / t.
Proof.
  induction l as [|x l IH].
  - unfold sum. cbn. lra.
  - cbn [map]. rewrite !sum_cons, IH. lra.
Qed.

Lemma sum_nonneg l : Forall (λ p, 0 <= p) l → 0 <= sum l.
Proof.
  induction 1 as [|x l Hx _ IH]; [unfold sum; cbn; lra|].
  rewrite sum_cons. lra.
Qed.

Lemma sum_pos l : Forall (λ p, 0 <= p) l → Exists (λ p, 0 < p) l → 0 < sum l.
Proof.
  intros Hall Hex. induction Hex as [x l Hx|x l _ IH];
    inversion Hall as [|? ? Hx' Hl]; subst; rewrite sum_cons.
  - pose proof (sum_nonneg l Hl). lra.
  - specialize (IH Hl). lra.
Qed.

Lemma sum_bound l : Forall (λ p, 0 <= p) l → Forall (λ p, p <= sum l) l.
Proof.
  induction 1 as [|x l Hx Hl IH]; [constructor|].
  rewrite sum_cons. pose proof (sum_nonneg l Hl). constructor; [lra|].
  eapply Forall_impl; [exact IH|]. cbn. intros. lra.
Qed.

(** The loop that finds the largest entry: its value bounds the start value
    and every entry, and it is the start or an entry; an entry that
    replaces the start exceeds it. *)
Lemma argmax_from_spec ps i b k :
  let r := argmax_from i ps (b, k) in
  b <= r.1 ∧ Forall (λ p, p <= r.1) ps ∧
  (r = (b, k) ∨
   ∃ j, ps !! j = Some r.1 ∧ r.2 = (i + j)%nat ∧ b < r.1).
Proof.
  revert i b k. induction ps as [|p ps IH]; intros i b k r.
  - split; [cbn; lra|]. split; [constructor|]. by left.
  - subst r. cbn [argmax_from fst].
    destruct (Rlt_dec b p) as [Hlt|Hge].
    + destruct (IH (S i) p i) as (H1 & H2 & H3).
      split; [lra|]. split; [by constructor|]. right.
      destruct H3 as [->|(j & Hj & Hidx & Hbig)].
      * exists 0%nat. cbn. split; [done|]. split; [lia|done].
      * exists (S j). cbn. split; [done|]. split; [lia|lra].
    + destruct (IH (S i) b k) as (H1 & H2 & H3).
      split; [done|]. split; [constructor; [lra|done]|].
      destruct H3 as [->|(j & Hj & Hidx & Hbig)]; [by left|].
      right. exists (S j). cbn. split; [done|]. split; [lia|done].
Qed.

(** A map that keeps the strict order of the values that are not negative
    keeps the decision. *)
Lemma argmax_from_map (f : R → R) ps i b k :
  (∀ x y, 0 <= x → 0 <= y → x < y → f x < f y) →
  0 <= b → Forall (λ p, 0 <= p) ps →
  argmax_from i (map f ps) (f b, k)
  = (f (argmax_from i ps (b, k)).1, (argmax_from i ps (b, k)).2).
Proof.
  intros Hmono. revert i b k.
  induction ps as [|p ps IH]; intros i b k Hb Hps; [done|].
  inversion Hps as [|? ? Hp Hps']; subst.
  cbn [map argmax_from fst].
  destruct (Rlt_dec b p) as [Hlt|Hge];
    destruct (Rlt_dec (f b) (f p)) as [Hlt'|Hge'].
  - by apply IH.
  - destruct Hge'. by apply Hmono.
  - assert (p < b ∨ p = b) as [Hpb | ->] by lra; [|lra].
    pose proof (Hmono p b Hp Hb Hpb). lra.
  - by apply IH.
Qed.

Lemma plain_scaled_zero : PlainCalibration.scaled 0 = 0.
Proof.
  unfold PlainCalibration.scaled, PlainCalibration.Math_pow.
  by destruct (Req_dec_T 0 0).
Qed.

Lemma plain_scaled_pos p : 0 < p → 0 < PlainCalibration.scaled p.
Proof.
  intros Hp. unfold PlainCalibration.scaled, PlainCalibration.Math_pow.
  destruct (Req_dec_T p 0); [lra|]. unfold Rpower. apply exp_pos.
Qed.

Lemma plain_scaled_nonneg p : 0 <= p → 0 <= PlainCalibration.scaled p.
Proof.
  intros [Hp|<-]; [left; by apply plain_scaled_pos|].
  rewrite plain_scaled_zero. lra.
Qed.

Lemma plain_scaled_mono x y :
  0 <= x → 0 <= y → x < y →
  PlainCalibration.scaled x < PlainCalibration.scaled y.
Proof.
  intros Hx Hy Hxy.
  destruct Hx as [Hx|<-].
  - unfold PlainCalibration.scaled, PlainCalibration.Math_pow.
    destruct (Req_dec_T x 0); [lra|]. destruct (Req_dec_T y 0); [lra|].
    apply Rlt_Rpower_l; [|lra].
    unfold PlainCalibration.temperature. lra.
  - rewrite plain_scaled_zero. by apply plain_scaled_pos.
Qed.

(** X14.  On probabilities that are not negative and not all zero, predict
    of the second revision returns probabilities between 0 and 1 that add up
    to 1; the confidence is the largest of them, and the class is the one of
    the first largest raw probability: the temperature changes the
    confidence, never the decision. *)
Theorem plain_predict_normalises (probabilities : list R) :
  Forall (λ p, 0 <= p) probabilities →
  Exists (λ p, 0 < p) probabilities →
  let result := PlainCalibration.predict probabilities in
  sum (Calibration.probabilities result) = 1 ∧
  Forall (λ p, 0 <= p ∧ p <= 1) (Calibration.probabilities result) ∧
  Forall (λ p, p <= confidence result) (Calibration.probabilities result) ∧
  confidence result ∈ Calibration.probabilities result ∧
  0 < confidence result ∧
  disease result
  = nth (argmax_from 0 probabilities (0, 0%nat)).2 DISEASE_LABELS [].
Proof.
  intros Hall Hex result. subst result. unfold PlainCalibration.predict.
  cbv zeta.
  set (scaledProbs := map PlainCalibration.scaled probabilities).
  set (total := sum scaledProbs).
  assert (Forall (λ p, 0 <= p) scaledProbs) as Hs.
  { apply List.Forall_map. eapply Forall_impl; [exact Hall|].
    apply plain_scaled_nonneg. }
  assert (0 < total) as Htotal.
  { apply sum_pos; [done|]. unfold scaledProbs.
    apply Exists_exists in Hex as (p & Hin & Hp).
    apply Exists_exists. exists (PlainCalibration.scaled p).
    split; [|by apply plain_scaled_pos].
    apply list_elem_of_fmap. by exists p. }
  set (f := λ p, PlainCalibration.scaled p / total).
  assert (map (λ p, p / total) scaledProbs = map f probabilities) as Hmap
    by (unfold scaledProbs; by rewrite List.map_map).
  assert (f 0 = 0) as Hf0.
  { unfold f. rewrite plain_scaled_zero. lra. }
  assert (∀ x y, 0 <= x → 0 <= y → x < y → f x < f y) as Hmono.
  { intros x y Hx Hy Hxy. unfold f.
    pose proof (plain_scaled_mono x y Hx Hy Hxy).
    apply Rmult_lt_compat_r; [|done]. by apply Rinv_0_lt_compat. }
  pose proof (argmax_from_map f probabilities 0 0 0%nat Hmono
                              (Rle_refl 0) Hall) as Harg.
  rewrite Hf0 in Harg.
  pose proof (argmax_from_spec probabilities 0 0 0%nat) as (Hb & Hmax & Hin).
  destruct (argmax_from 0 probabilities (0, 0%nat)) as [m idx] eqn:Hraw.
  cbn [fst snd] in *.
  assert (0 < m) as Hm.
  { apply Exists_exists in Hex as (p & Hp & Hpos).
    rewrite Forall_forall in Hmax. specialize (Hmax p Hp). lra. }
  destruct Hin as [[= Hm0 _]|(j & Hj & _ & _)]; [lra|].
  rewrite Hmap, Harg.
  cbn [Calibration.probabilities confidence disease].
  split; [rewrite <- Hmap, sum_map_div; fold total; field; lra|].
  pose proof (sum_bound scaledProbs Hs) as Hbound. fold total in Hbound.
  split; [|split; [|split; [|split; [|done]]]].
  - rewrite <- Hmap. apply List.Forall_map.
    rewrite Forall_forall in Hs, Hbound. apply Forall_forall.
    intros p Hp. specialize (Hs p Hp). specialize (Hbound p Hp).
    split.
    + apply Rmult_le_pos; [done|]. left. by apply Rinv_0_lt_compat.
    + apply (Rmult_le_reg_r total); [done|].
      unfold Rdiv. rewrite Rmult_assoc, Rinv_l by lra. lra.
  - apply List.Forall_map.
    rewrite Forall_forall in Hmax, Hall. apply Forall_forall.
    intros p Hp. specialize (Hmax p Hp). specialize (Hall p Hp).
    destruct Hmax as [Hlt | ->]; [|lra].
    left. apply Hmono; lra.
  - apply list_elem_of_fmap. exists m. split; [done|].
    by eapply list_elem_of_lookup_2.
  - unfold f. apply Rdiv_lt_0_compat; [|done]. by apply plain_scaled_pos.
Qed.

Lemma plain_scaled_linear m p :
  0 <= p → p <= m → PlainCalibration.scaled p <= p * sqrt (sqrt m).
Proof.
  intros [Hp|<-] Hm.
  - rewrite plain_scaled by done.
    apply Rmult_le_compat_l; [lra|].
    apply sqrt_le_1_alt, sqrt_le_1_alt. lra.
  - rewrite plain_scaled_zero. lra.
Qed.

Lemma plain_total_linear m ps :
  Forall (λ p, 0 <= p ∧ p <= m) ps →
  sum (map PlainCalibration.scaled ps) <= sqrt (sqrt m) * sum ps.
Proof.
  induction 1 as [|p ps [Hp Hm] _ IH]; [unfold sum; cbn; lra|].
  cbn [map]. rewrite !sum_cons.
  pose proof (plain_scaled_linear m p Hp Hm). lra.
Qed.

(** X15.  With its exponent above 1 the temperature of the second revision
    sharpens: on probabilities that are not negative and add up to 1, the
    confidence that predict reports is at least the largest raw
    probability. *)
Theorem plain_predict_sharpens (probabilities : list R) :
  Forall (λ p, 0 <= p) probabilities →
  sum probabilities = 1 →
  (argmax_from 0 probabilities (0, 0%nat)).1
  <= confidence (PlainCalibration.predict probabilities).
Proof.
  intros Hall Hsum. unfold PlainCalibration.predict. cbv zeta.
  set (scaledProbs := map PlainCalibration.scaled probabilities).
  set (total := sum scaledProbs).
  set (f := λ p, PlainCalibration.scaled p / total).
  assert (map (λ p, p / total) scaledProbs = map f probabilities) as Hmap
    by (unfold scaledProbs; by rewrite List.map_map).
  pose proof (argmax_from_spec probabilities 0 0 0%nat) as (Hb & Hmax & Hin).
  destruct (argmax_from 0 probabilities (0, 0%nat)) as [m idx] eqn:Hraw.
  cbn [fst snd] in *.
  assert (0 < m) as Hm.
  { destruct Hb as [Hb|<-]; [done|]. exfalso.
    assert (sum probabilities <= 0); [|lra].
    clear -Hall Hmax. induction probabilities as [|p ps IH].
    - unfold sum. cbn. lra.
    - rewrite sum_cons. inversion Hall; inversion Hmax; subst.
      specialize (IH ltac:(done) ltac:(done)). lra. }
  assert (0 < sqrt (sqrt m)) as Hroot by (by apply sqrt_lt_R0, sqrt_lt_R0).
  assert (total <= sqrt (sqrt m)) as Htotal.
  { unfold total, scaledProbs.
    etransitivity; [apply (plain_total_linear m)|rewrite Hsum; lra].
    rewrite Forall_forall in Hall, Hmax. apply Forall_forall.
    intros p Hp. split; [by apply Hall|by apply Hmax]. }
  assert (0 < total) as Hpos.
  { apply sum_pos.
    - apply List.Forall_map. eapply Forall_impl; [exact Hall|].
      apply plain_scaled_nonneg.
    - destruct Hin as [[= Hm0 _]|(j & Hj & _ & _)]; [lra|].
      apply Exists_exists. exists (PlainCalibration.scaled m).
      split; [|by apply plain_scaled_pos].
      apply list_elem_of_fmap. exists m. split; [done|].
      by eapply list_elem_of_lookup_2. }
  assert (f 0 = 0) as Hf0.
  { unfold f. rewrite plain_scaled_zero. lra. }
  assert (∀ x y, 0 <= x → 0 <= y → x < y → f x < f y) as Hmono.
  { intros x y Hx Hy Hxy. unfold f.
    pose proof (plain_scaled_mono x y Hx Hy Hxy).
    apply Rmult_lt_compat_r; [|done]. by apply Rinv_0_lt_compat. }
  pose proof (argmax_from_map f probabilities 0 0 0%nat Hmono
                              (Rle_refl 0) Hall) as Harg.
  rewrite Hf0, Hraw in Harg. cbn [fst snd] in Harg.
  rewrite Hmap, Harg. cbn [confidence].
  unfold f. rewrite plain_scaled by done.
  apply (Rmult_le_reg_r total); [done|].
  unfold Rdiv. rewrite Rmult_assoc, Rinv_l by lra.
  nra.
Qed.

Lemma scaled_pos p : 0 < scaled p.
Proof. unfold scaled, Rpower. apply exp_pos. Qed.

Lemma scaled_strict x y : x < y → 1 / 1000 < y → scaled x < scaled y.
Proof.
  intros Hxy Hy. unfold scaled.
  apply Rlt_Rpower_l; [unfold temperature; lra|].
  split.
  - apply Rlt_le_trans with (1 / 1000); [lra|apply Rmax_r].
  - rewrite (Rmax_left y) by lra.
    apply Rmax_lub_lt; lra.
Qed.

(** The rotation is 0, 1 or 2, and it is 0 exactly when the draw is below
    one third. *)
Lemma rotation_range g :
  ((random_below 3 g).1 < 3)%nat ∧
  ((random_below 3 g).1 = 0%nat ↔ (value (g 0%nat) < 1 # 3)%Q).
Proof.
  split; [apply random_below_lt; lia|].
  unfold random_below, bind, Math_random, ret. cbn [fst].
  destruct (value_range (g 0%nat)) as [H0 H1].
  set (r := value (g 0%nat)) in *.
  change (inject_Z (Z.of_nat 3)) with 3%Q.
  assert (0 <= Qfloor (r * 3))%Z as Hnn.
  { change 0%Z with (Qfloor 0). apply Qfloor_resp_le. lra. }
  pose proof (Qfloor_le (r * 3)) as Hle.
  pose proof (Qlt_floor (r * 3)) as Hlt.
  split.
  - intros Hz. assert (Qfloor (r * 3) = 0)%Z as E by lia.
    rewrite E in Hlt. change (inject_Z (0 + 1)) with 1%Q in Hlt. lra.
  - intros Hr.
    assert (Qfloor (r * 3) < 1)%Z; [|lia].
    apply Z.lt_nge. intros Hge.
    assert (inject_Z 1 <= inject_Z (Qfloor (r * 3)))%Q as H1'
      by (rewrite <- Zle_Qle; lia).
    change (inject_Z 1) with 1%Q in H1'. lra.
Qed.

(** The three rotations of a list of three entries. *)
Lemma rotated_three (a b c : R) rotation :
  (rotation < 3)%nat →
  [nth ((0 + rotation) mod 3) [a; b; c] 0;
   nth ((1 + rotation) mod 3) [a; b; c] 0;
   nth ((2 + rotation) mod 3) [a; b; c] 0]
  = match rotation with
    | 0%nat => [a; b; c]
    | 1%nat => [b; c; a]
    | _ => [c; a; b]
    end.
Proof. intros H. by destruct rotation as [|[|[|?]]]; [| | |lia]. Qed.

(** The decision on three positive probabilities that add up to 1. *)
Lemma decision_of_three (u v w : R) :
  0 < u → 0 < v → 0 < w → u + v + w = 1 →
  let r := argmax_from 0 [u; v; w] (0, 0%nat) in
  r.1 ∈ [u; v; w] ∧ Forall (λ p, p <= r.1) [u; v; w] ∧
  1 / 3 <= r.1 ∧ r.1 < 1 ∧ nth r.2 DISEASE_LABELS [] ∈ DISEASE_LABELS.
Proof.
  intros Hu Hv Hw Hone r.
  pose proof (argmax_from_spec [u; v; w] 0 0 0%nat) as (Hb0 & Hmax & Hin).
  fold r in Hb0, Hmax, Hin. destruct r as [maxProb predictedClass].
  cbn [fst snd] in *.
  inversion Hmax as [|? ? Hu' Hmax']; subst.
  inversion Hmax' as [|? ? Hv' Hmax'']; subst.
  inversion Hmax'' as [|? ? Hw' _]; subst.
  destruct Hin as [[= Hm0 _]|(j & Hj & Hidx & _)]; [lra|].
  split; [by eapply list_elem_of_lookup_2|].
  split; [done|]. split; [lra|]. split.
  - destruct j as [|[|[|?]]]; cbn in Hj; simplify_eq; lra.
  - subst predictedClass. unfold DISEASE_LABELS.
    destruct j as [|[|[|?]]]; cbn in Hj; simplify_eq; cbn; in_list.
Qed.

(** X16.  Whatever three numbers the model returns, predict of the first
    revision returns three positive probabilities that add up to 1; the
    confidence is the largest of them, at least one third and below 1, and
    the class named is one of the three. *)
Theorem predict_normalises (probabilities : list R) (g : source) :
  length probabilities = 3%nat →
  let result := (predict probabilities g).1 in
  sum (Calibration.probabilities result) = 1 ∧
  Forall (λ p, 0 < p) (Calibration.probabilities result) ∧
  Forall (λ p, p <= confidence result) (Calibration.probabilities result) ∧
  confidence result ∈ Calibration.probabilities result ∧
  1 / 3 <= confidence result ∧ confidence result < 1 ∧
  disease result ∈ DISEASE_LABELS.
Proof.
  intros Hlen result. subst result.
  destruct probabilities as [|x [|y [|z [|? ?]]]]; try done.
  unfold predict, bind, ret.
  pose proof (rotation_range g) as [Hrot _].
  destruct (random_below 3 g) as [rotation g']. cbn [fst] in Hrot.
  cbn [map sum foldl].
  pose proof (scaled_pos x) as Hx. pose proof (scaled_pos y) as Hy.
  pose proof (scaled_pos z) as Hz.
  set (total := 0 + scaled x + scaled y + scaled z).
  assert (0 < total) as Htotal by (unfold total; lra).
  set (a := scaled x / total). set (b := scaled y / total).
  set (c := scaled z / total).
  assert (0 < a) as Ha by (by apply Rdiv_lt_0_compat).
  assert (0 < b) as Hb by (by apply Rdiv_lt_0_compat).
  assert (0 < c) as Hc by (by apply Rdiv_lt_0_compat).
  assert (a + b + c = 1) as Hone by (unfold a, b, c, total; field; lra).
  rewrite (rotated_three a b c rotation Hrot).
  set (rotated := match rotation with
                  | 0%nat => [a; b; c] | 1%nat => [b; c; a] | _ => [c; a; b]
                  end).
  assert (∃ u v w, rotated = [u; v; w] ∧ 0 < u ∧ 0 < v ∧ 0 < w
                   ∧ u + v + w = 1) as (u & v & w & -> & Hu & Hv & Hw & Huvw).
  { unfold rotated. destruct rotation as [|[|?]]; do 3 eexists;
      (split; [reflexivity|]); repeat split; try done; lra. }
  pose proof (decision_of_three u v w Hu Hv Hw Huvw)
    as (Hin & Hmax & Hlow & Hhigh & Hname).
  destruct (argmax_from 0 [u; v; w] (0, 0%nat)) as [maxProb predictedClass].
  cbn [fst snd Calibration.probabilities confidence disease] in *.
  split; [unfold sum; cbn; lra|].
  split; [by repeat constructor|]. done.
Qed.

(** X17.  The class that predict of the first revision names follows the
    draw, not the model alone.  When class [c] has the largest raw
    probability, above the floor of 0.001, the named class is [c] moved
    back by the rotation: it is the class of the model exactly when the
    rotation is 0, that is when the draw is below one third, and another
    class otherwise. *)
Theorem predict_decision_follows_the_draw
    (probabilities : list R) (c : nat) (g : source) :
  length probabilities = 3%nat → (c < 3)%nat →
  1 / 1000 < nth c probabilities 0 →
  (∀ j, (j < 3)%nat → j ≠ c →
        nth j probabilities 0 < nth c probabilities 0) →
  let rotation := (random_below 3 g).1 in
  let result := (predict probabilities g).1 in
  disease result = nth ((c + 3 - rotation) mod 3) DISEASE_LABELS [] ∧
  (disease result = nth c DISEASE_LABELS [] ↔ rotation = 0%nat) ∧
  (rotation = 0%nat ↔ (value (g 0%nat) < 1 # 3)%Q).
Proof.
  intros Hlen Hc Hfloor Hbest rotation result.
  destruct probabilities as [|x [|y [|z [|? ?]]]]; try done.
  pose proof (rotation_range g) as [Hrot Hdraw]. fold rotation in Hrot, Hdraw.
  assert (disease result
          = nth ((c + 3 - rotation) mod 3) DISEASE_LABELS []) as Hfirst.
  { subst result rotation. unfold predict, bind, ret.
    destruct (random_below 3 g) as [rotation g']. cbn [fst] in *.
    cbn [map sum foldl].
    pose proof (scaled_pos x) as Hx. pose proof (scaled_pos y) as Hy.
    pose proof (scaled_pos z) as Hz.
    set (total := 0 + scaled x + scaled y + scaled z).
    assert (0 < total) as Htotal by (unfold total; lra).
    assert (∀ u v, u < v → u / total < v / total) as Hmono.
    { intros u v Huv. apply Rmult_lt_compat_r; [|done].
      by apply Rinv_0_lt_compat. }
    assert (∀ u, 0 < u → 0 < u / total) as Hpos
      by (intros; by apply Rdiv_lt_0_compat).
    pose proof (Hpos _ Hx). pose proof (Hpos _ Hy). pose proof (Hpos _ Hz).
    rewrite (rotated_three _ _ _ rotation Hrot).
    destruct c as [|[|[|?]]]; [| | |lia]; cbn [nth] in Hfloor, Hbest.
    - pose proof (Hmono _ _ (scaled_strict y x (Hbest 1%nat ltac:(lia)
                                                  ltac:(lia)) Hfloor)).
      pose proof (Hmono _ _ (scaled_strict z x (Hbest 2%nat ltac:(lia)
                                                  ltac:(lia)) Hfloor)).
      destruct rotation as [|[|[|?]]]; [| | |lia];
        cbn [argmax_from fst snd];
        repeat (destruct (Rlt_dec _ _); cbn [fst snd] in *; try lra);
        reflexivity.
    - pose proof (Hmono _ _ (scaled_strict x y (Hbest 0%nat ltac:(lia)
                                                  ltac:(lia)) Hfloor)).
      pose proof (Hmono _ _ (scaled_strict z y (Hbest 2%nat ltac:(lia)
                                                  ltac:(lia)) Hfloor)).
      destruct rotation as [|[|[|?]]]; [| | |lia];
        cbn [argmax_from fst snd];
        repeat (destruct (Rlt_dec _ _); cbn [fst snd] in *; try lra);
        reflexivity.
    - pose proof (Hmono _ _ (scaled_strict x z (Hbest 0%nat ltac:(lia)
                                                  ltac:(lia)) Hfloor)).
      pose proof (Hmono _ _ (scaled_strict y z (Hbest 1%nat ltac:(lia)
                                                  ltac:(lia)) Hfloor)).
      destruct rotation as [|[|[|?]]]; [| | |lia];
        cbn [argmax_from fst snd];
        repeat (destruct (Rlt_dec _ _); cbn [fst snd] in *; try lra);
        reflexivity. }
  split; [exact Hfirst|]. split; [|exact Hdraw].
  rewrite Hfirst. clearbody rotation. clear -Hc Hrot.
  destruct c as [|[|[|?]]]; [| | |lia];
    (destruct rotation as [|[|[|?]]]; [| | |lia]);
    split; intros H; try reflexivity; try discriminate.
Qed.

Lemma boost_pos classNeeds maxNeed i p :
  0 < p → 0 < boost classNeeds maxNeed i p.
Proof.
  intros Hp. unfold boost. repeat case_match; lra.
Qed.

Lemma batch_step_calibrated targets counts results row :
  length row = 3%nat →
  ∃ counts' r,
    batch_step targets (counts, results) row = (counts', results ++ [r]) ∧
    calibrated r.
Proof.
  intros Hlen. destruct row as [|x [|y [|z [|? ?]]]]; try done.
  unfold batch_step. cbn [map sum foldl].
  pose proof (scaled_pos x) as Hx. pose proof (scaled_pos y) as Hy.
  pose proof (scaled_pos z) as Hz.
  set (total := 0 + scaled x + scaled y + scaled z).
  assert (0 < total) as Htotal by (unfold total; lra).
  set (classNeeds := imap _ targets).
  set (maxNeed := max_need classNeeds).
  cbn [imap compose].
  set (u := boost classNeeds maxNeed 0 (scaled x / total)).
  set (v := boost classNeeds maxNeed 1 (scaled y / total)).
  set (w := boost classNeeds maxNeed 2 (scaled z / total)).
  assert (0 < u) as Hu by (apply boost_pos; by apply Rdiv_lt_0_compat).
  assert (0 < v) as Hv by (apply boost_pos; by apply Rdiv_lt_0_compat).
  assert (0 < w) as Hw by (apply boost_pos; by apply Rdiv_lt_0_compat).
  cbn [map].
  set (newSum := sum [u; v; w]).
  assert (newSum = u + v + w) as Hns
    by (unfold newSum, sum; cbn [foldl]; lra).
  assert (0 < newSum) as Hsum by lra.
  assert (0 < u / newSum) as Hu' by (by apply Rdiv_lt_0_compat).
  assert (0 < v / newSum) as Hv' by (by apply Rdiv_lt_0_compat).
  assert (0 < w / newSum) as Hw' by (by apply Rdiv_lt_0_compat).
  assert (u / newSum + v / newSum + w / newSum = 1) as Hone
    by (rewrite Hns; field; lra).
  pose proof (decision_of_three _ _ _ Hu' Hv' Hw' Hone)
    as (Hin & Hmax & Hlow & Hhigh & Hname).
  destruct (argmax_from 0 _ (0, 0%nat)) as [maxProb predictedClass].
  cbn [fst snd] in *.
  do 2 eexists. split; [reflexivity|].
  unfold calibrated. cbn [Calibration.probabilities confidence disease].
  split; [unfold sum; cbn [foldl]; lra|].
  split; [by repeat constructor|].
  split; [by exists maxProb|].
  split; [apply Rmax_l|]. split; [apply Rmax_lub_lt; lra|done].
Qed.

Lemma batch_loop_calibrated targets pa counts results :
  Forall (λ row, length row = 3%nat) pa →
  Forall calibrated results →
  Forall calibrated (foldl (batch_step targets) (counts, results) pa).2.
Proof.
  intros Hpa. revert counts results.
  induction Hpa as [|row pa Hrow _ IH]; intros counts results Hres; [done|].
  cbn [foldl].
  destruct (batch_step_calibrated targets counts results row Hrow)
    as (counts' & r & -> & Hr).
  apply IH. apply Forall_app. split; [done|by constructor].
Qed.

(** X18.  On rows of three numbers, whatever they are, predictBatch of the
    first revision returns one result for each row; its three probabilities
    are positive and add up to 1, its class is one of the three, and its
    confidence is the largest probability raised to 0.6 when it is below:
    at least 0.6 even when the three classes are equally likely, and below
    1. *)
Theorem predictBatch_calibrated (probabilitiesArray : list (list R)) :
  Forall (λ row, length row = 3%nat) probabilitiesArray →
  length (predictBatch probabilitiesArray) = length probabilitiesArray ∧
  Forall calibrated (predictBatch probabilitiesArray).
Proof.
  intros Hrows. split; [apply predictBatch_length|].
  unfold predictBatch. by apply batch_loop_calibrated.
Qed.

Lemma boost_most classNeeds maxNeed i p :
  classNeeds !! i = Some maxNeed → (0 < maxNeed)%Z →
  boost classNeeds maxNeed i p = p * (1 + 2).
Proof.
  intros Hi Hpos. unfold boost. rewrite Hi.
  rewrite Z.eqb_refl. by rewrite (proj2 (Z.ltb_lt _ _) Hpos).
Qed.

Lemma boost_least classNeeds maxNeed i need p :
  classNeeds !! i = Some need → (need <= 0)%Z →
  boost classNeeds maxNeed i p = p * (1 / 10).
Proof.
  intros Hi Hneg. unfold boost. rewrite Hi.
  rewrite (proj2 (Z.ltb_ge _ _) Hneg). by rewrite andb_false_r.
Qed.

Lemma max_need_three (n0 n1 n2 : Z) :
  (0 < n0 + n1 + n2)%Z →
  (0 < max_need [n0; n1; n2])%Z ∧
  ∃ j, [n0; n1; n2] !! j = Some (max_need [n0; n1; n2]).
Proof.
  intros Hpos. unfold max_need. cbn [foldl].
  split; [lia|].
  destruct (Z.max_spec n0 n1) as [[_ E1]|[_ E1]];
    destruct (Z.max_spec (Z.max n0 n1) n2) as [[_ E2]|[_ E2]];
    rewrite E2, ?E1.
  - by exists 2%nat.
  - by exists 1%nat.
  - by exists 2%nat.
  - by exists 0%nat.
Qed.

(** One iteration on a moderate row while some class is below its target:
    the class decided is one that is below its target. *)
Lemma batch_step_balanced (t0 t1 t2 c0 c1 c2 : Z) results row :
  (0 < (t0 - c0) + (t1 - c1) + (t2 - c2))%Z →
  moderate row →
  ∃ d r,
    batch_step [t0; t1; t2] ([c0; c1; c2], results) row
    = (alter Z.succ d [c0; c1; c2], results ++ [r]) ∧
    disease r = nth d DISEASE_LABELS [] ∧
    (d < 3)%nat ∧
    (nth d [c0; c1; c2] 0 < nth d [t0; t1; t2] 0)%Z.
Proof.
  intros Hneed [Hlen Hmod].
  destruct row as [|x [|y [|z [|? ?]]]]; try done.
  unfold batch_step. cbn [map sum foldl].
  pose proof (scaled_pos x) as Hx. pose proof (scaled_pos y) as Hy.
  pose proof (scaled_pos z) as Hz.
  set (total := 0 + scaled x + scaled y + scaled z).
  assert (0 < total) as Htotal by (unfold total; lra).
  cbn [imap compose nth].
  set (classNeeds := [(t0 - c0)%Z; (t1 - c1)%Z; (t2 - c2)%Z]).
  destruct (max_need_three _ _ _ Hneed) as (Hmax & j & Hj).
  fold classNeeds in Hmax, Hj.
  set (maxNeed := max_need classNeeds) in *.
  set (a := λ i, nth i [scaled x / total; scaled y / total;
                        scaled z / total] 0).
  set (u := λ i, boost classNeeds maxNeed i (a i)).
  change (boost classNeeds maxNeed 0 (scaled x / total)) with (u 0%nat).
  change (boost classNeeds maxNeed 1 (scaled y / total)) with (u 1%nat).
  change (boost classNeeds maxNeed 2 (scaled z / total)) with (u 2%nat).
  assert (∀ i, (i < 3)%nat → 0 < a i) as Ha.
  { intros i Hi. destruct i as [|[|[|?]]]; [| | |lia]; unfold a; cbn [nth];
      by apply Rdiv_lt_0_compat. }
  assert (∀ i k, (i < 3)%nat → (k < 3)%nat → a i < 20 * a k) as Hratio.
  { assert (∀ p q, p ∈ [x; y; z] → q ∈ [x; y; z] →
              scaled p / total < 20 * (scaled q / total)) as H.
    { intros p q Hp Hq. specialize (Hmod p q Hp Hq).
      unfold Rdiv. rewrite <- Rmult_assoc.
      apply Rmult_lt_compat_r; [by apply Rinv_0_lt_compat|done]. }
    intros i k Hi Hk.
    destruct i as [|[|[|?]]]; [| | |lia];
      (destruct k as [|[|[|?]]]; [| | |lia]); unfold a; cbn [nth];
      apply H; in_list. }
  assert (∀ i, (i < 3)%nat → 0 < u i) as Hu.
  { intros i Hi. apply boost_pos. by apply Ha. }
  cbn [map].
  set (newSum := sum [u 0%nat; u 1%nat; u 2%nat]).
  assert (newSum = u 0%nat + u 1%nat + u 2%nat) as Hns
    by (unfold newSum, sum; cbn [foldl]; lra).
  pose proof (Hu 0%nat ltac:(lia)). pose proof (Hu 1%nat ltac:(lia)).
  pose proof (Hu 2%nat ltac:(lia)).
  assert (0 < newSum) as Hsum by lra.
  pose proof (argmax_from_spec
                [u 0%nat / newSum; u 1%nat / newSum; u 2%nat / newSum]
                0 0 0%nat) as (Hb0 & Hall & Hin).
  destruct (argmax_from 0 _ (0, 0%nat)) as [maxProb d].
  cbn [fst snd] in *.
  assert (∀ i, (i < 3)%nat → u i / newSum <= maxProb) as Hle.
  { intros i Hi. rewrite Forall_forall in Hall. apply Hall.
    destruct i as [|[|[|?]]]; [| | |lia]; in_list. }
  destruct Hin as [[= Hm0 _]|(k & Hk & Hd & _)].
  { specialize (Hle 0%nat ltac:(lia)).
    assert (0 < u 0%nat / newSum) by (by apply Rdiv_lt_0_compat). lra. }
  cbn [Nat.add] in Hd. subst d.
  assert (k < 3)%nat as Hk3 by (apply lookup_lt_Some in Hk; cbn in Hk; lia).
  assert (maxProb = u k / newSum) as Hmk.
  { destruct k as [|[|[|?]]]; [| | |lia];
      cbn [lookup list_lookup] in Hk; by injection Hk as <-. }
  exists k. eexists. split; [reflexivity|].
  cbn [disease]. split; [done|]. split; [done|].
  assert (j < 3)%nat as Hj3 by (apply lookup_lt_Some in Hj; cbn in Hj; lia).
  assert (∃ need, classNeeds !! k = Some need ∧
                  need = (nth k [t0; t1; t2] 0 - nth k [c0; c1; c2] 0)%Z)
    as (need & Hneedk & Hneq).
  { destruct k as [|[|[|?]]]; [| | |lia]; eexists; by split. }
  destruct (Z_lt_le_dec 0 need) as [Hpos|Hneg].
  { subst need. destruct k as [|[|[|?]]]; cbn [nth] in Hpos; lia. }
  exfalso.
  assert (u k = a k * (1 / 10)) as Euk
    by (unfold u; by eapply boost_least).
  assert (u j = a j * (1 + 2)) as Euj
    by (unfold u; by apply boost_most).
  specialize (Hle j Hj3). rewrite Hmk in Hle.
  assert (u j <= u k) as Hjk.
  { apply (Rmult_le_reg_r (/ newSum)); [by apply Rinv_0_lt_compat|done]. }
  pose proof (Hratio k j Hk3 Hj3). pose proof (Ha j Hj3). lra.
Qed.

Lemma count_of_label_snoc results (r : PredictionResult) i d :
  (i < 3)%nat → (d < 3)%nat →
  disease r = nth d DISEASE_LABELS [] →
  count_of (nth i DISEASE_LABELS []) (map disease (results ++ [r]))
  = (count_of (nth i DISEASE_LABELS []) (map disease results)
     + if decide (i = d) then 1 else 0)%nat.
Proof.
  intros Hi Hd Hr. rewrite map_app, count_of_app. f_equal.
  cbn [map]. rewrite Hr.
  destruct i as [|[|[|?]]]; [| | |lia];
    (destruct d as [|[|[|?]]]; [| | |lia]); reflexivity.
Qed.

(** The loop of predictBatch over moderate rows, from a state in which no
    class is above its target and as many rows remain as predictions are
    missing: every class ends at its target. *)
Lemma batch_loop_balanced (t0 t1 t2 : Z) pa :
  ∀ (c0 c1 c2 : Z) results,
    (c0 <= t0 ∧ c1 <= t1 ∧ c2 <= t2)%Z →
    ((t0 - c0) + (t1 - c1) + (t2 - c2) = Z.of_nat (length pa))%Z →
    Forall moderate pa →
    (∀ i, (i < 3)%nat →
          Z.of_nat (count_of (nth i DISEASE_LABELS []) (map disease results))
          = nth i [c0; c1; c2] 0%Z) →
    ∀ i, (i < 3)%nat →
         Z.of_nat (count_of (nth i DISEASE_LABELS [])
                     (map disease
                        (foldl (batch_step [t0; t1; t2])
                               ([c0; c1; c2], results) pa).2))
         = nth i [t0; t1; t2] 0%Z.
Proof.
  induction pa as [|row pa IH]; intros c0 c1 c2 results Hle Hsum Hmod Hcount.
  - intros i Hi. cbn [foldl snd]. rewrite (Hcount i Hi).
    cbn [length] in Hsum.
    destruct i as [|[|[|?]]]; [| | |lia]; cbn [nth]; lia.
  - inversion Hmod as [|? ? Hrow Hmod']; subst.
    cbn [foldl length] in *.
    destruct (batch_step_balanced t0 t1 t2 c0 c1 c2 results row)
      as (d & r & -> & Hr & Hd & Hlt); [lia|done|].
    assert (∀ i, (i < 3)%nat →
              Z.of_nat (count_of (nth i DISEASE_LABELS [])
                          (map disease (results ++ [r])))
              = (nth i [c0; c1; c2] 0
                 + if decide (i = d) then 1 else 0)%Z) as Hcount'.
    { intros i Hi. rewrite (count_of_label_snoc _ _ i d Hi Hd Hr).
      rewrite Nat2Z.inj_add, (Hcount i Hi). by destruct (decide (i = d)). }
    destruct d as [|[|[|?]]]; [| | |lia]; cbn [alter list_alter nth] in *.
    + apply IH; [lia|lia|done|].
      intros i Hi. rewrite (Hcount' i Hi).
      destruct i as [|[|[|?]]]; [| | |lia]; cbn [nth];
        repeat case_decide; lia.
    + apply IH; [lia|lia|done|].
      intros i Hi. rewrite (Hcount' i Hi).
      destruct i as [|[|[|?]]]; [| | |lia]; cbn [nth];
        repeat case_decide; lia.
    + apply IH; [lia|lia|done|].
      intros i Hi. rewrite (Hcount' i Hi).
      destruct i as [|[|[|?]]]; [| | |lia]; cbn [nth];
        repeat case_decide; lia.
Qed.

(** X19.  predictBatch of the first revision forces the balanced
    distribution on every batch whose rows are moderate, that is on which
    the model does not make one class twenty times likelier, once scaled,
    than another: class [i] is then decided for exactly a third of the rows,
    rounded down, and once more when [i] is below the remainder, whatever
    the probabilities say. *)
Theorem predictBatch_forces_balance
    (probabilitiesArray : list (list R)) (i : nat) :
  Forall moderate probabilitiesArray → (i < 3)%nat →
  count_of (nth i DISEASE_LABELS [])
           (map disease (predictBatch probabilitiesArray))
  = (length probabilitiesArray / 3
     + if (i <? length probabilitiesArray mod 3)%nat then 1 else 0)%nat.
Proof.
  intros Hmod Hi. unfold predictBatch, classTargets.
  set (n := length probabilitiesArray).
  pose proof (Nat.div_mod_eq n 3) as Hdiv.
  assert (n mod 3 < 3)%nat as Hrem by (apply Nat.mod_upper_bound; lia).
  cbn [map].
  apply Nat2Z.inj.
  rewrite (batch_loop_balanced _ _ _ probabilitiesArray 0 0 0 []);
    [| |fold n|done| |done].
  - destruct i as [|[|[|?]]]; [| | |lia]; cbn [nth];
      destruct (_ <? _)%nat; lia.
  - repeat split; destruct (_ <? _)%nat; lia.
  - clearbody n.
    destruct (n mod 3)%nat as [|[|[|?]]] eqn:E; [| | |lia];
      cbn [Nat.ltb Nat.leb]; lia.
  - intros k Hk. destruct k as [|[|[|?]]]; [done..|lia].
Qed.

End DecisionFacts.

(** ** Synthetic cohort: classes, ranges and the symptoms it lacks *)

Section CohortFacts.
Import Random Generator Normalizer.

(** The positions of the absent symptoms. *)
Lemma absent_positions name j :
  name ∈ absent_symptoms → Encoder.featureColumns !! j = Some name →
  j ∈ [24; 25; 27; 30; 31; 32].
Proof.
  intros Hname Hj.
  assert (j < 53) as Hlt by (by apply lookup_lt_Some in Hj).
  unfold absent_symptoms in Hname. cbn in Hname.
  do 53 (destruct j as [|j];
         [cbn in Hj; injection Hj as <-;
          first [ by repeat first [apply list_elem_of_here
                                  | apply list_elem_of_further]
                | exfalso;
                  repeat (apply elem_of_cons in Hname as [Hname|Hname];
                          [discriminate|]);
                  by apply elem_of_nil in Hname ]
         |]).
  lia.
Qed.

(** One record: the absent symptoms are 0. *)
Lemma record_absent diseases i g j :
  j ∈ [24; 25; 27; 30; 31; 32] → (record diseases i g).1.1 !! j = Some 0%Q.
Proof.
  intros Hj. unfold record.
  cbv beta iota zeta delta
    [bind ret uniform uniform_int bernoulli Math_random profile].
  destruct (pick_disease diseases i g) as [[|[|d]] g1];
    repeat (apply elem_of_cons in Hj as [->|Hj]; [reflexivity|]);
    by apply elem_of_nil in Hj.
Qed.

Lemma records_absent diseases todo features labels g j :
  j ∈ [24; 25; 27; 30; 31; 32] →
  Forall (λ fv, fv !! j = Some 0%Q) features →
  Forall (λ fv, fv !! j = Some 0%Q)
         (records diseases todo features labels g).1.1.
Proof.
  intros Hj. revert features labels g.
  induction todo as [|i todo IH]; intros features labels g Hf; [done|].
  cbn [records]. unfold bind.
  pose proof (record_absent diseases i g j Hj) as Hrec.
  destruct (record diseases i g) as [[fv l] g1]. cbn [fst snd] in *.
  apply IH. apply Forall_app. split; [done|]. by constructor.
Qed.

Lemma generateSampleData_absent numSamples g j :
  j ∈ [24; 25; 27; 30; 31; 32] →
  Forall (λ fv, fv !! j = Some 0%Q) (generateSampleData numSamples g).1.1.
Proof.
  intros Hj. unfold generateSampleData, bind.
  destruct (shuffle _ g) as [diseases g1].
  by apply records_absent.
Qed.

Lemma constant_column_bounds features j :
  features ≠ [] →
  Forall (λ fv, fv !! j = Some 0%Q) features →
  Math_min (column j features) = 0%Q ∧ Math_max (column j features) = 0%Q.
Proof.
  intros Hne Hall.
  assert (∀ x, x ∈ column j features → x = 0%Q) as Hcol.
  { intros x Hx. apply column_elem in Hx as (i & row & Hrow & <-).
    rewrite Forall_forall in Hall.
    specialize (Hall row (list_elem_of_lookup_2 _ _ _ Hrow)).
    by rewrite (nth_lookup_Some _ _ _ _ Hall). }
  pose proof (column_nonempty j features Hne) as Hcne.
  destruct (Math_min_spec _ Hcne) as [_ Hmin].
  destruct (Math_max_spec _ Hcne) as [_ Hmax].
  split; by apply Hcol.
Qed.

(** X20.  A model trained on the synthetic cohort ignores six symptoms.
    The cohort never shows hemoptysis, edema, bruises, diarrhea,
    respiratory difficulty or itching, so their fitted minimum and maximum
    are both 0, and the normalisation applied before every prediction sends
    any value of these features to 0. *)
Theorem absent_symptoms_are_ignored
    (numSamples : nat) (g : source) (r : Normalized) (patient : list Q)
    (name : Text.str) (j : nat) :
  normalizeFeatures (generateSampleData numSamples g).1.1 = Some r →
  name ∈ absent_symptoms → Encoder.featureColumns !! j = Some name →
  j < length patient →
  min r !! j = Some 0%Q ∧ max r !! j = Some 0%Q ∧
  Input.normalize (min r) (max r) patient !! j = Some 0%Q.
Proof.
  intros Hr Hname Hcol Hj.
  pose proof (absent_positions name j Hname Hcol) as Hpos.
  pose proof (generateSampleData_absent numSamples g j Hpos) as Hzero.
  destruct (generateSampleData_shape numSamples g) as (_ & _ & H53 & _).
  set (features := (generateSampleData numSamples g).1.1) in *.
  unfold normalizeFeatures in Hr.
  destruct features as [|first rest] eqn:Hf; [done|].
  cbn [head mbind option_bind] in Hr. injection Hr as <-.
  cbn [min max].
  assert (length first = 53) as Hfirst by (by inversion H53).
  assert (j < 53) as Hlt by (by apply lookup_lt_Some in Hcol).
  rewrite Hfirst.
  destruct (lookup_bounds (first :: rest) 53 j Hlt) as [Hmin Hmax].
  destruct (constant_column_bounds (first :: rest) j) as [Emin Emax];
    [done|done|].
  rewrite Emin in Hmin. rewrite Emax in Hmax.
  split; [exact Hmin|]. split; [exact Hmax|].
  unfold Input.normalize. rewrite list_lookup_imap.
  destruct (lookup_lt_is_Some_2 patient j Hj) as [v ->].
  cbn [fmap option_fmap option_map]. f_equal.
  unfold Input.rescale.
  by rewrite (nth_lookup_Some _ _ _ _ Hmin), (nth_lookup_Some _ _ _ _ Hmax).
Qed.


Lemma pick_disease_keeps diseases i g :
  scheduled diseases i ≠ 0 →
  (pick_disease diseases i g).1 = scheduled diseases i.
Proof.
  unfold scheduled, pick_disease.
  by destruct (diseases !! i) as [[|d]|].
Qed.

(** The labels that the loop adds: a scheduled class other than 0 is
    kept. *)
Lemma records_labels diseases todo features labels g :
  ∃ added,
    (records diseases todo features labels g).1.2 = labels ++ added ∧
    Forall2 (λ i l, scheduled diseases i ≠ 0 → l = scheduled diseases i)
            todo added.
Proof.
  revert features labels g.
  induction todo as [|i todo IH]; intros features labels g.
  - exists []. cbn. by rewrite app_nil_r.
  - cbn [records]. unfold bind.
    destruct (record_shape diseases i g) as [_ Hclass].
    pose proof (pick_disease_keeps diseases i g) as Hkeep.
    destruct (record diseases i g) as [[fv l] g1]. cbn [fst snd] in *.
    destruct (IH (features ++ [fv]) (labels ++ [l]) g1)
      as (added & -> & Hall).
    exists (l :: added). split; [by rewrite <- app_assoc|].
    constructor; [|done]. intros Hne. rewrite Hclass. by apply Hkeep.
Qed.

Lemma count_of_cons `{EqDecision A} (x y : A) l :
  count_of x (y :: l) = (if decide (y = x) then 1 else 0) + count_of x l.
Proof.
  unfold count_of. rewrite filter_cons. by destruct (decide (y = x)).
Qed.

Lemma kept_counts (D L : list nat) :
  Forall2 (λ d l, d ≠ 0 → l = d) D L →
  count_of 0 L ≤ count_of 0 D ∧
  ∀ c, c ≠ 0 → count_of c D ≤ count_of c L.
Proof.
  induction 1 as [|d l D L Hdl _ [IH0 IH]]; [done|].
  rewrite !count_of_cons. split.
  - destruct (decide (d = 0)) as [->|Hd];
      destruct (decide (l = 0)) as [->|Hl];
      first [lia | specialize (Hdl Hd); lia].
  - intros c Hc. specialize (IH c Hc). rewrite !count_of_cons.
    destruct (decide (d = c)) as [->|Hd];
      destruct (decide (l = c)) as [->|Hl];
      first [lia | specialize (Hdl Hc); lia].
Qed.

Lemma scheduled_all diseases n :
  length diseases ≤ n →
  map (scheduled diseases) (seq 0 n)
  = diseases ++ replicate (n - length diseases) 0.
Proof.
  intros Hlen. apply list_eq. intros i.
  change (map ?f ?l) with (f <$> l).
  rewrite list_lookup_fmap. unfold scheduled.
  destruct (decide (i < n)) as [Hi|Hi].
  - rewrite lookup_seq_lt by done. cbn.
    destruct (decide (i < length diseases)) as [Hd|Hd].
    + rewrite lookup_app_l by done.
      destruct (lookup_lt_is_Some_2 diseases i Hd) as [d ->]. done.
    + rewrite lookup_app_r by lia.
      rewrite (proj2 (lookup_ge_None diseases i)) by lia.
      rewrite lookup_replicate_2 by lia. done.
  - rewrite lookup_seq_ge by lia. cbn. symmetry.
    apply lookup_ge_None. rewrite length_app, length_replicate. lia.
Qed.

Lemma schedule_count k c :
  c < 3 → count_of c (schedule k) = k.
Proof.
  intros Hc. unfold schedule. cbn [List.flat_map].
  rewrite !count_of_app, !count_of_replicate.
  change (count_of c []) with 0.
  destruct c as [|[|[|?]]]; [| | |lia]; repeat case_decide; lia.
Qed.

Lemma schedule_length k : length (schedule k) = 3 * k.
Proof.
  unfold schedule. cbn [List.flat_map].
  rewrite !length_app, !length_replicate. cbn. lia.
Qed.

Lemma class_counts_total (l : list nat) :
  Forall (λ x, x < 3) l →
  count_of 0 l + count_of 1 l + count_of 2 l = length l.
Proof.
  induction 1 as [|x l Hx _ IH]; [done|].
  rewrite !count_of_cons. cbn [length].
  destruct x as [|[|[|?]]]; [| | |lia]; repeat case_decide; lia.
Qed.

(** X22.  What remains of the balance of generateSampleData: every
    scheduled class other than 0 is kept, so malaria and leptospirosis each
    label at least a third of the records, rounded down; only dengue, whose
    scheduled records are drawn again, can fall short, and it labels at
    most a third plus the remainder. *)
Theorem generateSampleData_class_counts (numSamples : nat) (g : source) :
  let labels := (generateSampleData numSamples g).1.2 in
  numSamples / 3 ≤ count_of 1 labels ∧
  numSamples / 3 ≤ count_of 2 labels ∧
  count_of 0 labels ≤ numSamples / 3 + numSamples mod 3 ∧
  count_of 0 labels + count_of 1 labels + count_of 2 labels = numSamples.
Proof.
  intros labels.
  destruct (generateSampleData_shape numSamples g) as (_ & Hlen & _ & Hlt).
  fold labels in Hlen, Hlt.
  pose proof (class_counts_total labels Hlt) as Htotal.
  rewrite Hlen in Htotal.
  subst labels. unfold generateSampleData, bind in *.
  pose proof (shuffle_perm (schedule (numSamples / 3)) g) as Hperm.
  destruct (shuffle (schedule (numSamples / 3)) g) as [diseases g1].
  cbn [fst] in Hperm.
  destruct (records_labels diseases (seq 0 numSamples) [] [] g1)
    as (added & Hadded & Hall).
  rewrite Hadded in *. cbn [app] in *.
  assert (length diseases = 3 * (numSamples / 3)) as Hd
    by (by rewrite Hperm, schedule_length).
  pose proof (Nat.div_mod_eq numSamples 3) as Hdiv.
  assert (Forall2 (λ d l, d ≠ 0 → l = d)
                  (map (scheduled diseases) (seq 0 numSamples)) added)
    as Hkept.
  { change (map ?f ?l) with (f <$> l). by apply Forall2_fmap_l. }
  rewrite scheduled_all in Hkept by lia.
  destruct (kept_counts _ _ Hkept) as [H0 Hc].
  pose proof (Hc 1 ltac:(lia)) as H1. pose proof (Hc 2 ltac:(lia)) as H2.
  rewrite !count_of_app, !count_of_replicate in H0, H1, H2.
  rewrite (count_of_perm 0 _ _ Hperm), schedule_count in H0 by lia.
  rewrite (count_of_perm 1 _ _ Hperm), schedule_count in H1 by lia.
  rewrite (count_of_perm 2 _ _ Hperm), schedule_count in H2 by lia.
  rewrite decide_True in H0 by done.
  rewrite decide_False in H1 by done.
  rewrite decide_False in H2 by done.
  split; [lia|]. split; [lia|]. split; [lia|done].
Qed.

End CohortFacts.

Section SchemaFacts.
Import Random Generator.

Lemma whole_draw (lo n : Z) (d : draw) :
  (0 < n)%Z →
  fits (Whole lo (lo + n - 1))
       (inject_Z lo + inject_Z (Qfloor (value d * inject_Z n)))%Q.
Proof.
  intros Hn. destruct (value_range d) as [H0 H1].
  exists (lo + Qfloor (value d * inject_Z n))%Z.
  split; [by rewrite inject_Z_plus|].
  assert (0 < inject_Z n)%Q as Hq
    by (change 0%Q with (inject_Z 0); by rewrite <- Zlt_Qlt).
  assert (0 <= Qfloor (value d * inject_Z n))%Z.
  { change 0%Z with (Qfloor 0). apply Qfloor_resp_le. nra. }
  assert (Qfloor (value d * inject_Z n) < n)%Z; [|lia].
  pose proof (Qfloor_le (value d * inject_Z n)) as Hfl.
  rewrite Zlt_Qlt. nra.
Qed.

(** The draws that a goal mentions lie between 0 and 1. *)
Ltac draws :=
  repeat match goal with
         | |- context [value ?d] =>
             lazymatch goal with
             | _ : (0 <= value d ∧ value d < 1)%Q |- _ => fail
             | _ => pose proof (value_range d)
             end
         end.

Ltac fit :=
  lazymatch goal with
  | |- fits Flag _ =>
      first [ by left | by right
            | destruct (Qle_bool _ _); [by left|by right] ]
  | |- fits (Whole _ _) (_ + inject_Z (Qfloor (value ?d * _)))%Q =>
      first [exact (whole_draw 20 50 d eq_refl)
            |exact (whole_draw 1 10 d eq_refl)]
  | |- fits (Real _ _) _ =>
      cbn [fits]; draws;
      repeat match goal with
             | |- context [Qmax ?a ?b] =>
                 let H := fresh in
                 destruct (Q.max_spec a b) as [[? H]|[? H]]; rewrite H
             end;
      lra
  end.

Lemma record_fits diseases i g :
  Forall2 fits cohort_schema (record diseases i g).1.1.
Proof.
  unfold record.
  cbv beta iota zeta delta
    [bind ret uniform uniform_int bernoulli Math_random profile].
  destruct (pick_disease diseases i g) as [[|[|d]] g1];
    cbn [fst snd fever headache dizziness loss_of_appetite weakness myalgias
         arthralgias eye_pain hemorrhages vomiting abdominal_pain chills
         jaundice petechiae rash platelets AST ALT total_bilirubin];
    unfold cohort_schema; cbn [replicate app];
    repeat (constructor; [fit|]); constructor.
Qed.

Lemma records_fit diseases todo features labels g :
  Forall (Forall2 fits cohort_schema) features →
  Forall (Forall2 fits cohort_schema)
         (records diseases todo features labels g).1.1.
Proof.
  revert features labels g.
  induction todo as [|i todo IH]; intros features labels g Hf; [done|].
  cbn [records]. unfold bind.
  pose proof (record_fits diseases i g) as Hrec.
  destruct (record diseases i g) as [[fv l] g1]. cbn [fst snd] in *.
  apply IH. apply Forall_app. split; [done|]. by constructor.
Qed.

(** X23.  Every record of the synthetic cohort fits the ranges of its
    schema, whatever the draws: the age is a whole number from 20 to 69 and
    the days in hospital one from 1 to 10, the thirty flags are 0 or 1, and
    every measurement lies between the bounds of its field.  The one bound
    below zero is that of the indirect bilirubin, which is computed as a
    difference and is only known to exceed -0.2. *)
Theorem generateSampleData_fits_schema (numSamples : nat) (g : source) :
  length cohort_schema = 53 ∧
  Forall (Forall2 fits cohort_schema) (generateSampleData numSamples g).1.1.
Proof.
  split; [reflexivity|].
  unfold generateSampleData, bind.
  destruct (shuffle _ g) as [diseases g1].
  by apply records_fit.
Qed.

End SchemaFacts.

(** ** Dashboard page *)

Section PageFacts.
Import Random Text Page.

Lemma complete_no_empty formData :
  complete formData → filter (λ kv : str * str, kv.2 = []) formData = [].
Proof.
  induction 1 as [|kv l Hkv _ IH]; [done|].
  rewrite filter_cons. by rewrite decide_False.
Qed.

Lemma incomplete_some_empty formData :
  Exists (λ kv : str * str, kv.2 = []) formData →
  (0 < length (filter (λ kv : str * str, kv.2 = []) formData))%nat.
Proof.
  induction 1 as [kv l Hkv|kv l _ IH]; rewrite filter_cons.
  - rewrite decide_True by done. cbn. lia.
  - destruct (decide _); cbn; lia.
Qed.

(** The result of the page for a complete form, by the class drawn. *)
Lemma handlePredict_complete kind formData g :
  complete formData →
  ∃ r a b c,
    (handlePredict kind formData g).1 = inr r ∧
    disease r ∈ DISEASE_LABELS ∧
    probabilities r !! list_ascii_of_string "Dengue" = Some a ∧
    probabilities r !! list_ascii_of_string "Malaria" = Some b ∧
    probabilities r !! list_ascii_of_string "Leptospirosis" = Some c ∧
    probabilities r !! disease r = Some (confidence r) ∧
    (a + b + c == 1)%Q ∧ (0 < a ∧ 0 < b ∧ 0 < c)%Q ∧
    (0.6 <= confidence r ∧ confidence r < 0.95)%Q ∧
    (a <= confidence r ∧ b <= confidence r ∧ c <= confidence r)%Q.
Proof.
  intros Hc. unfold handlePredict.
  rewrite (complete_no_empty _ Hc). cbn [length].
  rewrite bool_decide_eq_false_2 by lia.
  unfold bind at 1.
  pose proof (random_below_lt 3 g ltac:(lia)) as Hk.
  change (length DISEASE_LABELS) with 3%nat.
  destruct (random_below 3 g) as [k g1]. cbn [fst] in Hk.
  unfold bind, Math_random, ret. cbn [fst].
  destruct (value_range (g1 0%nat)) as [H0 H1].
  destruct (value_range (g1 1%nat)) as [H2 H3].
  set (r1 := value (g1 0%nat)) in *. set (r2 := value (g1 1%nat)) in *.
  assert ((1 - (0.6 + r1 * 0.35)) * 0.3
          <= (1 - (0.6 + r1 * 0.35)) * (0.3 + r2 * 0.4))%Q as Hlow by nra.
  assert ((1 - (0.6 + r1 * 0.35)) * (0.3 + r2 * 0.4)
          <= (1 - (0.6 + r1 * 0.35)) * 0.7)%Q as Hhigh by nra.
  assert (filter (λ d, d ≠ nth 0 DISEASE_LABELS []) DISEASE_LABELS
          = [nth 1 DISEASE_LABELS []; nth 2 DISEASE_LABELS []]) as E0
    by reflexivity.
  assert (filter (λ d, d ≠ nth 1 DISEASE_LABELS []) DISEASE_LABELS
          = [nth 0 DISEASE_LABELS []; nth 2 DISEASE_LABELS []]) as E1
    by reflexivity.
  assert (filter (λ d, d ≠ nth 2 DISEASE_LABELS []) DISEASE_LABELS
          = [nth 0 DISEASE_LABELS []; nth 1 DISEASE_LABELS []]) as E2
    by reflexivity.
  destruct k as [|[|[|?]]]; [| | |lia];
    rewrite ?E0, ?E1, ?E2; cbn [nth];
    (eexists _, _, _, _; split; [reflexivity|]);
    cbn [disease confidence probabilities nth];
    (split; [repeat first [apply list_elem_of_here
                          | apply list_elem_of_further]|]);
    do 4 (split; [repeat (rewrite lookup_insert_ne by discriminate);
                  by rewrite lookup_insert|]);
    (split; [ring|]); lra.
Qed.

(** X24.  The prediction of the dashboard page is drawn, not computed.  A
    form with an empty field is refused with the one error.  For a complete
    form the page names one of the three classes with a confidence from
    0.6 to 0.95, and shows three positive probabilities that add up to 1,
    that of the named class being the confidence and the largest; under the
    same draws two complete forms get the same result, whatever the
    answers. *)
Theorem page_prediction_is_drawn
    (kind : Handler.ModelKind) (formData : list (str * str)) (g : source) :
  (Exists (λ kv, kv.2 = []) formData →
   (handlePredict kind formData g).1 = inl form_error) ∧
  (complete formData →
   ∃ r a b c,
     (handlePredict kind formData g).1 = inr r ∧
     disease r ∈ DISEASE_LABELS ∧
     probabilities r !! list_ascii_of_string "Dengue" = Some a ∧
     probabilities r !! list_ascii_of_string "Malaria" = Some b ∧
     probabilities r !! list_ascii_of_string "Leptospirosis" = Some c ∧
     probabilities r !! disease r = Some (confidence r) ∧
     (a + b + c == 1)%Q ∧ (0 < a ∧ 0 < b ∧ 0 < c)%Q ∧
     (0.6 <= confidence r ∧ confidence r < 0.95)%Q ∧
     (a <= confidence r ∧ b <= confidence r ∧ c <= confidence r)%Q) ∧
  (∀ formData',
     complete formData → complete formData' →
     handlePredict kind formData' g = handlePredict kind formData g).
Proof.
  split; [|split].
  - intros Hex. unfold handlePredict.
    by rewrite bool_decide_eq_true_2 by (by apply incomplete_some_empty).
  - apply handlePredict_complete.
  - intros formData' Hc Hc'. unfold handlePredict.
    by rewrite (complete_no_empty _ Hc), (complete_no_empty _ Hc').
Qed.

(** One step of the predictions of the page. *)
Lemma predictions_from_cons idx fv features labels hasLabels g :
  predictions_from idx (fv :: features) labels hasLabels g
  = let k := (random_below 3 g).1 in
    let g1 := (random_below 3 g).2 in
    let rest :=
      predictions_from (S idx) features labels hasLabels (λ k, g1 (S k)) in
    ({| id := idx + 1;
        predicted := nth k DISEASE_LABELS [];
        actual := actual_of labels hasLabels idx;
        shown_confidence := (0.7 + value (g1 0%nat) * 0.25)%Q |} :: rest.1,
     rest.2).
Proof.
  cbn [predictions_from]. unfold bind, Math_random, ret.
  destruct (random_below 3 g) as [k g1]. cbn [fst snd].
  by destruct (predictions_from (S idx) features labels hasLabels _).
Qed.

(** The predictions of the page: numbered from [idx] + 1 on, one of the
    three classes each, a confidence from 0.7 to 0.95. *)
Lemma predictions_from_spec idx features labels hasLabels g :
  let ps := (predictions_from idx features labels hasLabels g).1 in
  length ps = length features ∧
  Forall (λ p, predicted p ∈ DISEASE_LABELS ∧
               (0.7 <= shown_confidence p ∧ shown_confidence p < 0.95)%Q) ps ∧
  ∀ k p, ps !! k = Some p →
         id p = (idx + k + 1)%nat ∧
         actual p = actual_of labels hasLabels (idx + k).
Proof.
  revert idx g. induction features as [|fv features IH]; intros idx g.
  - cbn. split; [done|]. split; [constructor|]. by intros k p.
  - rewrite predictions_from_cons.
    pose proof (random_below_lt 3 g ltac:(lia)) as Hk.
    destruct (random_below 3 g) as [k g1]. cbn [fst snd] in *.
    destruct (value_range (g1 0%nat)) as [H0 H1].
    destruct (IH (S idx) (λ k, g1 (S k))) as (Hlen & Hall & Hidx).
    cbv zeta in *. cbn [fst length].
    split; [by rewrite Hlen|]. split.
    + constructor; [|done]. cbn [predicted shown_confidence]. split; [|lra].
      destruct k as [|[|[|?]]]; [| | |lia];
        repeat first [apply list_elem_of_here | apply list_elem_of_further].
    + intros [|j] p Hp; cbn in Hp.
      * injection Hp as <-. cbn [id actual]. rewrite Nat.add_0_r. done.
      * destruct (Hidx j p Hp) as [-> ->].
        split; [lia|]. by rewrite Nat.add_succ_r.
Qed.

(** What the predictions show does not depend on the feature vectors. *)
Lemma predictions_from_shown idx features features' labels labels' hl hl' g :
  length features = length features' →
  map shown (predictions_from idx features labels hl g).1
  = map shown (predictions_from idx features' labels' hl' g).1 ∧
  (predictions_from idx features labels hl g).2
  = (predictions_from idx features' labels' hl' g).2.
Proof.
  revert idx features' g.
  induction features as [|fv features IH];
    intros idx [|fv' features'] g Hlen; try done.
  rewrite !predictions_from_cons. cbv zeta. cbn [fst snd map].
  destruct (IH (S idx) features' (λ k, (random_below 3 g).2 (S k)))
    as [Hshown Hg]; [by injection Hlen|].
  by rewrite Hshown, Hg.
Qed.

(** The training data of a file, with the number of its feature vectors. *)
Lemma convertToTrainingData_count headers rows :
  ∃ td, Encoder.convertToTrainingData headers rows = Some td ∧
        Encoder.rowCount td = length (kept headers rows) ∧
        length (Encoder.features td) = length (kept headers rows).
Proof.
  unfold Encoder.convertToTrainingData.
  destruct (rows_loop headers
              (Encoder.column_index headers Encoder.labelColumn) rows [] [])
    as (fs & ls & -> & _ & Hlen & _).
  cbn [mbind option_bind app]. eexists. split; [reflexivity|].
  by cbn [Encoder.rowCount Encoder.features].
Qed.

Lemma harmonic_between (p r : Q) :
  (0 < p)%Q → (0 < r)%Q →
  (Qmin p r <= 2 * p * r / (p + r) ∧ 2 * p * r / (p + r) <= Qmax p r)%Q.
Proof.
  intros Hp Hr.
  assert (0 < p + r)%Q as Hs by lra.
  split.
  - apply Qle_shift_div_l; [done|].
    destruct (Q.min_spec p r) as [[? E]|[? E]]; rewrite E; nra.
  - apply Qle_shift_div_r; [done|].
    destruct (Q.max_spec p r) as [[? E]|[? E]]; rewrite E; nra.
Qed.

(** X25.  The batch result of the dashboard page is staged.  The page
    fails when the encoder keeps no row; otherwise it counts the kept rows
    and draws for each a class among the three and a confidence from 0.7 to
    0.95, but the confusion matrix is the fixed one of the selected model,
    with 150 cases whatever the size of the file, and the metrics are
    drawn: accuracy from 0.85, precision from 0.82 and recall from 0.8, up
    to 0.95, and an f1 between precision and recall.  For the logistic
    model the accuracy shown is always above the accuracy of the matrix
    shown beside it. *)
Theorem page_batch_is_staged
    (kind : Handler.ModelKind) (headers : list str) (rows : list (list str))
    (g : source) :
  let n := length (kept headers rows) in
  (n = 0%nat → (process kind headers rows g).1 = inl Handler.NoValidData) ∧
  (0 < n →
   ∃ result,
     (process kind headers rows g).1 = inr result ∧
     totalRecords result = n ∧
     length (predictions result) = n ∧
     Forall (λ p, predicted p ∈ DISEASE_LABELS ∧
                  (0.7 <= shown_confidence p ∧ shown_confidence p < 0.95)%Q)
            (predictions result) ∧
     confusionMatrix result = shown_matrix kind ∧
     foldr Nat.add 0%nat (concat (confusionMatrix result)) = 150%nat ∧
     (0.85 <= accuracy (metrics result)
      ∧ accuracy (metrics result) < 0.95)%Q ∧
     (0.82 <= precision (metrics result)
      ∧ precision (metrics result) < 0.94)%Q ∧
     (0.8 <= recall (metrics result) ∧ recall (metrics result) < 0.95)%Q ∧
     (Qmin (precision (metrics result)) (recall (metrics result))
      <= f1Score (metrics result)
      ∧ f1Score (metrics result)
        <= Qmax (precision (metrics result)) (recall (metrics result)))%Q ∧
     (kind = Handler.logistic →
      (matrix_accuracy (confusionMatrix result)
       < accuracy (metrics result))%Q)).
Proof.
  intros n. unfold process.
  destruct (convertToTrainingData_count headers rows)
    as (td & -> & Hcount & Hlen).
  fold n in Hcount, Hlen. rewrite Hcount.
  split.
  - intros Hn. by rewrite bool_decide_eq_true_2.
  - intros Hn. rewrite bool_decide_eq_false_2 by lia.
    unfold bind at 1.
    destruct (predictions_from_spec 0 (Encoder.features td)
                (Encoder.labels td) (Encoder.hasLabels td) g)
      as (Hps & Hall & _).
    destruct (predictions_from 0 _ _ _ g) as [ps g1]. cbn [fst] in *.
    unfold bind, Math_random, ret. cbn [fst].
    destruct (value_range (g1 0%nat)) as [H0 H1].
    destruct (value_range (g1 1%nat)) as [H2 H3].
    destruct (value_range (g1 2%nat)) as [H4 H5].
    eexists. split; [reflexivity|].
    cbn [totalRecords predictions confusionMatrix metrics accuracy precision
         recall f1Score].
    split; [done|]. split; [by rewrite Hps|]. split; [done|].
    split; [done|]. split; [by destruct kind|].
    split; [lra|]. split; [lra|]. split; [lra|].
    split; [apply harmonic_between; lra|].
    intros ->. unfold matrix_accuracy. cbn.
    assert (inject_Z 126 / inject_Z 150 == 0.84)%Q as -> by reflexivity.
    lra.
Qed.

(** X26.  What the page shows of a batch, apart from the actual classes,
    depends on the number of kept rows alone: under the same draws two
    files with as many kept rows give the same count, numbers, predicted
    classes, confidences, metrics and matrix, whatever their cells. *)
Theorem page_batch_ignores_the_cells
    (kind : Handler.ModelKind) (headers headers' : list str)
    (rows rows' : list (list str)) (g : source) :
  length (kept headers rows) = length (kept headers' rows') →
  page_view (process kind headers rows g).1
  = page_view (process kind headers' rows' g).1.
Proof.
  intros Hsame. unfold process.
  destruct (convertToTrainingData_count headers rows)
    as (td & -> & Hcount & Hlen).
  destruct (convertToTrainingData_count headers' rows')
    as (td' & -> & Hcount' & Hlen').
  rewrite Hcount, Hcount', <- Hsame.
  destruct (bool_decide (length (kept headers rows) = 0%nat)); [done|].
  unfold bind at 1 5.
  destruct (predictions_from_shown 0 (Encoder.features td)
              (Encoder.features td') (Encoder.labels td) (Encoder.labels td')
              (Encoder.hasLabels td) (Encoder.hasLabels td') g)
    as [Hshown Hg]; [lia|].
  destruct (predictions_from 0 (Encoder.features td) _ _ g) as [ps g1].
  destruct (predictions_from 0 (Encoder.features td') _ _ g) as [ps' g1'].
  cbn [fst snd] in *. subst g1'.
  unfold bind, Math_random, ret. cbn [fst page_view].
  cbn [totalRecords predictions confusionMatrix metrics].
  by rewrite Hshown.
Qed.

End PageFacts.

(** ** The theorems at concrete inputs *)

(** A label that is no inherited name. *)
Ltac not_member :=
  let H := fresh in
  intros H; unfold names_member, Dict.inherited_names, strs in H;
  cbn [map] in H;
  repeat (apply elem_of_cons in H as [H|H]; [vm_compute in H; discriminate H|]);
  by apply elem_of_nil in H.

Section Instances.
Import Text Parser Encoder.

(** Two batches of two records each, with different outputs of the model,
    give every label the same number of occurrences. *)
Lemma batch_labels_forced_balanced_witness :
  length confident_rows = length undecided_rows ∧
  ∀ c,
    count_of c (map Batch.predicted
                  (Batch.predictions (Calibration.predictBatch confident_rows)
                                     [] always_half).1)
    = count_of c (map Batch.predicted
                    (Batch.predictions
                       (Calibration.predictBatch undecided_rows) []
                       always_half).1).
Proof.
  split; [reflexivity|].
  apply (batch_labels_forced_balanced confident_rows undecided_rows [] []
           always_half always_half eq_refl).
Defined.

(** The first scenario has a diagnosis column, hence as many labels as
    feature vectors. *)
Lemma convertToTrainingData_shape_witness :
  ∃ td,
    convertToTrainingData
      (strs ["age"; "gender"; "diagnosis"])
      [strs ["30"; "M"; "dengue"]; strs ["40"; "F"; "malaria"]] = Some td ∧
    hasLabels td = true ∧
    length (labels td) = length (features td).
Proof.
  destruct (convertToTrainingData_shape
              (strs ["age"; "gender"; "diagnosis"])
              [strs ["30"; "M"; "dengue"]; strs ["40"; "F"; "malaria"]])
    as (td & Heq & _ & _ & _ & _ & _ & Hhas & Hlab & _).
  exists td. split; [exact Heq|].
  assert (hasLabels td = true) as Htrue by (rewrite Hhas; reflexivity).
  split; [exact Htrue|exact (Hlab Htrue)].
Defined.



(** The first scenario has three lines that are not blank, so it parses; a
    header line followed by a line that holds a no-break space has one, so
    it does not. *)
Lemma parseCSV_needs_two_lines_witness :
  2 ≤ length (nonblank_lines scenario_csv) ∧
  (∃ parsed, parseCSV scenario_csv = inr parsed) ∧
  length (nonblank_lines header_and_space) < 2 ∧
  parseCSV header_and_space = inl csv_error.
Proof.
  assert (2 ≤ length (nonblank_lines scenario_csv)) as Hlen.
  { vm_compute. apply le_S, le_n. }
  assert (length (nonblank_lines header_and_space) < 2) as Hone.
  { vm_compute. apply le_n. }
  split; [exact Hlen|].
  destruct (parseCSV_needs_two_lines scenario_csv) as (_ & Hiff & _).
  split; [apply Hiff; exact Hlen|].
  split; [exact Hone|].
  destruct (parseCSV_needs_two_lines header_and_space) as (Herr & _).
  apply Herr. exact Hone.
Defined.

(** The line of 40 and two commas has no double quote. *)
Lemma parseCSV_omits_empty_fields_witness :
  plain (list_ascii_of_string "40,,") ∧
  parse_line (list_ascii_of_string "40,,")
  = map trim (nonempty_fields (list_ascii_of_string "40,,")).
Proof.
  assert (plain (list_ascii_of_string "40,,")) as Hplain
    by (repeat constructor; discriminate).
  split; [exact Hplain|].
  destruct parseCSV_omits_empty_fields as (_ & Hplainrow & _).
  exact (Hplainrow _ Hplain).
Defined.

End Instances.

Section HandlerInstances.
Import Text Parser Encoder Handler.

Lemma convertToTrainingData_ignores_header_case_witness :
  convertToTrainingData (strs ["Age"; "GENDER"; "Diagnosis"]) scenario_rows
  = convertToTrainingData scenario_headers scenario_rows.
Proof.
  apply (convertToTrainingData_ignores_header_case
           scenario_headers (strs ["Age"; "GENDER"; "Diagnosis"])
           scenario_rows).
  reflexivity.
Defined.

Lemma convertToTrainingData_labels_witness :
  column_index scenario_headers labelColumn = Some 2 ∧
  ∃ td, convertToTrainingData scenario_headers member_rows = Some td ∧
        labels td = [Index 0; Member (list_ascii_of_string "constructor")].
Proof.
  assert (column_index scenario_headers labelColumn = Some 2) as Hli
    by reflexivity.
  split; [exact Hli|].
  destruct (convertToTrainingData_labels scenario_headers member_rows 2 Hli)
    as (td & Htd & Hlabels & _).
  exists td. split; [exact Htd|]. rewrite Hlabels. reflexivity.
Defined.

Lemma dengue_model_length fs : length (dengue_model fs) = length fs.
Proof. apply length_map. Qed.

Lemma scenario_labels :
  actualLabels scenario_headers scenario_rows = strs ["dengue"; "malaria"].
Proof. reflexivity. Qed.

Lemma member_labels :
  actualLabels scenario_headers member_rows = strs ["dengue"; "constructor"].
Proof. reflexivity. Qed.

Lemma process_outcome_witness :
  (∀ fs, length (dengue_model fs) = length fs) ∧
  0 < length (kept scenario_headers scenario_rows) ∧
  Forall (λ l, ¬ names_member l)
         (actualLabels scenario_headers scenario_rows) ∧
  (∃ result,
     (process logistic dengue_model scenario_headers scenario_rows
              always_half).1 = inr result ∧
     totalRecords result = 2) ∧
  0 < length (kept scenario_headers member_rows) ∧
  Batch.hasValidLabels (actualLabels scenario_headers member_rows) = true ∧
  Exists names_member (actualLabels scenario_headers member_rows) ∧
  (process logistic dengue_model scenario_headers member_rows
           always_half).1 = inl TypeError.
Proof.
  split; [exact dengue_model_length|].
  assert (0 < length (kept scenario_headers scenario_rows)) as Hn.
  { vm_compute. apply le_S, le_n. }
  assert (Forall (λ l, ¬ names_member l)
                 (actualLabels scenario_headers scenario_rows)) as Hnone.
  { rewrite scenario_labels. repeat constructor; not_member. }
  assert (0 < length (kept scenario_headers member_rows)) as Hn'.
  { vm_compute. apply le_S, le_n. }
  assert (Batch.hasValidLabels (actualLabels scenario_headers member_rows)
          = true) as Hvalid by reflexivity.
  assert (Exists names_member (actualLabels scenario_headers member_rows))
    as Hex.
  { rewrite member_labels. apply Exists_cons_tl, Exists_cons_hd.
    apply list_elem_of_here. }
  split; [exact Hn|]. split; [exact Hnone|].
  destruct (process_outcome logistic dengue_model scenario_headers
              scenario_rows always_half dengue_model_length)
    as (_ & _ & Hsome).
  destruct (Hsome Hn (or_intror Hnone)) as (result & Hres & Htotal & _).
  split; [exists result; split; [exact Hres|exact Htotal]|].
  split; [exact Hn'|]. split; [exact Hvalid|]. split; [exact Hex|].
  destruct (process_outcome logistic dengue_model scenario_headers
              member_rows always_half dengue_model_length)
    as (_ & Hraise & _).
  exact (Hraise Hn' Hvalid Hex).
Defined.

Lemma scenario_result :
  ∃ result mt p,
    (process logistic dengue_model scenario_headers scenario_rows
             always_half).1 = inr result ∧
    metrics result = Some mt ∧
    Handler.predictions result !! 0 = Some p.
Proof.
  eexists _, _, _. split; [vm_compute; reflexivity|].
  split; reflexivity.
Qed.

Lemma process_reported_metrics_witness :
  ∃ result mt a a',
    (process logistic dengue_model scenario_headers scenario_rows
             always_half).1 = inr result ∧
    metrics result = Some mt ∧
    Evaluation.accuracy mt = JS.Fin a' ∧
    raised (0.95 * target_accuracy logistic) (target_accuracy logistic) a a'.
Proof.
  destruct scenario_result as (result & mt & _ & Hres & Hmt & _).
  destruct (process_reported_metrics logistic dengue_model scenario_headers
              scenario_rows always_half result mt Hres Hmt)
    as (f & a & p & r & f1 & a' & p' & r' & f1' & _ & _ & Hmt' & _ & _
        & Hraised & _).
  exists result, mt, a, a'.
  split; [exact Hres|]. split; [exact Hmt|].
  split; [|exact Hraised].
  rewrite Hmt'. reflexivity.
Defined.

Lemma unlabelled_result :
  ∃ result,
    (process neural dengue_model scenario_headers unlabelled_rows
             always_half).1 = inr result.
Proof. eexists. vm_compute. reflexivity. Qed.

Lemma blank_diagnosis_withholds_evaluation_witness :
  ∃ result,
    (process neural dengue_model scenario_headers unlabelled_rows
             always_half).1 = inr result ∧
    metrics result = None ∧ Handler.confusionMatrix result = None.
Proof.
  destruct unlabelled_result as (result & Hres).
  exists result. split; [exact Hres|].
  apply (blank_diagnosis_withholds_evaluation neural dengue_model
           scenario_headers unlabelled_rows always_half result);
    [|exact Hres].
  right. exists 2, (strs ["40"; "F"; ""]).
  split; [reflexivity|]. split; [|reflexivity].
  apply list_elem_of_further, list_elem_of_here.
Defined.

Lemma process_predictions_witness :
  ∃ result p,
    (process logistic dengue_model scenario_headers scenario_rows
             always_half).1 = inr result ∧
    Handler.predictions result !! 0 = Some p ∧
    Batch.id p = 1 ∧ (65 / 100 <= Batch.confidence p)%R.
Proof.
  destruct scenario_result as (result & _ & p & Hres & _ & Hp).
  destruct (process_predictions logistic dengue_model scenario_headers
              scenario_rows always_half result 0 p Hres Hp)
    as (Hid & _ & Hconf & _).
  exists result, p.
  split; [exact Hres|]. split; [exact Hp|]. split; [exact Hid|exact Hconf].
Defined.

Lemma extension_case_mismatch_witness :
  handleFileSelect
    {| name := list_ascii_of_string "DATA.XLSX";
       Handler.type := []; text := scenario_csv |}
  = Some {| name := list_ascii_of_string "DATA.XLSX";
            Handler.type := []; text := scenario_csv |}.
Proof.
  apply (extension_case_mismatch logistic (λ _, inl NoFile)
           (list_ascii_of_string "DATA") (list_ascii_of_string ".XLSX")
           [] scenario_csv dengue_model always_half).
  - reflexivity.
  - discriminate.
Defined.

End HandlerInstances.

Section DecisionInstances.
Import Random Calibration.
Local Open Scope R_scope.

Lemma scenario_probabilities_valid :
  Forall (λ p, 0 <= p) scenario_probabilities ∧
  Exists (λ p, 0 < p) scenario_probabilities ∧
  sum scenario_probabilities = 1.
Proof.
  unfold scenario_probabilities. split; [|split].
  - repeat constructor; lra.
  - apply Exists_cons_hd. lra.
  - unfold sum. cbn [foldl]. lra.
Qed.

Lemma calculateMetrics_of_labels_witness :
  ∃ m a,
    Evaluation.calculateConfusionMatrix [0; 1; 1]%nat [0; 2; 1]%nat = Some m ∧
    Evaluation.accuracy (Evaluation.calculateMetrics m) = JS.Fin a ∧
    (0 <= a ∧ a <= 1)%Q.
Proof.
  destruct (calculateMetrics_of_labels [0; 1; 1]%nat [0; 2; 1]%nat)
    as (m & a & p & r & f1 & Hm & Hmt & _ & Ha & _).
  - reflexivity.
  - discriminate.
  - repeat constructor.
  - repeat constructor.
  - exists m, a. split; [exact Hm|]. split; [|exact Ha].
    rewrite Hmt. reflexivity.
Defined.

Lemma measured_agrees_with_calculateMetrics_witness :
  Evaluation.accuracy (Handler.measured (of_counts (λ _ _, 1%nat)))
  = Evaluation.accuracy (Evaluation.calculateMetrics
                           (of_counts (λ _ _, 1%nat))).
Proof.
  destruct (measured_agrees_with_calculateMetrics (λ _ _, 1%nat))
    as (_ & _ & Hacc & _).
  apply Hacc. unfold all_cells. lia.
Defined.

Lemma plain_predict_normalises_witness :
  sum (probabilities (PlainCalibration.predict scenario_probabilities)) = 1.
Proof.
  destruct scenario_probabilities_valid as (Hall & Hex & _).
  destruct (plain_predict_normalises scenario_probabilities Hall Hex)
    as (Hsum & _).
  exact Hsum.
Defined.

Lemma plain_predict_sharpens_witness :
  (argmax_from 0 scenario_probabilities (0, 0%nat)).1
  <= confidence (PlainCalibration.predict scenario_probabilities).
Proof.
  destruct scenario_probabilities_valid as (Hall & _ & Hsum).
  exact (plain_predict_sharpens scenario_probabilities Hall Hsum).
Defined.

Lemma predict_normalises_witness :
  sum (probabilities (predict scenario_probabilities always_half).1) = 1.
Proof.
  destruct (predict_normalises scenario_probabilities always_half eq_refl)
    as (Hsum & _).
  exact Hsum.
Defined.

Lemma scenario_best :
  1 / 1000 < nth 0 scenario_probabilities 0 ∧
  ∀ j, (j < 3)%nat → j ≠ 0%nat →
       nth j scenario_probabilities 0 < nth 0 scenario_probabilities 0.
Proof.
  unfold scenario_probabilities. cbn [nth]. split; [lra|].
  intros j Hj Hne. destruct j as [|[|[|?]]]; [done| | |lia]; cbn [nth]; lra.
Qed.

Lemma predict_decision_follows_the_draw_witness :
  disease (predict scenario_probabilities always_half).1
  = nth ((0 + 3 - (random_below 3 always_half).1) mod 3) DISEASE_LABELS [].
Proof.
  destruct scenario_best as (Hfloor & Hbest).
  destruct (predict_decision_follows_the_draw scenario_probabilities 0
              always_half eq_refl ltac:(lia) Hfloor Hbest) as (Hd & _).
  exact Hd.
Defined.

Lemma predictBatch_calibrated_witness :
  Forall (λ row, length row = 3%nat) undecided_rows ∧
  Forall calibrated (predictBatch undecided_rows).
Proof.
  assert (Forall (λ row, length row = 3%nat) undecided_rows) as Hrows
    by (repeat constructor).
  split; [exact Hrows|].
  destruct (predictBatch_calibrated undecided_rows Hrows) as (_ & Hall).
  exact Hall.
Defined.

Lemma level_rows_moderate : Forall moderate level_rows.
Proof.
  assert (moderate [1 / 3; 1 / 3; 1 / 3]) as Hrow.
  { split; [done|]. intros p q Hp Hq.
    assert (∀ v, v ∈ [1 / 3; 1 / 3; 1 / 3] → v = 1 / 3) as Heq.
    { intros v Hv.
      repeat (apply elem_of_cons in Hv as [->|Hv]; [done|]).
      by apply elem_of_nil in Hv. }
    rewrite (Heq p Hp), (Heq q Hq).
    pose proof (scaled_pos (1 / 3)). lra. }
  unfold level_rows. do 2 (constructor; [exact Hrow|]). constructor.
Qed.

Lemma predictBatch_forces_balance_witness :
  count_of (nth 0 DISEASE_LABELS []) (map disease (predictBatch level_rows))
  = 1%nat.
Proof.
  exact (predictBatch_forces_balance level_rows 0 level_rows_moderate
                                     ltac:(lia)).
Defined.

End DecisionInstances.

Section CohortInstances.
Import Random Generator Normalizer.

Lemma small_cohort_normalises :
  ∃ r, normalizeFeatures (generateSampleData 3 always_half).1.1 = Some r.
Proof. eexists. vm_compute. reflexivity. Qed.

Lemma absent_symptoms_are_ignored_witness :
  ∃ r,
    normalizeFeatures (generateSampleData 3 always_half).1.1 = Some r ∧
    Input.normalize (min r) (max r) (replicate 53 1%Q) !! 24 = Some 0%Q.
Proof.
  destruct small_cohort_normalises as [r Hr].
  exists r. split; [exact Hr|].
  destruct (absent_symptoms_are_ignored 3 always_half r (replicate 53 1%Q)
              (list_ascii_of_string "hemoptysis") 24 Hr)
    as (_ & _ & Hzero).
  - apply list_elem_of_here.
  - reflexivity.
  - vm_compute. lia.
  - exact Hzero.
Defined.


End CohortInstances.

Section PageInstances.
Import Text Page.

Lemma page_batch_ignores_the_cells_witness :
  length (kept scenario_headers scenario_rows)
  = length (kept scenario_headers unlabelled_rows) ∧
  page_view (process Handler.neural scenario_headers scenario_rows
                     always_half).1
  = page_view (process Handler.neural scenario_headers unlabelled_rows
                       always_half).1.
Proof.
  assert (length (kept scenario_headers scenario_rows)
          = length (kept scenario_headers unlabelled_rows)) as Hsame
    by reflexivity.
  split; [exact Hsame|].
  exact (page_batch_ignores_the_cells Handler.neural scenario_headers
           scenario_headers scenario_rows unlabelled_rows always_half Hsame).
Defined.

End PageInstances.

Section NestedInstances.
Import Text Encoder.

Lemma actualLabels_match_features_witness :
  ∃ td, convertToTrainingData scenario_headers scenario_rows = Some td ∧
        hasLabels td = true ∧
        length (Handler.actualLabels scenario_headers scenario_rows)
        = length (features td).
Proof.
  destruct (actualLabels_match_features scenario_headers scenario_rows)
    as (td & Htd & _ & Hsome).
  assert (hasLabels td = true) as Hl.
  { assert (∃ td', convertToTrainingData scenario_headers scenario_rows
                   = Some td' ∧ hasLabels td' = true) as (td' & Htd' & Hl')
      by (eexists; split; vm_compute; reflexivity).
    rewrite Htd in Htd'. injection Htd' as <-. exact Hl'. }
  destruct (Hsome Hl) as (_ & Hlen & _).
  exists td. split; [exact Htd|]. split; [exact Hl|exact Hlen].
Defined.

Lemma page_prediction_is_drawn_witness :
  complete [(list_ascii_of_string "age", list_ascii_of_string "30")] ∧
  ∃ r, (Page.handlePredict Handler.neural
          [(list_ascii_of_string "age", list_ascii_of_string "30")]
          always_half).1 = inr r ∧
       (0.6 <= Page.confidence r)%Q.
Proof.
  assert (complete [(list_ascii_of_string "age", list_ascii_of_string "30")])
    as Hc by (constructor; [discriminate|constructor]).
  split; [exact Hc|].
  destruct (page_prediction_is_drawn Handler.neural
              [(list_ascii_of_string "age", list_ascii_of_string "30")]
              always_half) as (_ & Hsome & _).
  destruct (Hsome Hc) as (r & _ & _ & _ & Hr & _ & _ & _ & _ & _ & _ & _
                          & [Hconf _] & _).
  exists r. split; [exact Hr|exact Hconf].
Defined.

Lemma page_batch_is_staged_witness :
  0 < length (kept scenario_headers scenario_rows) ∧
  ∃ result,
    (Page.process Handler.logistic scenario_headers scenario_rows
                  always_half).1 = inr result ∧
    Page.totalRecords result = 2 ∧
    (matrix_accuracy (Page.confusionMatrix result)
     < Page.accuracy (Page.metrics result))%Q.
Proof.
  assert (0 < length (kept scenario_headers scenario_rows)) as Hn.
  { vm_compute. apply le_S, le_n. }
  split; [exact Hn|].
  destruct (page_batch_is_staged Handler.logistic scenario_headers
              scenario_rows always_half) as (_ & Hsome).
  destruct (Hsome Hn) as (result & Hres & Htotal & _ & _ & _ & _ & _ & _ & _
                          & _ & Hacc).
  exists result. split; [exact Hres|]. split; [exact Htotal|].
  exact (Hacc eq_refl).
Defined.

End NestedInstances.
